(** * The OpenCL spatial-mean operation of the TensorFlow Lite GPU delegate

    A shallow embedding of
    [tensorflow/lite/delegates/gpu/cl/kernels/mean.cc]: the constructor that
    picks the work-group size, the generator of the kernel source, the binder
    of the two scalar arguments and the grid size, followed by a small
    semantics of the emitted OpenCL-C fragment and the properties of the
    operation.

    Conventions.
    - A C++ [int] is a [Z], and [/] on [int] is [Z.quot].  [in_int] is the
      range of a 32-bit [int].  The grid size takes its product as the
      machine does, modulo [2^32] ([int_mul]).  The binder and the generator
      take their products ([Width * Height], [x * y]) exactly; a statement
      about the value that the code computes from such a product carries
      [in_int] of the product as a hypothesis, and there the exact product is
      the one of the code.
    - A [double] or [float] is a rational of [Q]: arithmetic is exact, and
      a statement about the scalars is a statement in exact arithmetic over
      the formulas that the binder evaluates, not about the rounded [float]
      that [SetFloat] receives.  The source divides by [size_1] and
      [size_0]; IEEE division by zero yields an infinity that [Q] does not
      have, so every statement about the scalars assumes a non-empty source
      plane ([Qdiv] is only used away from zero).
    - A work-group is run with [x * y] lanes: its size along z is 1, as the
      constructor sets it ("must be: z = 1"), and the statements about a
      work-group of any size assume it.
    - [std::vector::operator[]] out of range is undefined in C++; here it is
      [None]. *)

From Stdlib Require Import ZArith QArith List String Ascii Bool Lia Field Permutation.
From Stdlib Require Import DecimalString.
From Equations Require Import Equations.
Import ListNotations.

#[local] Open Scope string_scope.
#[local] Open Scope Z_scope.

(** ** Data model *)

Record int3 : Type := mk_int3 { int3_x : Z; int3_y : Z; int3_z : Z }.

(** The range of a C++ [int] of 32 bits, and the product of two [int]s as
    the machine takes it: modulo [2^32], into that range.  (C++ leaves the
    product undefined outside the range.) *)
Definition int_min : Z := -2147483648.

Definition int_max : Z := 2147483647.

Definition in_int (z : Z) : Prop := int_min <= z <= int_max.

Definition wrap_int (z : Z) : Z := (z - int_min) mod 4294967296 + int_min.

Definition int_mul (a b : Z) : Z := wrap_int (a * b).

(** Modelled from the spec: [DeviceInfo], [AdrenoInfo] and [MaliInfo] are
    declared in a header that is not part of the source file.  The spec gives
    a device a vendor family tag (Adreno, Mali, or other) and, for Adreno, a
    generation (3xx or newer); for Mali, a generation (T6xx/T7xx/T8xx or
    newer).  The predicates are the ones the constructor calls. *)
Inductive Vendor : Type := Adreno | Mali | OtherVendor.

Inductive AdrenoGeneration : Type := Adreno3xx | AdrenoNewer.

Inductive MaliGeneration : Type := MaliT6xx | MaliT7xx | MaliT8xx | MaliNewer.

Record AdrenoInfo : Type := { adreno_generation : AdrenoGeneration }.

Record MaliInfo : Type := { mali_generation : MaliGeneration }.

Record DeviceInfo : Type := {
  vendor : Vendor;
  adreno_info : AdrenoInfo;
  mali_info : MaliInfo
}.

Definition IsAdreno (d : DeviceInfo) : bool :=
  match vendor d with Adreno => true | _ => false end.

Definition IsMali (d : DeviceInfo) : bool :=
  match vendor d with Mali => true | _ => false end.

Definition IsAdreno3xx (a : AdrenoInfo) : bool :=
  match adreno_generation a with Adreno3xx => true | AdrenoNewer => false end.

Definition IsMaliT6xx (m : MaliInfo) : bool :=
  match mali_generation m with MaliT6xx => true | _ => false end.

Definition IsMaliT7xx (m : MaliInfo) : bool :=
  match mali_generation m with MaliT7xx => true | _ => false end.

Definition IsMaliT8xx (m : MaliInfo) : bool :=
  match mali_generation m with MaliT8xx => true | _ => false end.

(** Modelled from the spec: tensor descriptors are declared elsewhere; each
    carries an axis set that may include [BATCH]. *)
Inductive Axis : Type := WIDTH | HEIGHT | CHANNELS | BATCH.

Definition Axis_eqb (a b : Axis) : bool :=
  match a, b with
  | WIDTH, WIDTH | HEIGHT, HEIGHT | CHANNELS, CHANNELS | BATCH, BATCH => true
  | _, _ => false
  end.

Record TensorDescriptor : Type := { axes : list Axis }.

Definition HasAxis (t : TensorDescriptor) (a : Axis) : bool :=
  existsb (Axis_eqb a) (axes t).

Inductive CalculationsPrecision : Type := F32 | F16.

Record OperationDef : Type := {
  precision : CalculationsPrecision;
  src_tensors : list TensorDescriptor;
  dst_tensors : list TensorDescriptor
}.

(** A tensor bound at dispatch time, seen through the accessors the
    operation calls. *)
Record Tensor : Type := {
  Width : Z;
  Height : Z;
  Slices : Z;
  Batch : Z
}.

(** What the generator registers with [args_], in registration order. *)
Inductive ArgDecl : Type :=
| SrcTensorArg (name : string) (desc : TensorDescriptor)
| DstTensorArg (name : string) (desc : TensorDescriptor)
| FloatArg (name : string).

(** The state of a [Mean] operation (the fields of [GPUOperation] that
    mean.cc reads or writes). *)
Record Mean : Type := {
  definition_ : OperationDef;
  work_group_size_ : int3;
  code_ : string;
  args_ : list ArgDecl;
  src_ : list Tensor;
  dst_ : list Tensor
}.

(** [absl::Status]. *)
Inductive Status : Type := OkStatus | ErrorStatus (message : string).

Definition ok (s : Status) : bool :=
  match s with OkStatus => true | ErrorStatus _ => false end.

(** The interface [ArgumentsBinder]: only [SetFloat] is used. *)
Class ArgumentsBinder (B : Type) : Type := {
  SetFloat : string -> Q -> B -> Status * B
}.

(** ** Text *)

Definition nl : string := String (ascii_of_nat 10) EmptyString.

(** [std::to_string] on an [int]. *)
Definition to_string (n : Z) : string := NilZero.string_of_int (Z.to_int n).

(** ** The emitted language

    The fragment of OpenCL-C that the generator can produce, as syntax.  The
    generator of the source file builds text; [GetMeanKernelCode] below does
    the same, and [kernel_text_is_rendering] shows that the text is the
    rendering of the syntax tree that [MeanKernel] builds along the same
    control flow. *)

Inductive TensorName : Type := src_tensor | dst_tensor.

Inductive Dim : Type := DWidth | DHeight | DSlices | DBatch.

(** Integer expressions. *)
Inductive iexp : Type :=
| INum (n : Z)
| IVar (v : string)
| ILocalId (k : Z)                      (* get_local_id(k) *)
| IGlobalId (k : Z)                     (* get_global_id(k) *)
| IAdd (a b : iexp)
| IMul (a b : iexp)
| IDiv (a b : iexp)
| IMod (a b : iexp)
| IDim (t : TensorName) (d : Dim).      (* args.t.d() *)

(** [float4] expressions. *)
Inductive vexp : Type :=
| VZero                                 (* (float4)(0.0f) *)
| VAccum (i : iexp)                     (* accum[i] *)
| VVar (v : string)
| VRead (sx sy s : iexp)                (* args.src_tensor.Read<float>(sx, sy, s) *)
| VMulArg (a : vexp) (arg : string).    (* a * args.arg *)

#[warnings="-register-all"]
Inductive stmt : Type :=
| SLocalArray (n : Z)                   (* __local float4 accum[n]; *)
| SInt (v : string) (e : iexp)          (* int v = e; *)
| SSetBatchRef (t : TensorName) (e : iexp)
| SReturnIfGe (a b : iexp)              (* if (a >= b) return; *)
| SAccumSet (i : iexp) (e : vexp)       (* accum[i] = e; *)
| SAccumAdd (i : iexp) (e : vexp)       (* accum[i] += e; *)
| SAccumMulArg (i : iexp) (arg : string)(* accum[i] *= args.arg; *)
| SFor (v : string) (init bound step : iexp) (body : list stmt)
| SIfLt (a b : iexp) (body : list stmt) (* if (a < b) { body } *)
| SBarrier                              (* barrier(CLK_LOCAL_MEM_FENCE); *)
| SFloat4 (v : string) (e : vexp)       (* float4 v = e; *)
| SVAdd (v : string) (e : vexp)         (* v += e; *)
| SFlt4 (v : string) (e : vexp)         (* FLT4 v = TO_FLT4(e); *)
| SWrite (v : string) (dx dy ds : iexp). (* args.dst_tensor.Write(v, dx, dy, ds); *)

(** *** Rendering *)

Definition tensor_text (t : TensorName) : string :=
  match t with src_tensor => "src_tensor" | dst_tensor => "dst_tensor" end.

Definition dim_text (d : Dim) : string :=
  match d with
  | DWidth => "Width" | DHeight => "Height"
  | DSlices => "Slices" | DBatch => "Batch"
  end.

Definition is_sum (e : iexp) : bool :=
  match e with IAdd _ _ => true | _ => false end.

Definition is_binary (e : iexp) : bool :=
  match e with
  | IAdd _ _ | IMul _ _ | IDiv _ _ | IMod _ _ => true
  | _ => false
  end.

Definition parens (b : bool) (s : string) : string :=
  if b then "(" ++ s ++ ")" else s.

(** Operands are parenthesised where C's precedence would otherwise read the
    text as another tree. *)
Fixpoint iexp_text (e : iexp) : string :=
  let factor (l : bool) (a : iexp) :=
    parens (if l then is_sum a else is_binary a) (iexp_text a) in
  match e with
  | INum n => to_string n
  | IVar v => v
  | ILocalId k => "get_local_id(" ++ to_string k ++ ")"
  | IGlobalId k => "get_global_id(" ++ to_string k ++ ")"
  | IAdd a b => iexp_text a ++ " + " ++ parens (is_binary b) (iexp_text b)
  | IMul a b => factor true a ++ " * " ++ factor false b
  | IDiv a b => factor true a ++ " / " ++ factor false b
  | IMod a b => factor true a ++ " % " ++ factor false b
  | IDim t d => "args." ++ tensor_text t ++ "." ++ dim_text d ++ "()"
  end.

Fixpoint vexp_text (e : vexp) : string :=
  match e with
  | VZero => "(float4)(0.0f)"
  | VAccum i => "accum[" ++ iexp_text i ++ "]"
  | VVar v => v
  | VRead sx sy s =>
      "args.src_tensor.Read<float>(" ++ iexp_text sx ++ ", " ++ iexp_text sy
        ++ ", " ++ iexp_text s ++ ")"
  | VMulArg a arg => vexp_text a ++ " * args." ++ arg
  end.

Fixpoint stmt_text (ind : string) (s : stmt) : string :=
  let block := fix block (ss : list stmt) : string :=
    match ss with
    | [] => ""
    | s' :: ss' => stmt_text (ind ++ "  ") s' ++ block ss'
    end in
  match s with
  | SLocalArray n => ind ++ "__local float4 accum[" ++ to_string n ++ "];" ++ nl
  | SInt v e => ind ++ "int " ++ v ++ " = " ++ iexp_text e ++ ";" ++ nl
  | SSetBatchRef t e =>
      ind ++ "args." ++ tensor_text t ++ ".SetBatchRef(" ++ iexp_text e ++ ");" ++ nl
  | SReturnIfGe a b =>
      ind ++ "if (" ++ iexp_text a ++ " >= " ++ iexp_text b ++ ") return;" ++ nl
  | SAccumSet i e =>
      ind ++ "accum[" ++ iexp_text i ++ "] = " ++ vexp_text e ++ ";" ++ nl
  | SAccumAdd i e =>
      ind ++ "accum[" ++ iexp_text i ++ "] += " ++ vexp_text e ++ ";" ++ nl
  | SAccumMulArg i arg =>
      ind ++ "accum[" ++ iexp_text i ++ "] *= args." ++ arg ++ ";" ++ nl
  | SFor v init bound step body =>
      ind ++ "for (int " ++ v ++ " = " ++ iexp_text init ++ "; " ++ v ++ " < "
        ++ iexp_text bound ++ "; " ++ v ++ " += " ++ iexp_text step ++ ") {" ++ nl
        ++ block body ++ ind ++ "}" ++ nl
  | SIfLt a b body =>
      ind ++ "if (" ++ iexp_text a ++ " < " ++ iexp_text b ++ ") {" ++ nl
        ++ block body ++ ind ++ "}" ++ nl
  | SBarrier => ind ++ "barrier(CLK_LOCAL_MEM_FENCE);" ++ nl
  | SFloat4 v e => ind ++ "float4 " ++ v ++ " = " ++ vexp_text e ++ ";" ++ nl
  | SVAdd v e => ind ++ v ++ " += " ++ vexp_text e ++ ";" ++ nl
  | SFlt4 v e => ind ++ "FLT4 " ++ v ++ " = TO_FLT4(" ++ vexp_text e ++ ");" ++ nl
  | SWrite v dx dy ds =>
      ind ++ "args.dst_tensor.Write(" ++ v ++ ", " ++ iexp_text dx ++ ", "
        ++ iexp_text dy ++ ", " ++ iexp_text ds ++ ");" ++ nl
  end.

Fixpoint block_text (ind : string) (ss : list stmt) : string :=
  match ss with
  | [] => ""
  | s :: ss' => stmt_text ind s ++ block_text ind ss'
  end.

(** The entry point around a body: [$0] is the placeholder of the argument
    list, filled in by the host. *)
Definition kernel_text (body : list stmt) : string :=
  "__kernel void main_function(" ++ nl ++ "$0) {" ++ nl
    ++ block_text "  " body ++ "}" ++ nl.

(** ** The generator *)

(** The first loop of [GetMeanKernelCode]:
    [for (; reminder >= 8; reminder /= 4, offset *= 4)].  It returns the text
    together with the values of [reminder] and [offset] at the exit. *)
Equations? tree_code (reminder offset : Z) (c : string) : string * (Z * Z)
  by wf (Z.to_nat reminder) lt :=
  tree_code reminder offset c with Z_ge_dec reminder 8 := {
    | left _ =>
        let c := c ++ "  if (local_id < " ++ to_string reminder ++ ") {" ++ nl in
        let c := c ++ "    int t = local_id * " ++ to_string (offset * 4) ++ ";" ++ nl in
        let c := c ++ "    float4 sum = accum[t + " ++ to_string offset ++ "];" ++ nl in
        let c := c ++ "    sum += accum[t + " ++ to_string (offset * 2) ++ "];" ++ nl in
        let c := c ++ "    sum += accum[t + " ++ to_string (offset * 3) ++ "];" ++ nl in
        let c := c ++ "    accum[t] += sum;" ++ nl in
        let c := c ++ "  }" ++ nl in
        let c := c ++ "  barrier(CLK_LOCAL_MEM_FENCE);" ++ nl in
        tree_code (reminder ÷ 4) (offset * 4) c
    | right _ => (c, (reminder, offset)) }.
Proof.
  pose proof (Z.quot_lt reminder 4). lia.
Qed.

(** The second loop: [for (int i = 1; i < reminder; ++i)]. *)
Equations? tail_code (i reminder offset : Z) (c : string) : string
  by wf (Z.to_nat (reminder - i)) lt :=
  tail_code i reminder offset c with Z_lt_dec i reminder := {
    | left _ =>
        let c := c ++ "  sum += accum[" ++ to_string (offset * i) ++ "];" ++ nl in
        tail_code (i + 1) reminder offset c
    | right _ => c }.
Proof.
  lia.
Qed.

(** The part of [Mean::Mean] that assigns [work_group_size_]: the default,
    then the Adreno branch, then the Mali branch. *)
Definition work_group_size_for (device_info : DeviceInfo) : int3 :=
  let work_group_size_ := mk_int3 16 16 1 in
  let work_group_size_ :=
    if IsAdreno device_info then
      if IsAdreno3xx (adreno_info device_info) then mk_int3 16 8 1
      else work_group_size_
    else work_group_size_ in
  let work_group_size_ :=
    if IsMali device_info then
      let mali_info := mali_info device_info in
      if IsMaliT6xx mali_info || IsMaliT7xx mali_info || IsMaliT8xx mali_info
      then mk_int3 8 4 1
      else mk_int3 8 8 1
    else work_group_size_ in
  work_group_size_.

Section Generator.

(** [GetCommonDefines] lives in another file of the delegate; the text it
    returns is a prefix of the kernel source and is kept abstract. *)
Variable GetCommonDefines : CalculationsPrecision -> string.

(** [Mean::GetMeanKernelCode].  The method appends to [args_] and returns
    the source text. *)
Definition GetMeanKernelCode (args_ : list ArgDecl) (op_def : OperationDef)
    (work_group_size : int3) : option (list ArgDecl * string) :=
  match nth_error (src_tensors op_def) 0, nth_error (dst_tensors op_def) 0 with
  | Some src0, Some dst0 =>
    let args_ := (args_ ++ [SrcTensorArg "src_tensor" src0])%list in
    let args_ := (args_ ++ [DstTensorArg "dst_tensor" dst0])%list in
    let args_ := (args_ ++ [FloatArg "inv_multiplier_1"])%list in
    let args_ := (args_ ++ [FloatArg "inv_multiplier_2"])%list in
    let c := GetCommonDefines (precision op_def) in
    let wg_x := to_string (int3_x work_group_size) in
    let wg_y := to_string (int3_y work_group_size) in
    let c := c ++ "__kernel void main_function(" ++ nl in
    let c := c ++ "$0) {" ++ nl in
    let c := c ++ "  __local float4 accum["
               ++ to_string (int3_x work_group_size * int3_y work_group_size)
               ++ "];" ++ nl in
    let c := c ++ "  int local_x = get_local_id(0);" ++ nl in
    let c := c ++ "  int local_y = get_local_id(1);" ++ nl in
    let c := c ++ "  int local_id = local_y * " ++ wg_x ++ " + local_x;" ++ nl in
    let c :=
      if HasAxis dst0 BATCH then
        let c := c ++ "  int linear_id_2 = get_global_id(2);" ++ nl in
        let c := c ++ "  int S = linear_id_2 / args.dst_tensor.Batch();" ++ nl in
        let c := c ++ "  int B = linear_id_2 % args.dst_tensor.Batch();" ++ nl in
        let c := c ++ "  args.dst_tensor.SetBatchRef(B);" ++ nl in
        let c := c ++ "  args.src_tensor.SetBatchRef(B);" ++ nl in
        c
      else
        let c := c ++ "  int S = get_global_id(2);" ++ nl in
        c in
    let c := c ++ "  if (S >= args.dst_tensor.Slices()) return;" ++ nl in
    let c := c ++ "  accum[local_id] = (float4)(0.0f);" ++ nl in
    let c := c ++ "  for (int s_y = local_y; s_y < args.src_tensor.Height(); s_y += "
               ++ wg_y ++ ") {" ++ nl in
    let c := c ++ "    for (int s_x = local_x; s_x < args.src_tensor.Width(); s_x += "
               ++ wg_x ++ ") {" ++ nl in
    let c := c ++ "      accum[local_id] += args.src_tensor.Read<float>(s_x, s_y, S);" ++ nl in
    let c := c ++ "    }" ++ nl in
    let c := c ++ "  }" ++ nl in
    let c := c ++ "  accum[local_id] *= args.inv_multiplier_1;" ++ nl in
    let c := c ++ "  barrier(CLK_LOCAL_MEM_FENCE);" ++ nl in
    let total_size := int3_x work_group_size * int3_y work_group_size in
    let offset := 1 in
    let reminder := total_size ÷ 4 in
    let '(c, (reminder, offset)) := tree_code reminder offset c in
    let c := c ++ "  float4 sum = accum[0];" ++ nl in
    let reminder := reminder * 4 in
    let c := tail_code 1 reminder offset c in
    let c := c ++ "  FLT4 result = TO_FLT4(sum * args.inv_multiplier_2);" ++ nl in
    let c := c ++ "  args.dst_tensor.Write(result, 0, 0, S);" ++ nl in
    let c := c ++ "}" ++ nl in
    Some (args_, c)
  | _, _ => None
  end.

(** [Mean::Mean].  The constructor first settles [work_group_size_]
    (the assignments under the comment "for workgroup size"), then
    generates the code. *)
Definition Mean_new (definition : OperationDef) (device_info : DeviceInfo)
    : option Mean :=
  let work_group_size_ := work_group_size_for device_info in
  match GetMeanKernelCode [] definition work_group_size_ with
  | Some (args_, code_) =>
      Some {| definition_ := definition;
              work_group_size_ := work_group_size_;
              code_ := code_;
              args_ := args_;
              src_ := [];
              dst_ := [] |}
  | None => None
  end.

(** [CreateMean]. *)
Definition CreateMean (definition : OperationDef) (device_info : DeviceInfo)
    : option Mean :=
  Mean_new definition device_info.

End Generator.

(** Binding tensors to a constructed operation ([GPUOperation::SetSrc] and
    [SetDst], which store the pointers that [src_[0]] and [dst_[0]] read). *)
Definition SetSrc (m : Mean) (t : Tensor) : Mean :=
  {| definition_ := definition_ m; work_group_size_ := work_group_size_ m;
     code_ := code_ m; args_ := args_ m; src_ := [t]; dst_ := dst_ m |}.

Definition SetDst (m : Mean) (t : Tensor) : Mean :=
  {| definition_ := definition_ m; work_group_size_ := work_group_size_ m;
     code_ := code_ m; args_ := args_ m; src_ := src_ m; dst_ := [t] |}.

(** [Mean::BindArguments], in exact arithmetic: the two [int] products as
    products of integers, the [double]s as rationals.  [RETURN_IF_ERROR]
    leaves with the first status that is not ok. *)
Definition BindArguments {B : Type} `{ArgumentsBinder B} (m : Mean) (args : B)
    : option (Status * B) :=
  match nth_error (src_ m) 0 with
  | Some src0 =>
      let total_size : Q := inject_Z (Width src0 * Height src0) in
      let size_0 : Q :=
        inject_Z (int3_x (work_group_size_ m) * int3_y (work_group_size_ m)) in
      let size_1 : Q := (total_size / size_0)%Q in
      let '(st, args) := SetFloat "inv_multiplier_1" (1 / size_1)%Q args in
      if ok st then
        let '(st, args) := SetFloat "inv_multiplier_2" (1 / size_0)%Q args in
        if ok st then Some (OkStatus, args) else Some (st, args)
      else Some (st, args)
  | None => None
  end.

(** [Mean::GetGridSize]; [grid_z] is a product of two [int]s. *)
Definition GetGridSize (m : Mean) : option int3 :=
  match nth_error (dst_ m) 0 with
  | Some dst0 =>
      let grid_x := int3_x (work_group_size_ m) in
      let grid_y := int3_y (work_group_size_ m) in
      let grid_z := int_mul (Slices dst0) (Batch dst0) in
      Some (mk_int3 grid_x grid_y grid_z)
  | None => None
  end.

(** ** The kernel as syntax *)

(** The two loops of [GetMeanKernelCode] again, building syntax instead of
    text. *)
Definition tree_step (reminder offset : Z) : list stmt :=
  [ SIfLt (IVar "local_id") (INum reminder)
      [ SInt "t" (IMul (IVar "local_id") (INum (offset * 4)));
        SFloat4 "sum" (VAccum (IAdd (IVar "t") (INum offset)));
        SVAdd "sum" (VAccum (IAdd (IVar "t") (INum (offset * 2))));
        SVAdd "sum" (VAccum (IAdd (IVar "t") (INum (offset * 3))));
        SAccumAdd (IVar "t") (VVar "sum") ];
    SBarrier ].

Equations? tree_stmts (reminder offset : Z) : list stmt * (Z * Z)
  by wf (Z.to_nat reminder) lt :=
  tree_stmts reminder offset with Z_ge_dec reminder 8 := {
    | left _ =>
        let '(rest, final) := tree_stmts (reminder ÷ 4) (offset * 4) in
        ((tree_step reminder offset ++ rest)%list, final)
    | right _ => ([], (reminder, offset)) }.
Proof.
  pose proof (Z.quot_lt reminder 4). lia.
Qed.

Equations? tail_stmts (i reminder offset : Z) : list stmt
  by wf (Z.to_nat (reminder - i)) lt :=
  tail_stmts i reminder offset with Z_lt_dec i reminder := {
    | left _ =>
        SVAdd "sum" (VAccum (INum (offset * i))) :: tail_stmts (i + 1) reminder offset
    | right _ => [] }.
Proof.
  lia.
Qed.

(** The body of the kernel as syntax, along the control flow of
    [GetMeanKernelCode]; [batch] is [dst_tensors[0].HasAxis(Axis::BATCH)]. *)
Definition local_ids (work_group_size : int3) : list stmt :=
  [ SLocalArray (int3_x work_group_size * int3_y work_group_size);
    SInt "local_x" (ILocalId 0);
    SInt "local_y" (ILocalId 1);
    SInt "local_id" (IAdd (IMul (IVar "local_y") (INum (int3_x work_group_size)))
                          (IVar "local_x")) ].

Definition slice_and_batch (batch : bool) : list stmt :=
  if batch then
    [ SInt "linear_id_2" (IGlobalId 2);
      SInt "S" (IDiv (IVar "linear_id_2") (IDim dst_tensor DBatch));
      SInt "B" (IMod (IVar "linear_id_2") (IDim dst_tensor DBatch));
      SSetBatchRef dst_tensor (IVar "B");
      SSetBatchRef src_tensor (IVar "B") ]
  else
    [ SInt "S" (IGlobalId 2) ].

Definition early_exit : list stmt :=
  [ SReturnIfGe (IVar "S") (IDim dst_tensor DSlices) ].

Definition prologue (batch : bool) (work_group_size : int3) : list stmt :=
  (local_ids work_group_size ++ slice_and_batch batch ++ early_exit)%list.

Definition accumulation (work_group_size : int3) : list stmt :=
  [ SAccumSet (IVar "local_id") VZero;
    SFor "s_y" (IVar "local_y") (IDim src_tensor DHeight)
         (INum (int3_y work_group_size))
      [ SFor "s_x" (IVar "local_x") (IDim src_tensor DWidth)
             (INum (int3_x work_group_size))
          [ SAccumAdd (IVar "local_id")
                      (VRead (IVar "s_x") (IVar "s_y") (IVar "S")) ] ];
    SAccumMulArg (IVar "local_id") "inv_multiplier_1";
    SBarrier ].

Definition reduction (work_group_size : int3) : list stmt :=
  let total_size := int3_x work_group_size * int3_y work_group_size in
  let '(steps, (reminder, offset)) := tree_stmts (total_size ÷ 4) 1 in
  (steps
   ++ [ SFloat4 "sum" (VAccum (INum 0)) ]
   ++ tail_stmts 1 (reminder * 4) offset)%list.

Definition epilogue : list stmt :=
  [ SFlt4 "result" (VMulArg (VVar "sum") "inv_multiplier_2");
    SWrite "result" (INum 0) (INum 0) (IVar "S") ].

Definition kernel_body (batch : bool) (work_group_size : int3) : list stmt :=
  (prologue batch work_group_size ++ accumulation work_group_size
   ++ reduction work_group_size ++ epilogue)%list.

Definition MeanKernel (op_def : OperationDef) (work_group_size : int3)
    : option (list stmt) :=
  match nth_error (src_tensors op_def) 0, nth_error (dst_tensors op_def) 0 with
  | Some _, Some dst0 => Some (kernel_body (HasAxis dst0 BATCH) work_group_size)
  | _, _ => None
  end.

(** ** Semantics of the emitted language

    One work-group runs the kernel.  Values of type [float4] are symbolic: a
    value records which source cells were read, how they were added and by
    which scalars they were multiplied, so that "summed exactly once" is a
    statement about the expression a lane ends up with. *)

Inductive f4 : Type :=
| F0
| FRead (b : option Z) (sx sy s : Z)    (* the source at (sx, sy, s) of batch b *)
| FAdd (a b : f4)
| FMul (a : f4) (q : Q).

(** What is fixed for the whole dispatch: the bound tensors, the table of
    scalar arguments and the index of the work-group along z.  With local
    size 1 along z and one work-group along x and y, [get_global_id(2)] is
    the z index of the group and [get_global_id(0)], [get_global_id(1)] are
    the local ids. *)
Record Launch : Type := {
  launch_src : Tensor;
  launch_dst : Tensor;
  launch_args : list (string * Q);
  launch_z : Z
}.

(** One work-item.  [ints] and [vecs] are the [int] and [float4] variables
    in scope, innermost first. *)
Record Lane : Type := {
  local_x : Z;
  local_y : Z;
  ints : list (string * Z);
  vecs : list (string * f4);
  src_batch : option Z;
  dst_batch : option Z;
  returned : bool
}.

(** An access to a cell of [accum]. *)
Record Access : Type := {
  acc_lane : Z * Z;
  acc_write : bool;
  acc_cell : Z
}.

(** A store to the destination tensor. *)
Record Store : Type := {
  st_lane : Z * Z;
  st_batch : option Z;
  st_x : Z;
  st_y : Z;
  st_s : Z;
  st_value : f4
}.

(** What the lanes of a work-group share: local memory (a cell is [None]
    until it is written), the stores so far and the accesses to [accum]
    since the last barrier, latest first. *)
Record Group : Type := {
  accum : list (option f4);
  stores : list Store;
  trace : list Access
}.

Fixpoint lookup {A : Type} (k : string) (env : list (string * A)) : option A :=
  match env with
  | [] => None
  | (k', a) :: env' => if String.eqb k k' then Some a else lookup k env'
  end.

(** Assignment to the innermost variable of that name. *)
Fixpoint assign {A : Type} (k : string) (a : A) (env : list (string * A))
    : list (string * A) :=
  match env with
  | [] => []
  | (k', a') :: env' =>
      if String.eqb k k' then (k', a) :: env' else (k', a') :: assign k a env'
  end.

Definition declare_int (v : string) (n : Z) (ln : Lane) : Lane :=
  {| local_x := local_x ln; local_y := local_y ln;
     ints := (v, n) :: ints ln; vecs := vecs ln;
     src_batch := src_batch ln; dst_batch := dst_batch ln;
     returned := returned ln |}.

Definition assign_int (v : string) (n : Z) (ln : Lane) : Lane :=
  {| local_x := local_x ln; local_y := local_y ln;
     ints := assign v n (ints ln); vecs := vecs ln;
     src_batch := src_batch ln; dst_batch := dst_batch ln;
     returned := returned ln |}.

Definition declare_vec (v : string) (a : f4) (ln : Lane) : Lane :=
  {| local_x := local_x ln; local_y := local_y ln;
     ints := ints ln; vecs := (v, a) :: vecs ln;
     src_batch := src_batch ln; dst_batch := dst_batch ln;
     returned := returned ln |}.

Definition assign_vec (v : string) (a : f4) (ln : Lane) : Lane :=
  {| local_x := local_x ln; local_y := local_y ln;
     ints := ints ln; vecs := assign v a (vecs ln);
     src_batch := src_batch ln; dst_batch := dst_batch ln;
     returned := returned ln |}.

Definition set_batch (t : TensorName) (b : Z) (ln : Lane) : Lane :=
  {| local_x := local_x ln; local_y := local_y ln;
     ints := ints ln; vecs := vecs ln;
     src_batch := match t with src_tensor => Some b | dst_tensor => src_batch ln end;
     dst_batch := match t with dst_tensor => Some b | src_tensor => dst_batch ln end;
     returned := returned ln |}.

Definition set_returned (ln : Lane) : Lane :=
  {| local_x := local_x ln; local_y := local_y ln;
     ints := ints ln; vecs := vecs ln;
     src_batch := src_batch ln; dst_batch := dst_batch ln;
     returned := true |}.

(** Leaving a block: the variables declared inside go out of scope,
    assignments to outer variables stay. *)
Definition leave_scope (outer inner : Lane) : Lane :=
  {| local_x := local_x inner; local_y := local_y inner;
     ints := skipn (List.length (ints inner) - List.length (ints outer))%nat (ints inner);
     vecs := skipn (List.length (vecs inner) - List.length (vecs outer))%nat (vecs inner);
     src_batch := src_batch inner; dst_batch := dst_batch inner;
     returned := returned inner |}.

Definition tensor_dim (t : Tensor) (d : Dim) : Z :=
  match d with
  | DWidth => Width t | DHeight => Height t
  | DSlices => Slices t | DBatch => Batch t
  end.

(** *** Local memory *)

Definition cell_index (g : Group) (i : Z) : option nat :=
  if (0 <=? i) && (i <? Z.of_nat (List.length (accum g)))
  then Some (Z.to_nat i) else None.

Definition logged (ln : Lane) (w : bool) (i : Z) (g : Group) : Group :=
  {| accum := accum g; stores := stores g;
     trace := {| acc_lane := (local_x ln, local_y ln);
                 acc_write := w; acc_cell := i |} :: trace g |}.

(** [accum[i]] as a value: in bounds and written before. *)
Definition load (ln : Lane) (g : Group) (i : Z) : option (f4 * Group) :=
  match cell_index g i with
  | Some n =>
      match nth_error (accum g) n with
      | Some (Some a) => Some (a, logged ln false i g)
      | _ => None
      end
  | None => None
  end.

Fixpoint set_nth {A : Type} (n : nat) (a : A) (l : list A) : list A :=
  match l, n with
  | [], _ => []
  | _ :: l', O => a :: l'
  | b :: l', S n' => b :: set_nth n' a l'
  end.

Definition store (ln : Lane) (g : Group) (i : Z) (a : f4) : option Group :=
  match cell_index g i with
  | Some n =>
      Some (logged ln true i
              {| accum := set_nth n (Some a) (accum g);
                 stores := stores g; trace := trace g |})
  | None => None
  end.

(** *** Loops and blocks *)

(** The values a [for (int v = a; v < b; v += c)] gives to [v].  The
    language has no assignment to an [int], so neither the body nor the
    increment can change [b] or [c].  A loop that would not stop (it is
    entered with a step that is not positive) has no value. *)
Equations? for_values (a b c : Z) : option (list Z)
  by wf (Z.to_nat (b - a)) lt :=
  for_values a b c with Z_lt_dec a b := {
    | left _ with Z_lt_dec 0 c := {
        | left _ => option_map (cons a) (for_values (a + c) b c)
        | right _ => None }
    | right _ => Some [] }.
Proof.
  lia.
Qed.

Definition exec := Lane -> Group -> option (Lane * Group).

Definition scoped (f : exec) : exec :=
  fun ln g =>
    match f ln g with
    | Some (ln', g') => Some (leave_scope ln ln', g')
    | None => None
    end.

Fixpoint for_each (body : exec) (v : string) (vals : list Z) : exec :=
  fun ln g =>
    match vals with
    | [] => Some (ln, g)
    | n :: vals' =>
        match scoped body (assign_int v n ln) g with
        | Some (ln', g') => for_each body v vals' ln' g'
        | None => None
        end
    end.

(** *** Expressions and statements *)

Section Semantics.

Variable L : Launch.

Fixpoint eval_iexp (ln : Lane) (e : iexp) : option Z :=
  let binary (f : Z -> Z -> option Z) (a b : iexp) :=
    match eval_iexp ln a, eval_iexp ln b with
    | Some m, Some n => f m n
    | _, _ => None
    end in
  match e with
  | INum n => Some n
  | IVar v => lookup v (ints ln)
  | ILocalId k | IGlobalId k =>
      if k =? 0 then Some (local_x ln)
      else if k =? 1 then Some (local_y ln)
      else if k =? 2 then
        match e with IGlobalId _ => Some (launch_z L) | _ => Some 0 end
      else None
  | IAdd a b => binary (fun m n => Some (m + n)) a b
  | IMul a b => binary (fun m n => Some (m * n)) a b
  | IDiv a b => binary (fun m n => if n =? 0 then None else Some (m ÷ n)) a b
  | IMod a b => binary (fun m n => if n =? 0 then None else Some (Z.rem m n)) a b
  | IDim t d =>
      Some (tensor_dim match t with
                       | src_tensor => launch_src L
                       | dst_tensor => launch_dst L
                       end d)
  end.

Fixpoint eval_vexp (ln : Lane) (g : Group) (e : vexp) : option (f4 * Group) :=
  match e with
  | VZero => Some (F0, g)
  | VAccum i =>
      match eval_iexp ln i with
      | Some n => load ln g n
      | None => None
      end
  | VVar v =>
      match lookup v (vecs ln) with
      | Some a => Some (a, g)
      | None => None
      end
  | VRead sx sy s =>
      match eval_iexp ln sx, eval_iexp ln sy, eval_iexp ln s with
      | Some x, Some y, Some z => Some (FRead (src_batch ln) x y z, g)
      | _, _, _ => None
      end
  | VMulArg a arg =>
      match eval_vexp ln g a, lookup arg (launch_args L) with
      | Some (a', g'), Some q => Some (FMul a' q, g')
      | _, _ => None
      end
  end.

(** A statement on one lane.  A lane that has returned does nothing.  A
    barrier is not an action of one lane: see [run_phases].  [TO_FLT4]
    converts to the element type of the destination; on symbolic values it
    changes nothing. *)
Fixpoint exec_stmt (s : stmt) (ln : Lane) (g : Group) {struct s}
    : option (Lane * Group) :=
  let exec_block := fix exec_block (ss : list stmt) : exec :=
    fun ln g =>
      match ss with
      | [] => Some (ln, g)
      | s' :: ss' =>
          match exec_stmt s' ln g with
          | Some (ln', g') => exec_block ss' ln' g'
          | None => None
          end
      end in
  if returned ln then Some (ln, g) else
  match s with
  | SLocalArray n =>
      if Z.of_nat (List.length (accum g)) =? n then Some (ln, g) else None
  | SInt v e =>
      match eval_iexp ln e with
      | Some n => Some (declare_int v n ln, g)
      | None => None
      end
  | SSetBatchRef t e =>
      match eval_iexp ln e with
      | Some b => Some (set_batch t b ln, g)
      | None => None
      end
  | SReturnIfGe a b =>
      match eval_iexp ln a, eval_iexp ln b with
      | Some m, Some n => Some (if m >=? n then set_returned ln else ln, g)
      | _, _ => None
      end
  | SAccumSet i e =>
      match eval_iexp ln i, eval_vexp ln g e with
      | Some n, Some (a, g') =>
          match store ln g' n a with
          | Some g'' => Some (ln, g'')
          | None => None
          end
      | _, _ => None
      end
  | SAccumAdd i e =>
      match eval_iexp ln i, eval_vexp ln g e with
      | Some n, Some (a, g') =>
          match load ln g' n with
          | Some (old, g'') =>
              match store ln g'' n (FAdd old a) with
              | Some g''' => Some (ln, g''')
              | None => None
              end
          | None => None
          end
      | _, _ => None
      end
  | SAccumMulArg i arg =>
      match eval_iexp ln i, lookup arg (launch_args L) with
      | Some n, Some q =>
          match load ln g n with
          | Some (old, g') =>
              match store ln g' n (FMul old q) with
              | Some g'' => Some (ln, g'')
              | None => None
              end
          | None => None
          end
      | _, _ => None
      end
  | SFor v init bound step body =>
      match eval_iexp ln init, eval_iexp ln bound, eval_iexp ln step with
      | Some a, Some b, Some c =>
          match for_values a b c with
          | Some vals =>
              scoped (fun ln g => for_each (exec_block body) v vals
                                           (declare_int v a ln) g) ln g
          | None => None
          end
      | _, _, _ => None
      end
  | SIfLt a b body =>
      match eval_iexp ln a, eval_iexp ln b with
      | Some m, Some n =>
          if m <? n then scoped (exec_block body) ln g else Some (ln, g)
      | _, _ => None
      end
  | SBarrier => None
  | SFloat4 v e | SFlt4 v e =>
      match eval_vexp ln g e with
      | Some (a, g') => Some (declare_vec v a ln, g')
      | None => None
      end
  | SVAdd v e =>
      match lookup v (vecs ln), eval_vexp ln g e with
      | Some old, Some (a, g') => Some (assign_vec v (FAdd old a) ln, g')
      | _, _ => None
      end
  | SWrite v dx dy ds =>
      match lookup v (vecs ln), eval_iexp ln dx, eval_iexp ln dy, eval_iexp ln ds with
      | Some a, Some x, Some y, Some z =>
          Some (ln, {| accum := accum g;
                       stores := {| st_lane := (local_x ln, local_y ln);
                                    st_batch := dst_batch ln;
                                    st_x := x; st_y := y; st_s := z;
                                    st_value := a |} :: stores g;
                       trace := trace g |})
      | _, _, _, _ => None
      end
  end.

Fixpoint exec_block (ss : list stmt) : exec :=
  fun ln g =>
    match ss with
    | [] => Some (ln, g)
    | s :: ss' =>
        match exec_stmt s ln g with
        | Some (ln', g') => exec_block ss' ln' g'
        | None => None
        end
    end.

(** The statements between two barriers, lane after lane.  This order
    stands for any other as long as no lane touches a cell that another
    lane writes between the same two barriers ([race_free] below). *)
Fixpoint run_lanes (ss : list stmt) (lanes : list Lane) (g : Group)
    : option (list Lane * Group) :=
  match lanes with
  | [] => Some ([], g)
  | ln :: lanes' =>
      match exec_block ss ln g with
      | Some (ln', g') =>
          match run_lanes ss lanes' g' with
          | Some (done, g'') => Some (ln' :: done, g'')
          | None => None
          end
      | None => None
      end
  end.

End Semantics.

(** The body of a kernel cut at its barriers. *)
Fixpoint phases (ss : list stmt) : list (list stmt) :=
  match ss with
  | [] => [[]]
  | SBarrier :: ss' => [] :: phases ss'
  | s :: ss' =>
      match phases ss' with
      | [] => [[s]]
      | p :: ps => (s :: p) :: ps
      end
  end.

(** A barrier must be reached by all lanes of the group or by none. *)
Definition uniform (lanes : list Lane) : bool :=
  forallb returned lanes || forallb (fun ln => negb (returned ln)) lanes.

Definition clear_trace (g : Group) : Group :=
  {| accum := accum g; stores := stores g; trace := [] |}.

(** The outcome of a work-group: the lanes, the shared state and, for each
    phase, the accesses to [accum] made in it. *)
Fixpoint run_phases (L : Launch) (ps : list (list stmt)) (lanes : list Lane)
    (g : Group) : option (list Lane * Group * list (list Access)) :=
  match ps with
  | [] => Some (lanes, g, [])
  | p :: ps' =>
      match run_lanes L p lanes g with
      | Some (lanes', g') =>
          if match ps' with [] => true | _ => uniform lanes' end then
            match run_phases L ps' lanes' (clear_trace g') with
            | Some (lanes'', g'', traces) => Some (lanes'', g'', trace g' :: traces)
            | None => None
            end
          else None
      | None => None
      end
  end.

Definition start_lane (x y : Z) : Lane :=
  {| local_x := x; local_y := y; ints := []; vecs := [];
     src_batch := None; dst_batch := None; returned := false |}.

(** The lanes of a work-group of size 1 along z, in the order of
    [local_y * wx + local_x]: there are [wx * wy] of them. *)
Definition lanes_of (wg : int3) : list Lane :=
  map (fun i => start_lane (Z.of_nat i mod int3_x wg) (Z.of_nat i / int3_x wg))
      (seq 0 (Z.to_nat (int3_x wg * int3_y wg))).

(** The size of the [__local] array a body declares. *)
Fixpoint local_size (ss : list stmt) : Z :=
  match ss with
  | [] => 0
  | SLocalArray n :: _ => n
  | _ :: ss' => local_size ss'
  end.

Definition run_kernel (L : Launch) (wg : int3) (body : list stmt)
    : option (list Lane * Group * list (list Access)) :=
  run_phases L (phases body) (lanes_of wg)
    {| accum := repeat None (Z.to_nat (local_size body)); stores := []; trace := [] |}.

(** *** Reading a symbolic value *)

(** The source cells under a value, each with the scalars it was multiplied
    by, in the order of the multiplications. *)
Fixpoint leaves (path : list Q) (a : f4) (rest : list (list Q * (option Z * Z * Z * Z)))
    : list (list Q * (option Z * Z * Z * Z)) :=
  match a with
  | F0 => rest
  | FRead b sx sy s => (path, (b, sx, sy, s)) :: rest
  | FAdd a1 a2 => leaves path a1 (leaves path a2 rest)
  | FMul a1 q => leaves (q :: path) a1 rest
  end.

(** *** Conflicts between lanes *)

(** A write of one lane and an access of another lane to the same cell. *)
Definition same_lane (a b : Z * Z) : bool :=
  (fst a =? fst b) && (snd a =? snd b).

Definition conflict (w a : Access) : bool :=
  acc_write w && (acc_cell w =? acc_cell a)
  && negb (same_lane (acc_lane w) (acc_lane a)).

(** No conflict among the accesses between two barriers. *)
Definition race_free (tr : list Access) : bool :=
  forallb (fun w => negb (acc_write w) || forallb (fun a => negb (conflict w a)) tr) tr.

Definition in_bounds (n : Z) (tr : list Access) : bool :=
  forallb (fun a => (0 <=? acc_cell a) && (acc_cell a <? n)) tr.

(** *** The state of a work-group after the per-lane accumulation

    The names below describe what the first phase of the kernel leaves
    behind; [group_phase0_from] proves that it does. *)

(** The values of the loop variable of [for_values], the empty list for a
    loop that does not stop. *)
Definition values (a b c : Z) : list Z :=
  match for_values a b c with Some l => l | None => [] end.

(** A lane that has not returned and holds no [float4] variable. *)
Definition mk_lane (lx ly : Z) (vars : list (string * Z)) (b : option Z) : Lane :=
  {| local_x := lx; local_y := ly; ints := vars; vecs := [];
     src_batch := b; dst_batch := b; returned := false |}.

(** The shared state after a lane has left [a] in cell [n]. *)
Definition with_cell (g : Group) (n : nat) (a : f4) (tr : list Access) : Group :=
  {| accum := set_nth n (Some a) (accum g); stores := stores g;
     trace := (tr ++ trace g)%list |}.

(** An access of lane [(lx, ly)] to cell [id]. *)
Definition private_to (lx ly id : Z) (a : Access) : Prop :=
  acc_lane a = (lx, ly) /\ acc_cell a = id.

(** The slice and the batch a work-group works on. *)
Definition slice_index (batch : bool) (L : Launch) : Z :=
  if batch then launch_z L ÷ Batch (launch_dst L) else launch_z L.

Definition batch_index (batch : bool) (L : Launch) : option Z :=
  if batch then Some (Z.rem (launch_z L) (Batch (launch_dst L))) else None.

(** The [int] variables of a lane after the prologue. *)
Definition lane_vars (batch : bool) (L : Launch) (wg : int3) (lx ly : Z)
    : list (string * Z) :=
  ((if batch
    then [("B", Z.rem (launch_z L) (Batch (launch_dst L)));
          ("S", launch_z L ÷ Batch (launch_dst L));
          ("linear_id_2", launch_z L)]
    else [("S", launch_z L)])
   ++ [("local_id", ly * int3_x wg + lx); ("local_y", ly); ("local_x", lx)])%list.

(** The cells that the two loops of lane [(lx, ly)] visit, in order. *)
Definition lane_cells (L : Launch) (wg : int3) (lx ly : Z) : list (Z * Z) :=
  flat_map (fun y => map (fun x => (x, y))
                         (values lx (Width (launch_src L)) (int3_x wg)))
           (values ly (Height (launch_src L)) (int3_y wg)).

(** What the two loops leave in the cell of the lane. *)
Definition partial_sum (batch : bool) (L : Launch) (wg : int3) (lx ly : Z) : f4 :=
  fold_left (fun a c => FAdd a (FRead (batch_index batch L) (fst c) (snd c)
                                      (slice_index batch L)))
            (lane_cells L wg lx ly) F0.

(** What the inner loop adds to [a0] in row [y]. *)
Definition row_sum (L : Launch) (lx s : Z) (b : option Z) (wx y : Z) (a0 : f4) : f4 :=
  fold_left (fun a x => FAdd a (FRead b x y s))
            (values lx (Width (launch_src L)) wx) a0.

(** The statements of [accumulation] before its barrier. *)
Definition per_lane (wg : int3) : list stmt :=
  [ SAccumSet (IVar "local_id") VZero;
    SFor "s_y" (IVar "local_y") (IDim src_tensor DHeight) (INum (int3_y wg))
      [ SFor "s_x" (IVar "local_x") (IDim src_tensor DWidth) (INum (int3_x wg))
          [ SAccumAdd (IVar "local_id")
                      (VRead (IVar "s_x") (IVar "s_y") (IVar "S")) ] ];
    SAccumMulArg (IVar "local_id") "inv_multiplier_1" ].

(** The lane whose [local_id] is [i], and the number of lanes. *)
Definition lane_of (wg : int3) (i : nat) : Z * Z :=
  (Z.of_nat i mod int3_x wg, Z.of_nat i / int3_x wg).

Definition group_size (wg : int3) : nat := Z.to_nat (int3_x wg * int3_y wg).

(** Lane [i] after the first phase, and its partial sum before the
    scaling. *)
Definition lane_after (batch : bool) (L : Launch) (wg : int3) (i : nat) : Lane :=
  mk_lane (Z.of_nat i mod int3_x wg) (Z.of_nat i / int3_x wg)
    (lane_vars batch L wg (Z.of_nat i mod int3_x wg) (Z.of_nat i / int3_x wg))
    (batch_index batch L).

Definition lane_sum (batch : bool) (L : Launch) (wg : int3) (i : nat) : f4 :=
  partial_sum batch L wg (Z.of_nat i mod int3_x wg) (Z.of_nat i / int3_x wg).

(** An access of a lane to the cell of its own [local_id]. *)
Definition own_cell (wg : int3) (a : Access) : bool :=
  (acc_cell a =? snd (acc_lane a) * int3_x wg + fst (acc_lane a))
  && (0 <=? fst (acc_lane a)) && (fst (acc_lane a) <? int3_x wg)
  && (0 <=? snd (acc_lane a)) && (snd (acc_lane a) <? int3_y wg).

(** A dispatch whose argument table holds the two scalars. *)
Definition bound_launch (src dst : Tensor) (q1 q2 : Q) (gz : Z) : Launch :=
  {| launch_src := src; launch_dst := dst;
     launch_args := [("inv_multiplier_1", q1); ("inv_multiplier_2", q2)];
     launch_z := gz |}.

(** What is observed of the outcome of a work-group: for every store the
    leaves of the stored value; for every store its lane and its place; and
    checks on the accesses: no phase has a conflict or an access out of
    bounds, the last phase only reads, and every lane reads in it. *)
Definition Outcome : Type := option (list Lane * Group * list (list Access)).

Definition stored_leaves (r : Outcome) : list (list (list Q * (option Z * Z * Z * Z))) :=
  match r with
  | Some (_, g, _) => map (fun s => leaves [] (st_value s) []) (stores g)
  | None => []
  end.

Definition stored_places (r : Outcome) : list (Z * Z * option Z * (Z * Z * Z)) :=
  match r with
  | Some (_, g, _) =>
      map (fun s => (st_lane s, st_batch s, (st_x s, st_y s, st_s s))) (stores g)
  | None => []
  end.

Definition every_lane_reads (wg : int3) (tr : list Access) : bool :=
  forallb (fun i => existsb (fun a => negb (acc_write a)
                                      && same_lane (acc_lane a) (lane_of wg i)) tr)
          (seq 0 (group_size wg)).

Definition reads_only (tr : list Access) : bool :=
  forallb (fun a => negb (acc_write a)) tr.

Definition accesses_checked (wg : int3) (r : Outcome) : bool :=
  match r with
  | Some (_, _, traces) =>
      forallb race_free traces
      && forallb (in_bounds (int3_x wg * int3_y wg)) traces
      && reads_only (last traces [])
      && every_lane_reads wg (last traces [])
  | None => false
  end.

(** The cells that the lanes of a work-group read, lane after lane. *)
Definition group_cells (L : Launch) (wg : int3) : list (Z * Z) :=
  flat_map (fun i => lane_cells L wg (fst (lane_of wg i)) (snd (lane_of wg i)))
           (seq 0 (group_size wg)).

(** The integers [0], ..., [n - 1]. *)
Definition zrange (n : Z) : list Z := map Z.of_nat (seq 0 (Z.to_nat n)).

Definition is_barrier (s : stmt) : bool :=
  match s with SBarrier => true | _ => false end.

(** The leaves of what the lanes store: every cell read by the group, with
    the two scalars. *)
Definition mean_terms (batch : bool) (L : Launch) (wg : int3) (q1 q2 : Q)
    : list (list Q * (option Z * Z * Z * Z)) :=
  map (fun c => ([q1; q2], (batch_index batch L, fst c, snd c, slice_index batch L)))
      (group_cells L wg).

(** ** Reference definitions

    The following definitions are written from the specification, to be
    compared with what the code computes. *)

(** The order of the Adreno generations of the data model: 3xx comes
    before the newer ones, so "generation at most 3xx" is generation 3xx. *)
Definition adreno_rank (g : AdrenoGeneration) : Z :=
  match g with Adreno3xx => 3 | AdrenoNewer => 4 end.

(** The selection table of the work-group planner; the first matching row
    wins. *)
Definition planner_rows : list ((DeviceInfo -> bool) * int3) :=
  [ (fun d => match vendor d with Adreno => true | _ => false end
              && (adreno_rank (adreno_generation (adreno_info d)) <=? 3),
     mk_int3 16 8 1);
    (fun d => match vendor d with Adreno => true | _ => false end,
     mk_int3 16 16 1);
    (fun d => match vendor d with Mali => true | _ => false end
              && match mali_generation (mali_info d) with
                 | MaliT6xx | MaliT7xx | MaliT8xx => true
                 | MaliNewer => false
                 end,
     mk_int3 8 4 1);
    (fun d => match vendor d with Mali => true | _ => false end,
     mk_int3 8 8 1);
    (fun _ => true, mk_int3 16 16 1) ].

Definition planner_table (d : DeviceInfo) : option int3 :=
  option_map snd (find (fun row => fst row d) planner_rows).

(** The ceiling of [n / d]. *)
Definition ceil_ratio (n d : Z) : Z := (n + d - 1) / d.

(** The radix-4 reduction as the specification words it.  [reduction_plan]
    gives the pairs [(rem, offset)] of the emitted steps, starting from
    [offset = 1] and [rem = N / 4]: one step while [rem >= 8], then
    [rem <- rem / 4] and [offset <- offset * 4]; with them the pair at the
    exit.  [rem] decreases, so [N] iterations are more than enough. *)
Fixpoint reduction_plan (fuel : nat) (rem offset : Z) : list (Z * Z) * (Z * Z) :=
  match fuel with
  | O => ([], (rem, offset))
  | S fuel' =>
      if 8 <=? rem then
        let '(steps, final) := reduction_plan fuel' (rem / 4) (offset * 4) in
        ((rem, offset) :: steps, final)
      else ([], (rem, offset))
  end.

(** One step: the lanes with [local_id < rem] add the slots at [offset],
    [2 * offset] and [3 * offset] from the base [local_id * 4 * offset] into
    the base; then a barrier. *)
Definition spec_step (rem offset : Z) : list stmt :=
  [ SIfLt (IVar "local_id") (INum rem)
      [ SInt "t" (IMul (IVar "local_id") (INum (4 * offset)));
        SFloat4 "sum" (VAccum (IAdd (IVar "t") (INum offset)));
        SVAdd "sum" (VAccum (IAdd (IVar "t") (INum (2 * offset))));
        SVAdd "sum" (VAccum (IAdd (IVar "t") (INum (3 * offset))));
        SAccumAdd (IVar "t") (VVar "sum") ];
    SBarrier ].

(** The serial tail: the sum of the [final_rem] slots at [0], [offset],
    [2 * offset], ..., [(final_rem - 1) * offset]. *)
Definition spec_tail (final_rem offset : Z) : list stmt :=
  SFloat4 "sum" (VAccum (INum 0))
  :: map (fun i => SVAdd "sum" (VAccum (INum (Z.of_nat i * offset))))
         (seq 1 (Z.to_nat final_rem - 1)).

Definition spec_reduction (N : Z) : list stmt :=
  let '(steps, (rem, offset)) := reduction_plan (Z.to_nat N) (N / 4) 1 in
  (flat_map (fun step => spec_step (fst step) (snd step)) steps
   ++ spec_tail (rem * 4) offset)%list.

(** Statements whose indices and bounds are numerals: no loop, no query of
    a tensor or of a work-item id, a numeral as the bound of a guard. *)
Fixpoint numeric_index (e : iexp) : bool :=
  match e with
  | INum _ | IVar _ => true
  | IAdd a b | IMul a b | IDiv a b | IMod a b => numeric_index a && numeric_index b
  | ILocalId _ | IGlobalId _ | IDim _ _ => false
  end.

Fixpoint numeric_value (e : vexp) : bool :=
  match e with
  | VZero | VVar _ => true
  | VAccum i => numeric_index i
  | VRead _ _ _ => false
  | VMulArg a _ => numeric_value a
  end.

Fixpoint unrolled (s : stmt) : bool :=
  let all := fix all (ss : list stmt) : bool :=
    match ss with
    | [] => true
    | s' :: ss' => unrolled s' && all ss'
    end in
  match s with
  | SIfLt a (INum _) body => numeric_index a && all body
  | SInt _ e => numeric_index e
  | SFloat4 _ e | SVAdd _ e => numeric_value e
  | SAccumAdd i e => numeric_index i && numeric_value e
  | SBarrier => true
  | _ => false
  end.

(** The indices that the plan of the reduction produces, for a local array
    of [N] cells: in a step the largest index of a lane below [rem], in the
    tail the largest index, and [offset * rem * 4 = N] at every iteration
    and at the exit. *)
Definition plan_in_bounds (N : Z) (plan : list (Z * Z) * (Z * Z)) : Prop :=
  Forall (fun step =>
            snd step * fst step * 4 = N
            /\ forall local_id, 0 <= local_id < fst step ->
                 0 <= local_id * (4 * snd step)
                 /\ local_id * (4 * snd step) + 3 * snd step < N)
         (fst plan)
  /\ snd (snd plan) * fst (snd plan) * 4 = N
  /\ (fst (snd plan) * 4 - 1) * snd (snd plan) = N - snd (snd plan)
  /\ N - snd (snd plan) < N.

(** The accesses of the last phase are all made by lane [(0, 0)]. *)
Definition tail_on_lane_0 (r : Outcome) : bool :=
  match r with
  | Some (_, _, traces) =>
      forallb (fun a => same_lane (acc_lane a) (0, 0)) (last traces [])
  | None => false
  end.

(** Modelled from the spec: the argument table of the compiled kernel is
    not part of the source file.  A scalar is written under its name, and
    the write fails when the table has no scalar of that name. *)
Definition ArgTable : Type := list (string * Q).

#[export] Instance ArgTable_binder : ArgumentsBinder ArgTable := {
  SetFloat name value table :=
    match lookup name table with
    | Some _ => (OkStatus, assign name value table)
    | None => (ErrorStatus ("No float argument with name - " ++ name), table)
    end
}.

(** The table of an operation before the first binding: the scalars that
    the generator registered. *)
Definition float_table (args : list ArgDecl) : ArgTable :=
  flat_map (fun a => match a with FloatArg name => [(name, 0%Q)] | _ => [] end) args.

(** ** Sample inputs *)

Definition no_defines : CalculationsPrecision -> string := fun _ => "".

Definition sample_def (batch : bool) : OperationDef :=
  let d := {| axes := (if batch then [BATCH] else []) ++ [HEIGHT; WIDTH; CHANNELS] |}%list in
  {| precision := F32; src_tensors := [d]; dst_tensors := [d] |}.

Definition mali_t8xx : DeviceInfo :=
  {| vendor := Mali;
     adreno_info := {| adreno_generation := AdrenoNewer |};
     mali_info := {| mali_generation := MaliT8xx |} |}.

Definition other_device : DeviceInfo :=
  {| vendor := OtherVendor;
     adreno_info := {| adreno_generation := Adreno3xx |};
     mali_info := {| mali_generation := MaliT6xx |} |}.

Definition sample_src : Tensor := {| Width := 5; Height := 3; Slices := 2; Batch := 2 |}.

Definition sample_dst : Tensor := {| Width := 1; Height := 1; Slices := 2; Batch := 2 |}.

(** Work-group 3 along z of a dispatch on a Mali T8xx: slice 1 of batch 1,
    with the scalars of a 3 x 5 source and the work-group (8, 4, 1). *)
Definition sample_launch : Launch := bound_launch sample_src sample_dst (32 # 15) (1 # 32) 3.

(** The lines of the kernel that settle the slice and the batch, as the
    source file writes them. *)
Definition split_lines (batch : bool) : string :=
  (if batch then
     "  int linear_id_2 = get_global_id(2);" ++ nl
     ++ "  int S = linear_id_2 / args.dst_tensor.Batch();" ++ nl
     ++ "  int B = linear_id_2 % args.dst_tensor.Batch();" ++ nl
     ++ "  args.dst_tensor.SetBatchRef(B);" ++ nl
     ++ "  args.src_tensor.SetBatchRef(B);" ++ nl
   else
     "  int S = get_global_id(2);" ++ nl)
  ++ "  if (S >= args.dst_tensor.Slices()) return;" ++ nl.

(** The kernel of a Mali T8xx for a destination with a batch axis, line by
    line. *)
Definition mali_t8xx_lines : list string :=
  [ "__kernel void main_function(";
    "$0) {";
    "  __local float4 accum[32];";
    "  int local_x = get_local_id(0);";
    "  int local_y = get_local_id(1);";
    "  int local_id = local_y * 8 + local_x;";
    "  int linear_id_2 = get_global_id(2);";
    "  int S = linear_id_2 / args.dst_tensor.Batch();";
    "  int B = linear_id_2 % args.dst_tensor.Batch();";
    "  args.dst_tensor.SetBatchRef(B);";
    "  args.src_tensor.SetBatchRef(B);";
    "  if (S >= args.dst_tensor.Slices()) return;";
    "  accum[local_id] = (float4)(0.0f);";
    "  for (int s_y = local_y; s_y < args.src_tensor.Height(); s_y += 4) {";
    "    for (int s_x = local_x; s_x < args.src_tensor.Width(); s_x += 8) {";
    "      accum[local_id] += args.src_tensor.Read<float>(s_x, s_y, S);";
    "    }";
    "  }";
    "  accum[local_id] *= args.inv_multiplier_1;";
    "  barrier(CLK_LOCAL_MEM_FENCE);";
    "  if (local_id < 8) {";
    "    int t = local_id * 4;";
    "    float4 sum = accum[t + 1];";
    "    sum += accum[t + 2];";
    "    sum += accum[t + 3];";
    "    accum[t] += sum;";
    "  }";
    "  barrier(CLK_LOCAL_MEM_FENCE);";
    "  float4 sum = accum[0];";
    "  sum += accum[4];";
    "  sum += accum[8];";
    "  sum += accum[12];";
    "  sum += accum[16];";
    "  sum += accum[20];";
    "  sum += accum[24];";
    "  sum += accum[28];";
    "  FLT4 result = TO_FLT4(sum * args.inv_multiplier_2);";
    "  args.dst_tensor.Write(result, 0, 0, S);";
    "}" ].

(** The number a symbolic value stands for, given the source. *)
Fixpoint denote (src : option Z -> Z -> Z -> Z -> Q) (a : f4) : Q :=
  match a with
  | F0 => 0
  | FRead b sx sy s => src b sx sy s
  | FAdd a1 a2 => denote src a1 + denote src a2
  | FMul a1 q => denote src a1 * q
  end.


(** ** Further definitions

    Names for what the lemmas after the claims speak about: the number a
    symbolic value stands for, local memory as a function of the cell, and
    the state of the reduction of an arbitrary work-group. *)

Definition Qsum (l : list Q) : Q := fold_right Qplus 0%Q l.

(** The number one term of [leaves] stands for: the source at the cell,
    multiplied by the scalars of its path in the order they were applied. *)
Definition term_value (src : option Z -> Z -> Z -> Z -> Q)
    (t : list Q * (option Z * Z * Z * Z)) : Q :=
  let '(path, (b, x, y, s)) := t in fold_left Qmult path (src b x y s).

(** The sum of the source over the plane [W x H] of slice [s] of batch [b]. *)
Definition plane_sum (src : option Z -> Z -> Z -> Z -> Q) (b : option Z) (s W H : Z) : Q :=
  Qsum (map (fun c => src b (fst c) (snd c) s) (list_prod (zrange W) (zrange H))).

(** Local memory of [n] cells whose cell [j] holds [A j]. *)
Definition cells_of (n : nat) (A : Z -> f4) : list (option f4) :=
  map (fun j => Some (A (Z.of_nat j))) (seq 0 n).

Definition upd (A : Z -> f4) (i : Z) (v : f4) : Z -> f4 :=
  fun z => if z =? i then v else A z.

(** What a lane leaves in its base slot [t] in a step of the tree: the base
    slot plus the sum of the three slots at [offset], [2 * offset] and
    [3 * offset] from it. *)
Definition step_sum (A : Z -> f4) (offset t : Z) : f4 :=
  FAdd (A t) (FAdd (FAdd (A (t + offset)) (A (t + offset * 2))) (A (t + offset * 3))).

(** Local memory after the lanes with [local_id < count] have done a step
    with [offset]. *)
Definition stepped (A : Z -> f4) (offset count : Z) : Z -> f4 :=
  fun z =>
    if (0 <=? z) && (z mod (offset * 4) =? 0) && (z / (offset * 4) <? count)
    then step_sum A offset z else A z.

(** Local memory after the lanes of [done], in any order, have done a
    step. *)
Definition stepped_by (A : Z -> f4) (offset reminder : Z) (done : list nat) : Z -> f4 :=
  fun z =>
    if (0 <=? z) && (z mod (offset * 4) =? 0) && (z / (offset * 4) <? reminder)
       && existsb (fun i => Z.of_nat i =? z / (offset * 4)) done
    then step_sum A offset z else A z.

(** The accesses of the lane with [local_id = id] in a step, latest
    first. *)
Definition step_accesses (lane : Z * Z) (offset id : Z) : list Access :=
  let t := id * (offset * 4) in
  [ {| acc_lane := lane; acc_write := true; acc_cell := t |};
    {| acc_lane := lane; acc_write := false; acc_cell := t |};
    {| acc_lane := lane; acc_write := false; acc_cell := t + offset * 3 |};
    {| acc_lane := lane; acc_write := false; acc_cell := t + offset * 2 |};
    {| acc_lane := lane; acc_write := false; acc_cell := t + offset |} ].

(** An access of the lane with [local_id = id < reminder] to one of the
    four slots of that lane. *)
Definition in_block (wg : int3) (offset reminder : Z) (a : Access) : Prop :=
  exists id, 0 <= id < reminder
             /\ acc_lane a = (id mod int3_x wg, id / int3_x wg)
             /\ id * (offset * 4) <= acc_cell a < (id + 1) * (offset * 4).

(** What the tail adds up: slot 0, then the slots at [offset * i] for
    [1 <= i < reminder]. *)
Definition tail_sum (A : Z -> f4) (offset reminder : Z) : f4 :=
  fold_left (fun s i => FAdd s (A (offset * i))) (values 1 reminder 1) (A 0).

(** The store of lane [i] when it writes [v]. *)
Definition lane_store (batch : bool) (L : Launch) (wg : int3) (v : f4) (i : nat) : Store :=
  {| st_lane := lane_of wg i; st_batch := batch_index batch L;
     st_x := 0; st_y := 0; st_s := slice_index batch L; st_value := v |}.

(** The leaves of the slots [from], ..., [from + len - 1] of [P]. *)
Definition slots_leaves (path : list Q) (P : nat -> f4) (from len : nat)
    (rest : list (list Q * (option Z * Z * Z * Z)))
    : list (list Q * (option Z * Z * Z * Z)) :=
  fold_right (fun i r => leaves path (P i) r) rest (seq from len).

(** For the first [count] multiples of [offset], cell [offset * j] of [A]
    holds the sum of the [offset] slots of [P] from [offset * j] on. *)
Definition holds_blocks (P : nat -> f4) (A : Z -> f4) (offset count : Z) : Prop :=
  forall j, 0 <= j < count ->
    forall path rest,
      leaves path (A (offset * j)) rest
      = slots_leaves path P (Z.to_nat (offset * j)) (Z.to_nat offset) rest.

(** The number of slots of [accum] that the reduction adds up: with
    [reminder] and [offset] as the first loop of the generator leaves them,
    the slots below [reminder * 4 * offset], and slot 0 in any case. *)
Definition summed_slots (wg : int3) : Z :=
  let '(_, (reminder, offset)) := tree_stmts (int3_x wg * int3_y wg ÷ 4) 1 in
  Z.max 1 (reminder * 4) * offset.

(** The cells of the source that the lanes with [local_id < count] read. *)
Definition cells_of_lanes (L : Launch) (wg : int3) (count : nat) : list (Z * Z) :=
  flat_map (fun i => lane_cells L wg (fst (lane_of wg i)) (snd (lane_of wg i)))
           (seq 0 count).

(** Local memory in the first phase, after the lanes of [done]. *)
Definition filled (n : nat) (P : nat -> f4) (done : list nat) : list (option f4) :=
  map (fun j => if existsb (Nat.eqb j) done then Some (P j) else None) (seq 0 n).

(** A work-group whose lanes run, between two barriers, in the order
    [order] of their [local_id]; [run_kernel] takes them in increasing
    order. *)
Definition run_kernel_in (order : list nat) (L : Launch) (wg : int3) (body : list stmt)
    : option (list Lane * Group * list (list Access)) :=
  run_phases L (phases body)
    (map (fun i => start_lane (Z.of_nat i mod int3_x wg) (Z.of_nat i / int3_x wg)) order)
    {| accum := repeat None (Z.to_nat (local_size body)); stores := []; trace := [] |}.

(** A work-group that no row of the planner gives: 36 lanes. *)
Definition six_by_six : int3 := mk_int3 6 6 1.

(** * Properties *)

(** ** Text and syntax *)

Lemma append_assoc (a b c : string) : (a ++ b) ++ c = a ++ (b ++ c).
Proof.
  induction a as [|ch a IH]; simpl; [reflexivity | now rewrite IH].
Qed.

Lemma append_nil_r (a : string) : a ++ "" = a.
Proof.
  induction a as [|ch a IH]; simpl; [reflexivity | now rewrite IH].
Qed.

Lemma block_text_app (ind : string) (a b : list stmt) :
  block_text ind (a ++ b)%list = block_text ind a ++ block_text ind b.
Proof.
  induction a as [|s a IH]; simpl; [reflexivity|].
  now rewrite IH, append_assoc.
Qed.

Lemma tree_stmts_step (reminder offset : Z) :
  reminder >= 8 ->
  tree_stmts reminder offset =
  ((tree_step reminder offset ++ fst (tree_stmts (reminder ÷ 4) (offset * 4)))%list,
   snd (tree_stmts (reminder ÷ 4) (offset * 4))).
Proof.
  intros Hr. rewrite tree_stmts_equation_1 at 1.
  destruct (Z_ge_dec reminder 8) as [g|n]; [|contradiction].
  cbn [tree_stmts_unfold_clause_1 tree_stmts_clause_1].
  now destruct (tree_stmts (reminder ÷ 4) (offset * 4)).
Qed.

Lemma tree_stmts_done (reminder offset : Z) :
  reminder < 8 -> tree_stmts reminder offset = ([], (reminder, offset)).
Proof.
  intros Hr. rewrite tree_stmts_equation_1.
  destruct (Z_ge_dec reminder 8) as [g|n]; [lia | reflexivity].
Qed.

Lemma tail_stmts_step (i reminder offset : Z) :
  i < reminder ->
  tail_stmts i reminder offset =
  SVAdd "sum" (VAccum (INum (offset * i))) :: tail_stmts (i + 1) reminder offset.
Proof.
  intros Hi. rewrite tail_stmts_equation_1 at 1.
  destruct (Z_lt_dec i reminder) as [l|n]; [reflexivity | contradiction].
Qed.

Lemma tail_stmts_done (i reminder offset : Z) :
  reminder <= i -> tail_stmts i reminder offset = [].
Proof.
  intros Hi. rewrite tail_stmts_equation_1.
  destruct (Z_lt_dec i reminder) as [l|n]; [lia | reflexivity].
Qed.

(** The text of the first loop is the rendering of its syntax. *)
Lemma tree_code_stmts (reminder offset : Z) (c : string) :
  tree_code reminder offset c =
  (c ++ block_text "  " (fst (tree_stmts reminder offset)),
   snd (tree_stmts reminder offset)).
Proof.
  funelim (tree_code reminder offset c).
  - rewrite H, (tree_stmts_step reminder offset g).
    cbn [fst snd]. f_equal. rewrite block_text_app.
    cbn [tree_step block_text stmt_text iexp_text vexp_text parens is_sum is_binary].
    rewrite !append_assoc. reflexivity.
  - rewrite tree_stmts_done by lia. cbn. now rewrite append_nil_r.
Qed.

Lemma tail_code_stmts (i reminder offset : Z) (c : string) :
  tail_code i reminder offset c = c ++ block_text "  " (tail_stmts i reminder offset).
Proof.
  funelim (tail_code i reminder offset c).
  - rewrite H, (tail_stmts_step i reminder offset l).
    cbn [block_text stmt_text iexp_text vexp_text].
    rewrite !append_assoc. reflexivity.
  - rewrite tail_stmts_done by lia. cbn. now rewrite append_nil_r.
Qed.

(** The text that [GetMeanKernelCode] returns is the common defines
    followed by the rendering of [MeanKernel]. *)
Lemma kernel_text_is_rendering (G : CalculationsPrecision -> string)
    (args_ : list ArgDecl) (op_def : OperationDef) (wg : int3) :
  GetMeanKernelCode G args_ op_def wg =
  match nth_error (src_tensors op_def) 0, nth_error (dst_tensors op_def) 0,
        MeanKernel op_def wg with
  | Some src0, Some dst0, Some body =>
      Some ((args_ ++ [SrcTensorArg "src_tensor" src0; DstTensorArg "dst_tensor" dst0;
                       FloatArg "inv_multiplier_1"; FloatArg "inv_multiplier_2"])%list,
            G (precision op_def) ++ kernel_text body)
  | _, _, _ => None
  end.
Proof.
  unfold GetMeanKernelCode, MeanKernel, kernel_body.
  destruct (nth_error (src_tensors op_def) 0) as [src0|]; [|reflexivity].
  destruct (nth_error (dst_tensors op_def) 0) as [dst0|]; [|reflexivity].
  rewrite tree_code_stmts. cbv zeta.
  unfold reduction.
  destruct (tree_stmts (int3_x wg * int3_y wg ÷ 4) 1) as [steps [reminder offset]].
  cbn [fst snd]. rewrite tail_code_stmts.
  f_equal. f_equal.
  - rewrite <- !app_assoc. reflexivity.
  - unfold kernel_text, prologue, local_ids, slice_and_batch, early_exit,
      accumulation, epilogue.
    rewrite !block_text_app.
    destruct (HasAxis dst0 BATCH);
      cbn [block_text stmt_text iexp_text vexp_text tensor_text dim_text
           parens is_sum is_binary app];
      rewrite ?append_assoc; cbn [append]; rewrite ?append_assoc;
      reflexivity.
Qed.

(** ** The constructor *)

(** What a successful construction has built. *)
Lemma Mean_new_inv (G : CalculationsPrecision -> string) (def : OperationDef)
    (dev : DeviceInfo) (m : Mean) :
  Mean_new G def dev = Some m ->
  exists src0 dst0,
    nth_error (src_tensors def) 0 = Some src0
    /\ nth_error (dst_tensors def) 0 = Some dst0
    /\ m = {| definition_ := def;
              work_group_size_ := work_group_size_for dev;
              code_ := G (precision def)
                       ++ kernel_text (kernel_body (HasAxis dst0 BATCH)
                                                   (work_group_size_for dev));
              args_ := [SrcTensorArg "src_tensor" src0; DstTensorArg "dst_tensor" dst0;
                        FloatArg "inv_multiplier_1"; FloatArg "inv_multiplier_2"];
              src_ := []; dst_ := [] |}.
Proof.
  unfold Mean_new. rewrite kernel_text_is_rendering. unfold MeanKernel.
  destruct (nth_error (src_tensors def) 0) as [src0|]; [|discriminate].
  destruct (nth_error (dst_tensors def) 0) as [dst0|]; [|discriminate].
  intros [= <-]. now exists src0, dst0.
Qed.

Lemma Mean_new_total (G : CalculationsPrecision -> string) (def : OperationDef)
    (dev : DeviceInfo) :
  src_tensors def <> [] -> dst_tensors def <> [] ->
  exists m, Mean_new G def dev = Some m.
Proof.
  intros Hs Hd. unfold Mean_new. rewrite kernel_text_is_rendering. unfold MeanKernel.
  destruct (src_tensors def) as [|src0 ?]; [contradiction|].
  destruct (dst_tensors def) as [|dst0 ?]; [contradiction|].
  cbn [nth_error]. eauto.
Qed.

(** The work-groups that the constructor can choose. *)
Lemma work_group_size_cases (dev : DeviceInfo) :
  work_group_size_for dev = mk_int3 16 16 1
  \/ work_group_size_for dev = mk_int3 16 8 1
  \/ work_group_size_for dev = mk_int3 8 4 1
  \/ work_group_size_for dev = mk_int3 8 8 1.
Proof.
  destruct dev as [[] [[]] [[]]]; cbv; auto.
Qed.

(** ** The range of [int] *)

Lemma wrap_int_exact (z : Z) : in_int z -> wrap_int z = z.
Proof.
  unfold in_int, wrap_int, int_min, int_max. intros H.
  rewrite Z.mod_small by lia. lia.
Qed.

Lemma int_mul_exact (a b : Z) : in_int (a * b) -> int_mul a b = a * b.
Proof.
  apply wrap_int_exact.
Qed.

(** ** The binder *)

Lemma lookup_assign_same {A} (k : string) (a : A) (t : list (string * A)) :
  lookup k t <> None -> lookup k (assign k a t) = Some a.
Proof.
  induction t as [|[k' a'] t IH]; cbn [lookup assign]; [congruence|].
  destruct (String.eqb k k') eqn:E; cbn [lookup]; rewrite E; auto.
Qed.

Lemma lookup_assign_other {A} (k k' : string) (a : A) (t : list (string * A)) :
  k' <> k -> lookup k' (assign k a t) = lookup k' t.
Proof.
  intros Hne. induction t as [|[k0 a0] t IH]; cbn [lookup assign]; [reflexivity|].
  destruct (String.eqb k k0) eqn:E; cbn [lookup].
  - apply String.eqb_eq in E. subst k0.
    now replace (String.eqb k' k) with false by (symmetry; now apply String.eqb_neq).
  - now rewrite IH.
Qed.

Lemma assign_names {A} (k : string) (a : A) (t : list (string * A)) :
  map fst (assign k a t) = map fst t.
Proof.
  induction t as [|[k0 a0] t IH]; cbn [assign map]; [reflexivity|].
  destruct (String.eqb k k0); cbn [map fst]; [reflexivity | now rewrite IH].
Qed.

(** [BindArguments] on a table that holds its two scalars, for an operation
    of any work-group size. *)
Lemma BindArguments_on_table (m : Mean) (src : Tensor) (table : ArgTable) :
  lookup "inv_multiplier_1" table <> None ->
  lookup "inv_multiplier_2" table <> None ->
  BindArguments (SetSrc m src) table
  = Some (OkStatus,
          assign "inv_multiplier_2"
            (1 / inject_Z (int3_x (work_group_size_ m) * int3_y (work_group_size_ m)))%Q
            (assign "inv_multiplier_1"
               (1 / (inject_Z (Width src * Height src)
                     / inject_Z (int3_x (work_group_size_ m)
                                 * int3_y (work_group_size_ m))))%Q
               table)).
Proof.
  intros H1 H2. unfold BindArguments. cbn [SetSrc src_ nth_error work_group_size_].
  cbn [SetFloat ArgTable_binder].
  destruct (lookup "inv_multiplier_1" table) as [old1|] eqn:E1; [|contradiction].
  cbn [ok]. rewrite lookup_assign_other by discriminate.
  destruct (lookup "inv_multiplier_2" table) as [old2|] eqn:E2; [|contradiction].
  reflexivity.
Qed.


Lemma BindArguments_table (G : CalculationsPrecision -> string) (def : OperationDef)
    (dev : DeviceInfo) (m : Mean) (src : Tensor) :
  Mean_new G def dev = Some m ->
  BindArguments (SetSrc m src) (float_table (args_ m)) =
  Some (OkStatus,
        [("inv_multiplier_1",
          (1 / (inject_Z (Width src * Height src)
                / inject_Z (int3_x (work_group_size_for dev)
                            * int3_y (work_group_size_for dev))))%Q);
         ("inv_multiplier_2",
          (1 / inject_Z (int3_x (work_group_size_for dev)
                         * int3_y (work_group_size_for dev)))%Q)]).
Proof.
  intros Hm.
  destruct (Mean_new_inv G def dev m Hm) as (src0 & dst0 & _ & _ & ->).
  reflexivity.
Qed.

Lemma scalars_product (t n : Z) :
  0 < t -> 0 < n ->
  ((1 / (inject_Z t / inject_Z n)) * (1 / inject_Z n) == 1 / inject_Z t)%Q
  /\ ((inject_Z t / inject_Z n) * (1 / (inject_Z t / inject_Z n))
      * inject_Z n * (1 / inject_Z n) == 1)%Q.
Proof.
  intros Ht Hn.
  assert (~ inject_Z t == 0)%Q by (unfold Qeq; simpl; lia).
  assert (~ inject_Z n == 0)%Q by (unfold Qeq; simpl; lia).
  split; field; auto.
Qed.

Lemma ceil_ratio_exact (t n : Z) :
  0 < t -> 0 < n -> (n * ceil_ratio t n = t <-> (n | t)).
Proof.
  intros Ht Hn. unfold ceil_ratio. split.
  - intros H. exists ((t + n - 1) / n). lia.
  - intros [q ->]. replace (q * n + n - 1) with (q * n + (n - 1)) by lia.
    rewrite Z.div_add_l by lia. rewrite Z.div_small by lia. lia.
Qed.

Lemma ceil_ratio_pos (t n : Z) : 0 < t -> 0 < n -> 0 < ceil_ratio t n.
Proof.
  intros Ht Hn. unfold ceil_ratio.
  apply Z.div_str_pos. lia.
Qed.

Lemma reciprocal_eq (t n c : Z) :
  0 < t -> 0 < n -> 0 < c ->
  ((1 / (inject_Z t / inject_Z n) == 1 / inject_Z c)%Q <-> n * c = t).
Proof.
  intros Ht Hn Hc.
  assert (Ht' : ~ (inject_Z t == 0)%Q) by (unfold Qeq; simpl; lia).
  assert (Hn' : ~ (inject_Z n == 0)%Q) by (unfold Qeq; simpl; lia).
  assert (Hc' : ~ (inject_Z c == 0)%Q) by (unfold Qeq; simpl; lia).
  split.
  - intros H.
    assert (E : (inject_Z n * inject_Z c == inject_Z t)%Q).
    { setoid_replace (inject_Z n * inject_Z c)%Q
        with ((1 / (inject_Z t / inject_Z n)) * (inject_Z t * inject_Z c))%Q
        by (field; auto).
      rewrite H. field. auto. }
    rewrite <- inject_Z_mult in E. unfold Qeq in E. simpl in E. lia.
  - intros <-. rewrite inject_Z_mult. field. auto.
Qed.

(** ** The first phase: per-lane accumulation *)

Lemma set_nth_length {A} (n : nat) (a : A) (l : list A) :
  List.length (set_nth n a l) = List.length l.
Proof.
  revert n; induction l as [|b l IH]; intros [|n]; simpl; auto.
Qed.

Lemma set_nth_twice {A} (n : nat) (a b : A) (l : list A) :
  set_nth n a (set_nth n b l) = set_nth n a l.
Proof.
  revert n; induction l as [|c l IH]; intros [|n]; simpl; auto. now rewrite IH.
Qed.

Lemma nth_error_set_nth {A} (n : nat) (a : A) (l : list A) :
  (n < List.length l)%nat -> nth_error (set_nth n a l) n = Some a.
Proof.
  revert n; induction l as [|c l IH]; intros [|n]; simpl; auto; try lia.
  intros H. apply IH. lia.
Qed.

Lemma set_nth_app {A} (a : A) (pre : list A) (b : A) (suf : list A) :
  set_nth (List.length pre) a (pre ++ b :: suf) = (pre ++ a :: suf)%list.
Proof.
  induction pre as [|c pre IH]; simpl; [reflexivity | now rewrite IH].
Qed.

Lemma set_nth_same {A} (n : nat) (a : A) (l : list A) :
  nth_error l n = Some a -> set_nth n a l = l.
Proof.
  revert n; induction l as [|c l IH]; intros [|n] H; simpl in *; try discriminate.
  - now inversion H.
  - f_equal. now apply IH.
Qed.

Lemma leave_scope_refl (ln : Lane) : leave_scope ln ln = ln.
Proof.
  destruct ln. unfold leave_scope. cbn. now rewrite !Nat.sub_diag.
Qed.

Lemma for_values_values (a b c : Z) :
  0 < c -> for_values a b c = Some (values a b c).
Proof.
  intros Hc. unfold values.
  funelim (for_values a b c); try lia.
  - reflexivity.
  - match goal with IH : 0 < _ -> for_values _ _ _ = _ |- _ => rewrite (IH Hc) end.
    reflexivity.
Qed.

Lemma values_step (a b c : Z) :
  0 < c -> a < b -> values a b c = a :: values (a + c) b c.
Proof.
  intros Hc Hab. unfold values at 1. rewrite for_values_equation_1.
  destruct (Z_lt_dec a b) as [l|n]; [|lia].
  cbn. destruct (Z_lt_dec 0 c) as [l'|n]; [|lia].
  cbn. now rewrite for_values_values.
Qed.

Lemma values_done (a b c : Z) : b <= a -> values a b c = [].
Proof.
  intros Hab. unfold values. rewrite for_values_equation_1.
  destruct (Z_lt_dec a b) as [l|n]; [lia | reflexivity].
Qed.

Lemma exec_stmt_eq (L : Launch) (s : stmt) (ln : Lane) (g : Group) :
  exec_stmt L s ln g =
    if returned ln then Some (ln, g) else
    match s with
    | SLocalArray n =>
        if Z.of_nat (List.length (accum g)) =? n then Some (ln, g) else None
    | SInt v e =>
        match eval_iexp L ln e with
        | Some n => Some (declare_int v n ln, g)
        | None => None
        end
    | SSetBatchRef t e =>
        match eval_iexp L ln e with
        | Some b => Some (set_batch t b ln, g)
        | None => None
        end
    | SReturnIfGe a b =>
        match eval_iexp L ln a, eval_iexp L ln b with
        | Some m, Some n => Some (if m >=? n then set_returned ln else ln, g)
        | _, _ => None
        end
    | SAccumSet i e =>
        match eval_iexp L ln i, eval_vexp L ln g e with
        | Some n, Some (a, g') =>
            match store ln g' n a with
            | Some g'' => Some (ln, g'')
            | None => None
            end
        | _, _ => None
        end
    | SAccumAdd i e =>
        match eval_iexp L ln i, eval_vexp L ln g e with
        | Some n, Some (a, g') =>
            match load ln g' n with
            | Some (old, g'') =>
                match store ln g'' n (FAdd old a) with
                | Some g''' => Some (ln, g''')
                | None => None
                end
            | None => None
            end
        | _, _ => None
        end
    | SAccumMulArg i arg =>
        match eval_iexp L ln i, lookup arg (launch_args L) with
        | Some n, Some q =>
            match load ln g n with
            | Some (old, g') =>
                match store ln g' n (FMul old q) with
                | Some g'' => Some (ln, g'')
                | None => None
                end
            | None => None
            end
        | _, _ => None
        end
    | SFor v init bound step body =>
        match eval_iexp L ln init, eval_iexp L ln bound, eval_iexp L ln step with
        | Some a, Some b, Some c =>
            match for_values a b c with
            | Some vals =>
                scoped (fun ln g => for_each (exec_block L body) v vals
                                             (declare_int v a ln) g) ln g
            | None => None
            end
        | _, _, _ => None
        end
    | SIfLt a b body =>
        match eval_iexp L ln a, eval_iexp L ln b with
        | Some m, Some n =>
            if m <? n then scoped (exec_block L body) ln g else Some (ln, g)
        | _, _ => None
        end
    | SBarrier => None
    | SFloat4 v e | SFlt4 v e =>
        match eval_vexp L ln g e with
        | Some (a, g') => Some (declare_vec v a ln, g')
        | None => None
        end
    | SVAdd v e =>
        match lookup v (vecs ln), eval_vexp L ln g e with
        | Some old, Some (a, g') => Some (assign_vec v (FAdd old a) ln, g')
        | _, _ => None
        end
    | SWrite v dx dy ds =>
        match lookup v (vecs ln), eval_iexp L ln dx, eval_iexp L ln dy, eval_iexp L ln ds with
        | Some a, Some x, Some y, Some z =>
            Some (ln, {| accum := accum g;
                         stores := {| st_lane := (local_x ln, local_y ln);
                                      st_batch := dst_batch ln;
                                      st_x := x; st_y := y; st_s := z;
                                      st_value := a |} :: stores g;
                         trace := trace g |})
        | _, _, _, _ => None
        end
    end.
Proof.
  destruct s; reflexivity.
Qed.

Lemma exec_block_cons (L : Launch) (s : stmt) (ss : list stmt) (ln : Lane) (g : Group) :
  exec_block L (s :: ss) ln g =
  match exec_stmt L s ln g with
  | Some (ln', g') => exec_block L ss ln' g'
  | None => None
  end.
Proof.
  reflexivity.
Qed.

Lemma exec_block_app (L : Launch) (a b : list stmt) (ln : Lane) (g : Group) :
  exec_block L (a ++ b) ln g =
  match exec_block L a ln g with
  | Some (ln', g') => exec_block L b ln' g'
  | None => None
  end.
Proof.
  revert ln g; induction a as [|s a IH]; intros ln g; [reflexivity|].
  cbn [app]. rewrite !exec_block_cons.
  destruct (exec_stmt L s ln g) as [[ln' g']|]; [apply IH | reflexivity].
Qed.

Lemma leave_scope_declared (lx ly : Z) (p : string * Z) (vars : list (string * Z))
    (b : option Z) :
  leave_scope (mk_lane lx ly vars b) (mk_lane lx ly (p :: vars) b) = mk_lane lx ly vars b.
Proof.
  unfold leave_scope, mk_lane. cbn [ints vecs local_x local_y src_batch dst_batch returned].
  cbn [List.length]. rewrite Nat.sub_diag.
  replace (S (List.length vars) - List.length vars)%nat with 1%nat by lia.
  reflexivity.
Qed.

Section Phase0.
Variable L : Launch.
Variables lx ly id s : Z.
Variable b : option Z.
Variable base : list (string * Z).
Hypothesis base_S : lookup "S" base = Some s.
Hypothesis base_id : lookup "local_id" base = Some id.
Hypothesis base_lx : lookup "local_x" base = Some lx.

Lemma body_step (x y : Z) (g : Group) (a0 : f4) (n : nat) :
  cell_index g id = Some n ->
  nth_error (accum g) n = Some (Some a0) ->
  scoped (exec_block L [SAccumAdd (IVar "local_id")
                          (VRead (IVar "s_x") (IVar "s_y") (IVar "S"))])
    (mk_lane lx ly (("s_x", x) :: ("s_y", y) :: base) b) g
  = Some (mk_lane lx ly (("s_x", x) :: ("s_y", y) :: base) b,
          with_cell g n (FAdd a0 (FRead b x y s))
            [ {| acc_lane := (lx, ly); acc_write := true; acc_cell := id |};
              {| acc_lane := (lx, ly); acc_write := false; acc_cell := id |} ]).
Proof.
  intros Hn Ha. unfold scoped.
  rewrite exec_block_cons, exec_stmt_eq.
  cbn [exec_block mk_lane returned eval_iexp eval_vexp ints lookup String.eqb Ascii.eqb Bool.eqb src_batch].
  rewrite base_S, base_id.
  unfold load. rewrite Hn, Ha.
  unfold store. 
  replace (cell_index (logged _ false id g) id) with (Some n) by (now rewrite <- Hn).
  cbn. rewrite leave_scope_refl. reflexivity.
Qed.

Lemma inner_loop (y : Z) (xs : list Z) :
  forall (v : Z) (g : Group) (a0 : f4) (n : nat),
    cell_index g id = Some n ->
    nth_error (accum g) n = Some (Some a0) ->
    exists v' tr,
      for_each (exec_block L [SAccumAdd (IVar "local_id")
                                 (VRead (IVar "s_x") (IVar "s_y") (IVar "S"))])
        "s_x" xs (mk_lane lx ly (("s_x", v) :: ("s_y", y) :: base) b) g
      = Some (mk_lane lx ly (("s_x", v') :: ("s_y", y) :: base) b,
              with_cell g n (fold_left (fun a x => FAdd a (FRead b x y s)) xs a0) tr)
      /\ Forall (private_to lx ly id) tr.
Proof.
  induction xs as [|x xs IH]; intros v g a0 n Hn Ha.
  - exists v, []. split; [|constructor]. cbn.
    unfold with_cell. rewrite set_nth_same by assumption. now destruct g.
  - cbn [for_each].
    change (assign_int "s_x" x (mk_lane lx ly (("s_x", v) :: ("s_y", y) :: base) b))
      with (mk_lane lx ly (("s_x", x) :: ("s_y", y) :: base) b).
    rewrite (body_step x y g a0 n Hn Ha).
    destruct (IH x (with_cell g n (FAdd a0 (FRead b x y s))
            [ {| acc_lane := (lx, ly); acc_write := true; acc_cell := id |};
              {| acc_lane := (lx, ly); acc_write := false; acc_cell := id |} ])
                (FAdd a0 (FRead b x y s)) n) as (v' & tr & E & Htr).
    + unfold cell_index in *. cbn [with_cell accum]. now rewrite set_nth_length.
    + cbn [with_cell accum]. apply nth_error_set_nth.
      apply nth_error_Some. now rewrite Ha.
    + exists v'. eexists. split.
      * rewrite E. f_equal. f_equal. unfold with_cell. cbn [accum stores trace fold_left].
        rewrite set_nth_twice, app_assoc. reflexivity.
      * apply Forall_app. split; [exact Htr|].
        repeat constructor.
Qed.

Variable wx : Z.
Hypothesis wx_pos : 0 < wx.

Lemma row_loop (y : Z) (g : Group) (a0 : f4) (n : nat) :
  cell_index g id = Some n ->
  nth_error (accum g) n = Some (Some a0) ->
  exists tr,
    scoped (exec_block L
        [SFor "s_x" (IVar "local_x") (IDim src_tensor DWidth) (INum wx)
           [SAccumAdd (IVar "local_id")
              (VRead (IVar "s_x") (IVar "s_y") (IVar "S"))]])
      (mk_lane lx ly (("s_y", y) :: base) b) g
    = Some (mk_lane lx ly (("s_y", y) :: base) b,
            with_cell g n (row_sum L lx s b wx y a0) tr)
    /\ Forall (private_to lx ly id) tr.
Proof.
  intros Hn Ha. unfold row_sum.
  destruct (inner_loop y (values lx (Width (launch_src L)) wx) lx g a0 n Hn Ha)
    as (v' & tr & E & Htr).
  exists tr. split; [|exact Htr].
  unfold scoped at 1.
  rewrite exec_block_cons, exec_stmt_eq.
  cbn [mk_lane returned eval_iexp ints lookup String.eqb
       Ascii.eqb Bool.eqb tensor_dim].
  rewrite base_lx. rewrite for_values_values by exact wx_pos.
  unfold scoped at 1.
  change (declare_int "s_x" lx (mk_lane lx ly (("s_y", y) :: base) b))
    with (mk_lane lx ly (("s_x", lx) :: ("s_y", y) :: base) b).
  rewrite E. cbn [exec_block].
  now rewrite leave_scope_declared, leave_scope_refl.
Qed.

Lemma outer_loop (ys : list Z) :
  forall (v : Z) (g : Group) (a0 : f4) (n : nat),
    cell_index g id = Some n ->
    nth_error (accum g) n = Some (Some a0) ->
    exists v' tr,
      for_each (exec_block L
          [SFor "s_x" (IVar "local_x") (IDim src_tensor DWidth) (INum wx)
             [SAccumAdd (IVar "local_id")
                (VRead (IVar "s_x") (IVar "s_y") (IVar "S"))]])
        "s_y" ys (mk_lane lx ly (("s_y", v) :: base) b) g
      = Some (mk_lane lx ly (("s_y", v') :: base) b,
              with_cell g n (fold_left (fun a y => row_sum L lx s b wx y a) ys a0) tr)
      /\ Forall (private_to lx ly id) tr.
Proof.
  induction ys as [|y ys IH]; intros v g a0 n Hn Ha.
  - exists v, []. split; [|constructor]. cbn.
    unfold with_cell. rewrite set_nth_same by assumption. now destruct g.
  - cbn [for_each].
    change (assign_int "s_y" y (mk_lane lx ly (("s_y", v) :: base) b))
      with (mk_lane lx ly (("s_y", y) :: base) b).
    destruct (row_loop y g a0 n Hn Ha) as (tr1 & E1 & Htr1).
    rewrite E1.
    destruct (IH y (with_cell g n (row_sum L lx s b wx y a0) tr1)
            (row_sum L lx s b wx y a0) n)
      as (v' & tr & E & Htr).
    + unfold cell_index in *. cbn [with_cell accum]. now rewrite set_nth_length.
    + cbn [with_cell accum]. apply nth_error_set_nth.
      apply nth_error_Some. now rewrite Ha.
    + exists v'. eexists. split.
      * rewrite E. f_equal. f_equal. unfold with_cell. cbn [accum stores trace fold_left].
        rewrite set_nth_twice, app_assoc. reflexivity.
      * apply Forall_app. split; assumption.
Qed.
End Phase0.

Lemma fold_rows (b : option Z) (s : Z) (xs : list Z) (ys : list Z) (a0 : f4) :
  fold_left (fun a y => fold_left (fun a x => FAdd a (FRead b x y s)) xs a) ys a0
  = fold_left (fun a c => FAdd a (FRead b (fst c) (snd c) s))
      (flat_map (fun y => map (fun x => (x, y)) xs) ys) a0.
Proof.
  revert a0; induction ys as [|y ys IH]; intros a0; [reflexivity|].
  cbn [fold_left flat_map]. rewrite fold_left_app, IH. f_equal.
  clear. revert a0; induction xs as [|x xs IH]; intros a0; [reflexivity|].
  cbn. apply IH.
Qed.

Ltac step :=
  rewrite exec_block_cons, exec_stmt_eq;
  cbn [returned start_lane mk_lane declare_int set_batch set_returned
       local_x local_y ints vecs src_batch dst_batch
       eval_iexp eval_vexp lookup String.eqb Ascii.eqb Bool.eqb
       Z.eqb Pos.eqb tensor_dim launch_z].

Lemma lane_prologue_exit (L : Launch) (wg : int3) (batch : bool)
    (lx ly : Z) (g : Group) :
  (batch = true -> Batch (launch_dst L) <> 0) ->
  Z.of_nat (List.length (accum g)) = int3_x wg * int3_y wg ->
  exec_block L (prologue batch wg) (start_lane lx ly) g
  = Some (let ln := mk_lane lx ly (lane_vars batch L wg lx ly) (batch_index batch L) in
          if slice_index batch L >=? Slices (launch_dst L) then set_returned ln else ln,
          g).
Proof.
  intros Hb Hlen. unfold prologue, local_ids, slice_and_batch, early_exit,
    lane_vars, batch_index, slice_index in *.
  destruct batch; cbn [app].
  - specialize (Hb eq_refl). apply Z.eqb_neq in Hb.
    repeat first [step | rewrite Hlen, Z.eqb_refl | rewrite Hb].
    cbv zeta. now destruct (_ >=? _).
  - repeat first [step | rewrite Hlen, Z.eqb_refl].
    cbv zeta. now destruct (_ >=? _).
Qed.

Lemma exec_block_returned (L : Launch) (ss : list stmt) (ln : Lane) (g : Group) :
  returned ln = true -> exec_block L ss ln g = Some (ln, g).
Proof.
  intros Hr. induction ss as [|s ss IH]; [reflexivity|].
  rewrite exec_block_cons, exec_stmt_eq, Hr. exact IH.
Qed.

Lemma lane_prologue (L : Launch) (wg : int3) (batch : bool)
    (lx ly : Z) (g : Group) :
  (batch = true -> Batch (launch_dst L) <> 0) ->
  slice_index batch L < Slices (launch_dst L) ->
  Z.of_nat (List.length (accum g)) = int3_x wg * int3_y wg ->
  exec_block L (prologue batch wg) (start_lane lx ly) g
  = Some (mk_lane lx ly (lane_vars batch L wg lx ly) (batch_index batch L), g).
Proof.
  intros Hb Hs Hlen. rewrite lane_prologue_exit by assumption. cbv zeta.
  replace (_ >=? _) with false; [reflexivity|].
  symmetry. rewrite Z.geb_leb. now apply Z.leb_gt.
Qed.

Lemma lane_vars_lookup (batch : bool) (L : Launch) (wg : int3) (lx ly : Z) :
  lookup "S" (lane_vars batch L wg lx ly) = Some (slice_index batch L)
  /\ lookup "local_id" (lane_vars batch L wg lx ly) = Some (ly * int3_x wg + lx)
  /\ lookup "local_x" (lane_vars batch L wg lx ly) = Some lx
  /\ lookup "local_y" (lane_vars batch L wg lx ly) = Some ly.
Proof.
  destruct batch; repeat split; reflexivity.
Qed.

Lemma cell_index_in (g : Group) (i : Z) :
  0 <= i < Z.of_nat (List.length (accum g)) -> cell_index g i = Some (Z.to_nat i).
Proof.
  intros H. unfold cell_index.
  replace (0 <=? i) with true by (symmetry; apply Z.leb_le; lia).
  replace (i <? _) with true by (symmetry; apply Z.ltb_lt; lia).
  reflexivity.
Qed.

Lemma lane_accumulation (batch : bool) (L : Launch) (wg : int3) (lx ly : Z)
    (g : Group) (q1 : Q) :
  0 < int3_x wg -> 0 < int3_y wg ->
  lookup "inv_multiplier_1" (launch_args L) = Some q1 ->
  0 <= ly * int3_x wg + lx < Z.of_nat (List.length (accum g)) ->
  exists tr,
    exec_block L (per_lane wg)
      (mk_lane lx ly (lane_vars batch L wg lx ly) (batch_index batch L)) g
    = Some (mk_lane lx ly (lane_vars batch L wg lx ly) (batch_index batch L),
            with_cell g (Z.to_nat (ly * int3_x wg + lx))
              (FMul (partial_sum batch L wg lx ly) q1) tr)
    /\ Forall (private_to lx ly (ly * int3_x wg + lx)) tr.
Proof.
  intros Hx Hy Hq Hid.
  destruct (lane_vars_lookup batch L wg lx ly) as (HS & Hli & Hlx & Hly).
  set (base := lane_vars batch L wg lx ly) in *.
  set (id := ly * int3_x wg + lx) in *.
  set (b := batch_index batch L) in *.
  pose proof (cell_index_in g id Hid) as Hn.
  set (n := Z.to_nat id) in *.
  assert (Hnlt : (n < List.length (accum g))%nat) by (subst n; lia).
  unfold per_lane.
  (* accum[local_id] = 0 *)
  step. rewrite Hli. unfold store. rewrite Hn.
  set (g1 := logged _ true id _).
  assert (Hn1 : cell_index g1 id = Some n).
  { unfold cell_index in *. subst g1. cbn [logged accum]. now rewrite set_nth_length. }
  assert (Ha1 : nth_error (accum g1) n = Some (Some F0)).
  { subst g1. cbn [logged accum]. now apply nth_error_set_nth. }
  (* the two loops *)
  step. rewrite Hly. rewrite for_values_values by exact Hy.
  unfold scoped at 1.
  change (declare_int "s_y" ly (mk_lane lx ly base b))
    with (mk_lane lx ly (("s_y", ly) :: base) b).
  destruct (outer_loop L lx ly id (slice_index batch L) b base HS Hli Hlx
              (int3_x wg) Hx (values ly (Height (launch_src L)) (int3_y wg))
              ly g1 F0 n Hn1 Ha1) as (v' & tr & E & Htr).
  rewrite E. rewrite leave_scope_declared.
  set (g2 := with_cell g1 n _ tr).
  assert (Hn2 : cell_index g2 id = Some n).
  { unfold cell_index in *. subst g2. cbn [with_cell accum]. now rewrite set_nth_length. }
  (* accum[local_id] *= inv_multiplier_1 *)
  step. rewrite Hli, Hq. unfold load. rewrite Hn2.
  subst g2. cbn [with_cell accum].
  rewrite nth_error_set_nth
    by (subst g1; cbn [logged accum]; now rewrite set_nth_length).
  unfold store.
  match goal with |- context [cell_index ?g' id] =>
    replace (cell_index g' id) with (Some n)
      by (symmetry; unfold cell_index in *; subst g1; cbn [logged with_cell accum];
          now rewrite !set_nth_length) end.
  cbn [exec_block logged with_cell accum stores trace].
  eexists. split.
  - f_equal. f_equal. unfold with_cell. subst g1.
    cbn [logged accum stores trace].
    rewrite !set_nth_twice. unfold partial_sum, lane_cells, row_sum.
    rewrite <- fold_rows. f_equal.
    instantiate (1 := ({| acc_lane := (lx, ly); acc_write := true; acc_cell := id |}
                       :: {| acc_lane := (lx, ly); acc_write := false; acc_cell := id |}
                       :: tr ++ [{| acc_lane := (lx, ly); acc_write := true; acc_cell := id |}])%list).
    cbn [app]. rewrite <- app_assoc. reflexivity.
  - repeat constructor. apply Forall_app. split; [exact Htr|]. repeat constructor.
Qed.

Lemma lane_index (wg : int3) (i : nat) :
  0 < int3_x wg -> 0 < int3_y wg ->
  (i < Z.to_nat (int3_x wg * int3_y wg))%nat ->
  Z.of_nat i / int3_x wg * int3_x wg + Z.of_nat i mod int3_x wg = Z.of_nat i
  /\ 0 <= Z.of_nat i mod int3_x wg < int3_x wg
  /\ 0 <= Z.of_nat i / int3_x wg < int3_y wg.
Proof.
  intros Hx Hy Hi.
  pose proof (Z.div_mod (Z.of_nat i) (int3_x wg) ltac:(lia)).
  pose proof (Z.mod_pos_bound (Z.of_nat i) (int3_x wg) Hx).
  repeat split; try lia.
  - apply Z.div_pos; lia.
  - apply Z.div_lt_upper_bound; lia.
Qed.

Lemma lane_phase0 (L : Launch) (wg : int3) (batch : bool) (q1 : Q)
    (i : nat) (g : Group) :
  0 < int3_x wg -> 0 < int3_y wg ->
  (batch = true -> Batch (launch_dst L) <> 0) ->
  slice_index batch L < Slices (launch_dst L) ->
  lookup "inv_multiplier_1" (launch_args L) = Some q1 ->
  List.length (accum g) = Z.to_nat (int3_x wg * int3_y wg) ->
  (i < Z.to_nat (int3_x wg * int3_y wg))%nat ->
  exists tr,
    exec_block L (prologue batch wg ++ per_lane wg)
      (start_lane (Z.of_nat i mod int3_x wg) (Z.of_nat i / int3_x wg)) g
    = Some (lane_after batch L wg i,
            with_cell g i (FMul (lane_sum batch L wg i) q1) tr)
    /\ forallb (own_cell wg) tr = true.
Proof.
  intros Hx Hy Hb Hs Hq Hlen Hi.
  destruct (lane_index wg i Hx Hy Hi) as (Hid & Hlx & Hly).
  rewrite exec_block_app, lane_prologue; [| assumption | assumption | lia].
  destruct (lane_accumulation batch L wg
              (Z.of_nat i mod int3_x wg) (Z.of_nat i / int3_x wg) g q1 Hx Hy Hq)
    as (tr & E & Htr); [lia|].
  rewrite Hid, Nat2Z.id in E. rewrite Hid in Htr.
  exists tr. split; [exact E|].
  apply forallb_forall. intros a Ha.
  rewrite Forall_forall in Htr. destruct (Htr a Ha) as [Hl Hc].
  unfold own_cell. rewrite Hl, Hc. cbn [fst snd].
  rewrite Hid, Z.eqb_refl.
  repeat (apply andb_true_intro; split); try reflexivity;
    first [apply Z.leb_le | apply Z.ltb_lt]; lia.
Qed.

Lemma group_phase0_from (L : Launch) (wg : int3) (batch : bool) (q1 : Q) :
  0 < int3_x wg -> 0 < int3_y wg ->
  (batch = true -> Batch (launch_dst L) <> 0) ->
  slice_index batch L < Slices (launch_dst L) ->
  lookup "inv_multiplier_1" (launch_args L) = Some q1 ->
  forall (n k : nat) (pre suf : list (option f4)) (sts : list Store) (tr0 : list Access),
    List.length pre = k -> List.length suf = n ->
    (k + n)%nat = Z.to_nat (int3_x wg * int3_y wg) ->
    exists tr,
      run_lanes L (prologue batch wg ++ per_lane wg)
        (map (fun i => start_lane (Z.of_nat i mod int3_x wg) (Z.of_nat i / int3_x wg))
             (seq k n))
        {| accum := pre ++ suf; stores := sts; trace := tr0 |}
      = Some (map (lane_after batch L wg) (seq k n),
              {| accum := pre ++ map (fun i => Some (FMul (lane_sum batch L wg i) q1))
                                     (seq k n);
                 stores := sts; trace := tr ++ tr0 |})
      /\ forallb (own_cell wg) tr = true.
Proof.
  intros Hx Hy Hb Hs Hq.
  induction n as [|n IH]; intros k pre suf sts tr0 Hpre Hsuf Hkn.
  - destruct suf; [|discriminate]. exists []. split; reflexivity.
  - destruct suf as [|c suf]; [discriminate|].
    cbn [seq map run_lanes].
    destruct (lane_phase0 L wg batch q1 k
                {| accum := pre ++ c :: suf; stores := sts; trace := tr0 |}
                Hx Hy Hb Hs Hq) as (tr1 & E1 & Htr1).
    { cbn [accum]. rewrite length_app. cbn [List.length]. cbn in Hsuf. lia. }
    { lia. }
    rewrite E1. unfold with_cell. cbn [accum stores trace].
    rewrite <- Hpre, set_nth_app.
    destruct (IH (S k) (pre ++ [Some (FMul (lane_sum batch L wg k) q1)])%list
                suf sts (tr1 ++ tr0)%list) as (tr & E & Htr).
    { rewrite length_app. cbn. lia. }
    { cbn in Hsuf. lia. }
    { lia. }
    rewrite Hpre. rewrite <- !app_assoc in E. cbn [app] in E. rewrite E.
    exists (tr ++ tr1)%list. split.
    + rewrite <- app_assoc. reflexivity.
    + rewrite forallb_app, Htr, Htr1. reflexivity.
Qed.


(** ** Which cells are read *)

Lemma values_spec (c : Z) (Hc : 0 < c) (b : Z) (n : nat) :
  forall a v, (Z.to_nat (b - a) <= n)%nat ->
    (In v (values a b c) <-> a <= v < b /\ (v - a) mod c = 0).
Proof.
  induction n as [|n IH]; intros a v Hn.
  - rewrite values_done by lia. cbn. lia.
  - destruct (Z_lt_dec a b) as [Hab|Hab].
    + rewrite values_step by assumption. cbn [In].
      rewrite IH by lia. split.
      * intros [<- | [Hv Hm]].
        -- rewrite Z.sub_diag, Zmod_0_l. lia.
        -- split; [lia|]. replace (v - a) with (v - (a + c) + 1 * c) by lia.
           now rewrite Z.mod_add by lia.
      * intros [Hv Hm]. destruct (Z.eq_dec a v) as [->|Hne]; [now left | right].
        assert (c <= v - a).
        { apply Z.mod_divide in Hm; [|lia]. destruct Hm as [k Hk].
          assert (0 < k) by (apply Z.mul_pos_cancel_r with c; lia). nia. }
        split; [lia|]. replace (v - (a + c)) with (v - a + (-1) * c) by lia.
        now rewrite Z.mod_add by lia.
    + rewrite values_done by lia. cbn. lia.
Qed.

Lemma values_In (a b c v : Z) :
  0 < c -> (In v (values a b c) <-> a <= v < b /\ (v - a) mod c = 0).
Proof.
  intros Hc. now apply (values_spec c Hc b (Z.to_nat (b - a))).
Qed.

Lemma values_NoDup (c : Z) (Hc : 0 < c) (b : Z) (n : nat) :
  forall a, (Z.to_nat (b - a) <= n)%nat -> NoDup (values a b c).
Proof.
  induction n as [|n IH]; intros a Hn.
  - rewrite values_done by lia. constructor.
  - destruct (Z_lt_dec a b) as [Hab|Hab].
    + rewrite values_step by assumption. constructor.
      * rewrite values_In by assumption. lia.
      * apply IH. lia.
    + rewrite values_done by lia. constructor.
Qed.

Lemma NoDup_flat_map {A B : Type} (f : A -> list B) (l : list A) :
  NoDup l ->
  (forall a, In a l -> NoDup (f a)) ->
  (forall a b x, In a l -> In b l -> In x (f a) -> In x (f b) -> a = b) ->
  NoDup (flat_map f l).
Proof.
  induction 1 as [|a l Ha Hl IH]; intros Hf Hdisj; cbn [flat_map]; [constructor|].
  apply NoDup_app.
  - apply Hf. now left.
  - apply IH.
    + intros b Hb. apply Hf. now right.
    + intros b b' x Hb Hb'. apply Hdisj; now right.
  - intros x Hx Hx'. apply in_flat_map in Hx' as (b & Hb & Hxb).
    apply Ha. rewrite (Hdisj a b x); auto; [now left | now right].
Qed.

Lemma lane_cells_In (L : Launch) (wg : int3) (lx ly x y : Z) :
  In (x, y) (lane_cells L wg lx ly)
  <-> In x (values lx (Width (launch_src L)) (int3_x wg))
      /\ In y (values ly (Height (launch_src L)) (int3_y wg)).
Proof.
  unfold lane_cells. rewrite in_flat_map. split.
  - intros (y' & Hy & Hx). apply in_map_iff in Hx as (x' & [= <- <-] & Hx). auto.
  - intros [Hx Hy]. exists y. split; [exact Hy|]. apply in_map_iff. eauto.
Qed.

Lemma lane_cells_NoDup (L : Launch) (wg : int3) (lx ly : Z) :
  0 < int3_x wg -> 0 < int3_y wg -> NoDup (lane_cells L wg lx ly).
Proof.
  intros Hx Hy. unfold lane_cells. apply NoDup_flat_map.
  - now apply (values_NoDup _ Hy _ _ _ (Nat.le_refl _)).
  - intros y _. apply Finite.Injective_map_NoDup.
    + intros x x' [= ->]. reflexivity.
    + now apply (values_NoDup _ Hx _ _ _ (Nat.le_refl _)).
  - intros y y' [x z] _ _ H H'.
    apply in_map_iff in H as (? & [= _ <-] & _).
    apply in_map_iff in H' as (? & [= _ <-] & _). reflexivity.
Qed.

Lemma stride_mod (lx x w : Z) :
  0 < w -> 0 <= lx < w -> (x - lx) mod w = 0 -> x mod w = lx.
Proof.
  intros Hw Hlx Hm. apply Z.mod_divide in Hm; [|lia]. destruct Hm as [k Hk].
  replace x with (lx + k * w) by lia. rewrite Z.mod_add by lia.
  now apply Z.mod_small.
Qed.

Lemma group_cells_In (L : Launch) (wg : int3) (x y : Z) :
  0 < int3_x wg -> 0 < int3_y wg ->
  (In (x, y) (group_cells L wg)
   <-> 0 <= x < Width (launch_src L) /\ 0 <= y < Height (launch_src L)).
Proof.
  intros Hx Hy. unfold group_cells. rewrite in_flat_map. split.
  - intros (i & Hi & Hc). apply in_seq in Hi.
    destruct (lane_index wg i Hx Hy ltac:(unfold group_size in Hi; lia)) as (_ & Hlx & Hly).
    apply lane_cells_In in Hc as [Hcx Hcy]. cbn [lane_of fst snd] in *.
    apply values_In in Hcx, Hcy; lia.
  - intros [Hxr Hyr].
    pose proof (Z.mod_pos_bound x (int3_x wg) Hx) as Hlx.
    pose proof (Z.mod_pos_bound y (int3_y wg) Hy) as Hly.
    set (lx := x mod int3_x wg) in *. set (ly := y mod int3_y wg) in *.
    exists (Z.to_nat (ly * int3_x wg + lx)).
    assert (Hid : 0 <= ly * int3_x wg + lx < int3_x wg * int3_y wg) by nia.
    split.
    + apply in_seq. unfold group_size. lia.
    + unfold lane_of. cbn [fst snd]. rewrite Z2Nat.id by lia.
      rewrite Z.add_comm, Z.mod_add, Z.div_add, Z.mod_small, Z.div_small by lia.
      cbn [Z.add]. apply lane_cells_In. rewrite !values_In by assumption.
      subst lx ly. pose proof (Z.div_mod x (int3_x wg) ltac:(lia)).
      pose proof (Z.div_mod y (int3_y wg) ltac:(lia)).
      pose proof (Z.div_pos x (int3_x wg) ltac:(lia) Hx).
      pose proof (Z.div_pos y (int3_y wg) ltac:(lia) Hy).
      split; (split; [nia|]); (apply Z.mod_divide; [lia|]).
      * exists (x / int3_x wg). lia.
      * exists (y / int3_y wg). lia.
Qed.

Lemma group_cells_NoDup (L : Launch) (wg : int3) :
  0 < int3_x wg -> 0 < int3_y wg -> NoDup (group_cells L wg).
Proof.
  intros Hx Hy. unfold group_cells. apply NoDup_flat_map.
  - apply seq_NoDup.
  - intros i _. now apply lane_cells_NoDup.
  - intros i j [x y] Hi Hj Hci Hcj. apply in_seq in Hi, Hj.
    destruct (lane_index wg i Hx Hy ltac:(unfold group_size in Hi; lia)) as (Ei & Hix & Hiy).
    destruct (lane_index wg j Hx Hy ltac:(unfold group_size in Hj; lia)) as (Ej & Hjx & Hjy).
    apply lane_cells_In in Hci as [Hxi Hyi]. apply lane_cells_In in Hcj as [Hxj Hyj].
    cbn [lane_of fst snd] in *.
    apply values_In in Hxi, Hyi, Hxj, Hyj; try assumption.
    assert (Z.of_nat i mod int3_x wg = Z.of_nat j mod int3_x wg).
    { rewrite <- (stride_mod _ x (int3_x wg) Hx Hix) by tauto.
      now rewrite <- (stride_mod _ x (int3_x wg) Hx Hjx) by tauto. }
    assert (Z.of_nat i / int3_x wg = Z.of_nat j / int3_x wg).
    { rewrite <- (stride_mod _ y (int3_y wg) Hy Hiy) by tauto.
      now rewrite <- (stride_mod _ y (int3_y wg) Hy Hjy) by tauto. }
    apply Nat2Z.inj. congruence.
Qed.

Lemma list_prod_NoDup {A B : Type} (l : list A) (l' : list B) :
  NoDup l -> NoDup l' -> NoDup (list_prod l l').
Proof.
  intros Hl Hl'. induction Hl as [|a l Ha Hl IH]; cbn [list_prod]; [constructor|].
  apply NoDup_app.
  - apply Finite.Injective_map_NoDup; [|exact Hl']. now intros y y' [= ->].
  - exact IH.
  - intros [x y] Hx Hx'. apply in_map_iff in Hx as (? & [= <- _] & _).
    apply in_prod_iff in Hx' as [Hx' _]. contradiction.
Qed.

Lemma zrange_In (n v : Z) : In v (zrange n) <-> 0 <= v < n.
Proof.
  unfold zrange. rewrite in_map_iff. split.
  - intros (i & <- & Hi). apply in_seq in Hi. lia.
  - intros Hv. exists (Z.to_nat v). split; [lia|]. apply in_seq. lia.
Qed.

(** Every cell of the source plane is read once, by one lane. *)
Lemma group_cells_count (L : Launch) (wg : int3) :
  0 < int3_x wg -> 0 < int3_y wg ->
  0 <= Width (launch_src L) -> 0 <= Height (launch_src L) ->
  Z.of_nat (List.length (group_cells L wg))
  = Height (launch_src L) * Width (launch_src L).
Proof.
  intros Hx Hy HW HH.
  assert (P : Permutation (group_cells L wg)
                (list_prod (zrange (Width (launch_src L)))
                           (zrange (Height (launch_src L))))).
  { apply NoDup_Permutation.
    - now apply group_cells_NoDup.
    - apply list_prod_NoDup; unfold zrange;
        (apply Finite.Injective_map_NoDup; [intros ? ?; apply Nat2Z.inj | apply seq_NoDup]).
    - intros [x y]. rewrite group_cells_In, in_prod_iff, !zrange_In by assumption.
      reflexivity. }
  rewrite (Permutation_length P), length_prod. unfold zrange.
  rewrite !length_map, !length_seq. lia.
Qed.

(** ** The phases after the first barrier *)

Ltac by_evaluation :=
  match goal with |- _ = ?b => vm_cast_no_check (@eq_refl _ b) end.

(** The phases of the reduction, run on the partial sums [P 0], [P 1], ...
    of the lanes: every lane stores, at [(0, 0, S)], a value whose leaves
    are those of the partial sums, lane after lane and each once,
    multiplied by [q2]. *)
Lemma reduction_runs (batch : bool) (dev : DeviceInfo) (src dst : Tensor) (q1 q2 : Q)
    (gz : Z) (P : nat -> f4) :
  let wg := work_group_size_for dev in
  let L := bound_launch src dst q1 q2 gz in
  let r := run_phases L (tl (phases (kernel_body batch wg)))
             (map (lane_after batch L wg) (seq 0 (group_size wg)))
             {| accum := map (fun i => Some (P i)) (seq 0 (group_size wg));
                stores := []; trace := [] |} in
  accesses_checked wg r = true
  /\ stored_leaves r
     = repeat (fold_right (fun i rest => leaves [q2] (P i) rest) []
                          (seq 0 (group_size wg)))
              (group_size wg)
  /\ stored_places r
     = map (fun i => (lane_of wg i, batch_index batch L, (0, 0, slice_index batch L)))
           (rev (seq 0 (group_size wg))).
Proof.
  intros wg L r. subst wg L r.
  unfold lane_after, lane_vars, batch_index, slice_index, bound_launch.
  cbn [launch_z launch_dst].
  generalize (Z.rem gz (Batch dst)) (gz ÷ Batch dst). intros bv sv.
  destruct (work_group_size_cases dev) as [-> | [-> | [-> | ->]]]; destruct batch;
    (split; [|split]); by_evaluation.
Qed.

(** ** The whole kernel *)

Lemma phases_nonempty (ss : list stmt) : phases ss <> [].
Proof.
  induction ss as [|s ss IH]; [discriminate|].
  destruct s; cbn [phases]; try discriminate;
    destruct (phases ss); discriminate || contradiction.
Qed.

Lemma phases_app_barrier (a rest : list stmt) :
  forallb (fun s => negb (is_barrier s)) a = true ->
  phases (a ++ SBarrier :: rest) = a :: phases rest.
Proof.
  induction a as [|s a IH]; intros Ha; [reflexivity|].
  cbn [forallb] in Ha. apply andb_true_iff in Ha as [Hs Ha].
  cbn [app]. destruct s; try discriminate; cbn [phases]; now rewrite (IH Ha).
Qed.

Lemma phases_body (batch : bool) (wg : int3) :
  phases (kernel_body batch wg)
  = (prologue batch wg ++ per_lane wg)%list :: phases (reduction wg ++ epilogue).
Proof.
  unfold kernel_body, accumulation.
  change [SAccumSet (IVar "local_id") VZero; _; _; SBarrier]
    with (per_lane wg ++ [SBarrier])%list.
  rewrite <- app_assoc, app_assoc. cbn [app].
  apply phases_app_barrier. now destruct batch.
Qed.

Lemma local_size_body (batch : bool) (wg : int3) :
  local_size (kernel_body batch wg) = int3_x wg * int3_y wg.
Proof.
  reflexivity.
Qed.

Lemma lanes_after_uniform (batch : bool) (L : Launch) (wg : int3) (l : list nat) :
  uniform (map (lane_after batch L wg) l) = true.
Proof.
  unfold uniform. apply orb_true_iff. right.
  induction l as [|i l IH]; [reflexivity | exact IH].
Qed.

Lemma leaves_fold (path : list Q) (b : option Z) (s : Z) (cs : list (Z * Z)) :
  forall (a0 : f4) (rest : list (list Q * (option Z * Z * Z * Z))),
    leaves path (fold_left (fun a c => FAdd a (FRead b (fst c) (snd c) s)) cs a0) rest
    = leaves path a0 (map (fun c => (path, (b, fst c, snd c, s))) cs ++ rest).
Proof.
  induction cs as [|c cs IH]; intros a0 rest; [reflexivity|].
  cbn [fold_left map app]. now rewrite IH.
Qed.

Lemma fold_right_app_flat_map {A B : Type} (f : A -> list B) (l : list A) :
  fold_right (fun a rest => f a ++ rest)%list [] l = flat_map f l.
Proof.
  induction l as [|a l IH]; [reflexivity | cbn; now rewrite IH].
Qed.

Lemma map_flat_map {A B C : Type} (f : B -> C) (g : A -> list B) (l : list A) :
  map f (flat_map g l) = flat_map (fun a => map f (g a)) l.
Proof.
  induction l as [|a l IH]; [reflexivity | cbn; now rewrite map_app, IH].
Qed.

Lemma scaled_sums_leaves (batch : bool) (L : Launch) (wg : int3) (q1 q2 : Q) :
  fold_right (fun i rest => leaves [q2] (FMul (lane_sum batch L wg i) q1) rest) []
             (seq 0 (group_size wg))
  = mean_terms batch L wg q1 q2.
Proof.
  unfold mean_terms, group_cells. rewrite map_flat_map.
  induction (seq 0 (group_size wg)) as [|i l IH]; [reflexivity|].
  cbn [fold_right flat_map]. rewrite IH. cbn [leaves].
  unfold lane_sum, partial_sum. rewrite leaves_fold. reflexivity.
Qed.

Lemma kernel_runs (batch : bool) (dev : DeviceInfo) (src dst : Tensor) (q1 q2 : Q)
    (gz : Z) :
  let wg := work_group_size_for dev in
  let L := bound_launch src dst q1 q2 gz in
  (batch = true -> Batch dst <> 0) ->
  slice_index batch L < Slices dst ->
  exists lanes g tr0 traces,
    run_kernel L wg (kernel_body batch wg) = Some (lanes, g, tr0 :: traces)
    /\ forallb (own_cell wg) tr0 = true
    /\ accesses_checked wg (Some (lanes, g, traces)) = true
    /\ stored_leaves (Some (lanes, g, traces))
       = repeat (mean_terms batch L wg q1 q2) (group_size wg)
    /\ stored_places (Some (lanes, g, traces))
       = map (fun i => (lane_of wg i, batch_index batch L, (0, 0, slice_index batch L)))
             (rev (seq 0 (group_size wg))).
Proof.
  intros wg L Hb Hs.
  assert (Hx : 0 < int3_x wg /\ 0 < int3_y wg).
  { subst wg. destruct (work_group_size_cases dev) as [-> | [-> | [-> | ->]]];
      split; reflexivity. }
  destruct Hx as [Hx Hy].
  unfold run_kernel. rewrite phases_body, local_size_body.
  cbn [run_phases].
  destruct (group_phase0_from L wg batch q1 Hx Hy Hb Hs eq_refl
              (group_size wg) 0 [] (repeat None (group_size wg)) [] [])
    as (tr0 & E0 & Htr0).
  { reflexivity. }
  { apply repeat_length. }
  { reflexivity. }
  cbn [app] in E0. unfold lanes_of. fold (group_size wg). rewrite E0.
  rewrite lanes_after_uniform.
  replace (match phases (reduction wg ++ epilogue) with [] => true | _ :: _ => true end)
    with true by (now destruct (phases (reduction wg ++ epilogue))).
  unfold clear_trace. cbn [accum stores trace].
  pose proof (reduction_runs batch dev src dst q1 q2 gz
                (fun i => FMul (lane_sum batch L wg i) q1)) as R.
  cbv zeta in R. fold wg L in R. rewrite phases_body in R. cbn [tl] in R.
  rewrite scaled_sums_leaves in R.
  destruct (run_phases L (phases (reduction wg ++ epilogue)) _ _)
    as [[[lanes g] traces]|]; [|destruct R as [R _]; discriminate].
  exists lanes, g, (tr0 ++ [])%list, traces.
  rewrite app_nil_r. repeat split; try tauto.
Qed.

(** ** Accesses *)

Lemma same_lane_iff (a b : Z * Z) : same_lane a b = true <-> a = b.
Proof.
  destruct a as [ax ay], b as [bx by']. unfold same_lane. cbn [fst snd].
  rewrite andb_true_iff, !Z.eqb_eq. split; [intros [-> ->] | intros [= -> ->]]; auto.
Qed.

(** [race_free] says that a cell written by a lane in a phase is touched by
    no other lane in that phase. *)
Lemma race_free_iff (tr : list Access) :
  race_free tr = true
  <-> forall w a, In w tr -> In a tr -> acc_write w = true ->
        acc_cell w = acc_cell a -> acc_lane w = acc_lane a.
Proof.
  unfold race_free. rewrite forallb_forall. split.
  - intros H w a Hw Ha Hwr Hc. specialize (H w Hw). rewrite Hwr in H. cbn in H.
    rewrite forallb_forall in H. specialize (H a Ha).
    unfold conflict in H. rewrite Hwr, Hc, Z.eqb_refl in H. cbn in H.
    apply negb_true_iff, negb_false_iff in H. now apply same_lane_iff.
  - intros H w Hw. destruct (acc_write w) eqn:Hwr; [|reflexivity]. cbn.
    apply forallb_forall. intros a Ha. unfold conflict. rewrite Hwr. cbn.
    destruct (acc_cell w =? acc_cell a) eqn:Hc; [|reflexivity]. cbn.
    apply Z.eqb_eq in Hc. rewrite (H w a Hw Ha Hwr Hc).
    now rewrite (proj2 (same_lane_iff _ _) eq_refl).
Qed.

Lemma in_bounds_iff (n : Z) (tr : list Access) :
  in_bounds n tr = true <-> forall a, In a tr -> 0 <= acc_cell a < n.
Proof.
  unfold in_bounds. rewrite forallb_forall.
  split; intros H a Ha; specialize (H a Ha).
  - apply andb_true_iff in H as [H1 H2]. apply Z.leb_le in H1. apply Z.ltb_lt in H2. lia.
  - apply andb_true_iff. split; [apply Z.leb_le | apply Z.ltb_lt]; lia.
Qed.

Lemma own_cell_iff (wg : int3) (a : Access) :
  own_cell wg a = true
  <-> acc_cell a = snd (acc_lane a) * int3_x wg + fst (acc_lane a)
      /\ 0 <= fst (acc_lane a) < int3_x wg /\ 0 <= snd (acc_lane a) < int3_y wg.
Proof.
  unfold own_cell. rewrite !andb_true_iff, Z.eqb_eq, !Z.leb_le, !Z.ltb_lt. tauto.
Qed.

(** Lanes that only touch the cell of their own [local_id] do not conflict
    and stay within the array. *)
Lemma own_cells_race_free (wg : int3) (tr : list Access) :
  forallb (own_cell wg) tr = true -> race_free tr = true.
Proof.
  rewrite forallb_forall. intros H. apply race_free_iff.
  intros w a Hw Ha _ Hc.
  apply H, own_cell_iff in Hw. apply H, own_cell_iff in Ha.
  destruct (acc_lane w) as [wx wy], (acc_lane a) as [ax ay]. cbn [fst snd] in *.
  assert (wy = ay) by nia. f_equal; lia.
Qed.

Lemma own_cells_in_bounds (wg : int3) (tr : list Access) :
  forallb (own_cell wg) tr = true -> in_bounds (int3_x wg * int3_y wg) tr = true.
Proof.
  rewrite forallb_forall. intros H. apply in_bounds_iff.
  intros a Ha. apply H, own_cell_iff in Ha. nia.
Qed.

Lemma every_lane_reads_iff (wg : int3) (tr : list Access) :
  every_lane_reads wg tr = true
  <-> forall i, (i < group_size wg)%nat ->
        exists a, In a tr /\ acc_write a = false /\ acc_lane a = lane_of wg i.
Proof.
  unfold every_lane_reads. rewrite forallb_forall. split.
  - intros H i Hi. specialize (H i ltac:(apply in_seq; lia)).
    apply existsb_exists in H as (a & Ha & Hr). apply andb_true_iff in Hr as [Hr Hl].
    exists a. repeat split; [assumption | now apply negb_true_iff | now apply same_lane_iff].
  - intros H i Hi. apply in_seq in Hi. destruct (H i ltac:(lia)) as (a & Ha & Hr & Hl).
    apply existsb_exists. exists a. split; [assumption|].
    rewrite Hr, Hl. now rewrite (proj2 (same_lane_iff _ _) eq_refl).
Qed.

Lemma lane_cells_mod (L : Launch) (wg : int3) (i : nat) (x y : Z) :
  0 < int3_x wg -> 0 < int3_y wg -> (i < group_size wg)%nat ->
  (In (x, y) (lane_cells L wg (fst (lane_of wg i)) (snd (lane_of wg i)))
   <-> (0 <= x < Width (launch_src L) /\ x mod int3_x wg = fst (lane_of wg i))
       /\ (0 <= y < Height (launch_src L) /\ y mod int3_y wg = snd (lane_of wg i))).
Proof.
  intros Hx Hy Hi.
  destruct (lane_index wg i Hx Hy Hi) as (_ & Hlx & Hly).
  rewrite lane_cells_In, !values_In by assumption. cbn [lane_of fst snd].
  set (lx := Z.of_nat i mod int3_x wg) in *. set (ly := Z.of_nat i / int3_x wg) in *.
  assert (M : forall v l w, 0 < w -> 0 <= l < w ->
                (l <= v /\ (v - l) mod w = 0 <-> 0 <= v /\ v mod w = l)).
  { intros v l w Hw Hl. split.
    - intros [Hv Hm]. split; [lia|]. now apply stride_mod.
    - intros [Hv <-]. pose proof (Z.div_mod v w ltac:(lia)).
      pose proof (Z.div_pos v w Hv Hw). split; [nia|].
      apply Z.mod_divide; [lia|]. exists (v / w). lia. }
  pose proof (M x lx _ Hx Hlx). pose proof (M y ly _ Hy Hly). tauto.
Qed.



(** ** The reduction *)

(** The statements that the two loops of the generator emit are those of
    the specified reduction. *)
Lemma reduction_is_specified (dev : DeviceInfo) :
  reduction (work_group_size_for dev)
  = spec_reduction (int3_x (work_group_size_for dev) * int3_y (work_group_size_for dev)).
Proof.
  destruct (work_group_size_cases dev) as [-> | [-> | [-> | ->]]];
    vm_compute; reflexivity.
Qed.

Lemma run_phases_length (L : Launch) (ps : list (list stmt)) :
  forall lanes g lanes' g' traces,
    run_phases L ps lanes g = Some (lanes', g', traces) ->
    List.length traces = List.length ps.
Proof.
  induction ps as [|p ps IH]; intros lanes g lanes' g' traces H; cbn [run_phases] in H.
  - now injection H as <- <- <-.
  - destruct (run_lanes L p lanes g) as [[lanes1 g1]|]; [|discriminate].
    destruct (match ps with [] => true | _ :: _ => uniform lanes1 end); [|discriminate].
    destruct (run_phases L ps lanes1 (clear_trace g1)) as [[[lanes2 g2] trs]|] eqn:E;
      [|discriminate].
    injection H as <- <- <-. cbn [List.length]. f_equal. eapply IH. exact E.
Qed.

(** What is known of a run of the kernel of a constructed operation. *)
Lemma constructed_kernel_runs (G : CalculationsPrecision -> string)
    (def : OperationDef) (dev : DeviceInfo) (m : Mean) (dst0 : TensorDescriptor)
    (src dst : Tensor) (q1 q2 : Q) (gz : Z) :
  let wg := work_group_size_ m in
  let L := bound_launch src dst q1 q2 gz in
  let batch := HasAxis dst0 BATCH in
  Mean_new G def dev = Some m ->
  nth_error (dst_tensors def) 0 = Some dst0 ->
  (batch = true -> Batch dst <> 0) ->
  slice_index batch L < Slices dst ->
  wg = work_group_size_for dev
  /\ MeanKernel def wg = Some (kernel_body batch wg)
  /\ code_ m = G (precision def) ++ kernel_text (kernel_body batch wg)
  /\ exists lanes g tr0 traces,
       run_kernel L wg (kernel_body batch wg) = Some (lanes, g, tr0 :: traces)
       /\ forallb (own_cell wg) tr0 = true
       /\ accesses_checked wg (Some (lanes, g, traces)) = true
       /\ stored_leaves (Some (lanes, g, traces))
          = repeat (mean_terms batch L wg q1 q2) (group_size wg)
       /\ stored_places (Some (lanes, g, traces))
          = map (fun i => (lane_of wg i, batch_index batch L, (0, 0, slice_index batch L)))
                (rev (seq 0 (group_size wg))).
Proof.
  intros wg L batch Hm Hd Hb Hs.
  destruct (Mean_new_inv G def dev m Hm) as (src0 & dst0' & Hs0 & Hd' & E).
  rewrite Hd in Hd'. injection Hd' as <-.
  subst wg. rewrite E. cbn [work_group_size_ code_].
  split; [reflexivity|]. split.
  { unfold MeanKernel. now rewrite Hs0, Hd. }
  split; [reflexivity|].
  exact (kernel_runs batch dev src dst q1 q2 gz Hb Hs).
Qed.

Lemma map_repeat_Forall {A B : Type} (f : A -> B) (b : B) (n : nat) (l : list A) :
  map f l = repeat b n -> List.length l = n /\ Forall (fun a => f a = b) l.
Proof.
  revert n; induction l as [|a l IH]; intros [|n] H; cbn in H; try discriminate.
  - split; [reflexivity | constructor].
  - injection H as Ha Hl. destruct (IH n Hl) as [E F].
    split; [cbn; now rewrite E | now constructor].
Qed.

Lemma bound_launch_table (src dst : Tensor) (q1 q2 : Q) (gz : Z) :
  {| launch_src := src; launch_dst := dst;
     launch_args := [("inv_multiplier_1", q1); ("inv_multiplier_2", q2)];
     launch_z := gz |} = bound_launch src dst q1 q2 gz.
Proof.
  reflexivity.
Qed.

(** The phases of the kernel: the accumulation with its scaling, one phase
    for each step of the reduction, and the tail with the store. *)
Lemma phases_of_kernel (batch : bool) (dev : DeviceInfo) :
  let wg := work_group_size_for dev in
  let N := int3_x wg * int3_y wg in
  phases (kernel_body batch wg)
  = ((prologue batch wg ++ per_lane wg)
     :: map (fun step => removelast (spec_step (fst step) (snd step)))
            (fst (reduction_plan (Z.to_nat N) (N / 4) 1))
     ++ [spec_tail (fst (snd (reduction_plan (Z.to_nat N) (N / 4) 1)) * 4)
                   (snd (snd (reduction_plan (Z.to_nat N) (N / 4) 1)))
         ++ epilogue])%list.
Proof.
  intros wg N. subst N wg. rewrite phases_body. f_equal.
  destruct (work_group_size_cases dev) as [-> | [-> | [-> | ->]]];
    vm_compute; reflexivity.
Qed.

Lemma plan_of_work_group (dev : DeviceInfo) :
  let N := int3_x (work_group_size_for dev) * int3_y (work_group_size_for dev) in
  (N = 32 \/ N = 64 \/ N = 128 \/ N = 256)
  /\ plan_in_bounds N (reduction_plan (Z.to_nat N) (N / 4) 1).
Proof.
  unfold plan_in_bounds.
  destruct (work_group_size_cases dev) as [-> | [-> | [-> | ->]]];
    cbn [int3_x int3_y];
    match goal with |- context [reduction_plan ?f ?r ?o] =>
      let p := eval vm_compute in (reduction_plan f r o) in
      change (reduction_plan f r o) with p
    end;
    cbn [fst snd];
    (split; [lia|]); (split; [|lia]);
    repeat (constructor; [cbn [fst snd]; split; [reflexivity | intros; lia]|]);
    constructor.
Qed.

(** ** Two runs *)

(** The text generated for a Mali T8xx and a destination with a batch axis. *)
Example mali_t8xx_kernel_text :
  option_map code_ (Mean_new no_defines (sample_def true) mali_t8xx)
  = Some (String.concat "" (map (fun line => line ++ nl) mali_t8xx_lines)).
Proof.
  vm_compute. reflexivity.
Qed.

(** A 3 x 5 plane holding [10 * y + x] at [(x, y)]: every lane stores the
    mean, 12. *)
Example mali_t8xx_mean :
  match Mean_new no_defines (sample_def true) mali_t8xx with
  | Some m =>
      match BindArguments (SetSrc m sample_src) (float_table (args_ m)),
            MeanKernel (definition_ m) (work_group_size_ m) with
      | Some (OkStatus, table), Some body =>
          match run_kernel {| launch_src := sample_src; launch_dst := sample_dst;
                              launch_args := table; launch_z := 3 |}
                           (work_group_size_ m) body with
          | Some (_, g, _) =>
              map (fun s => Qred (denote (fun _ x y _ => inject_Z (10 * y + x))
                                         (st_value s)))
                  (stores g)
          | None => []
          end
      | _, _ => []
      end
  | None => []
  end = repeat (12 # 1)%Q 32.
Proof.
  vm_compute. reflexivity.
Qed.


(** ** The work-group planner *)

(** C5: for every [DeviceInfo] the constructor chooses the work-group of the
    first matching row of the planner table (Adreno 3xx: (16, 8, 1); other
    Adreno: (16, 16, 1); Mali T6xx/T7xx/T8xx: (8, 4, 1); other Mali:
    (8, 8, 1); any other device: (16, 16, 1)), and construction succeeds
    whatever the device is, given a definition with its two descriptors. *)
Theorem constructor_follows_planner_table (G : CalculationsPrecision -> string)
    (def : OperationDef) (dev : DeviceInfo) :
  src_tensors def <> [] -> dst_tensors def <> [] ->
  exists m,
    Mean_new G def dev = Some m
    /\ planner_table dev = Some (work_group_size_ m)
    /\ work_group_size_ m =
       match vendor dev with
       | Adreno =>
           match adreno_generation (adreno_info dev) with
           | Adreno3xx => mk_int3 16 8 1
           | AdrenoNewer => mk_int3 16 16 1
           end
       | Mali =>
           match mali_generation (mali_info dev) with
           | MaliT6xx | MaliT7xx | MaliT8xx => mk_int3 8 4 1
           | MaliNewer => mk_int3 8 8 1
           end
       | OtherVendor => mk_int3 16 16 1
       end.
Proof.
  intros Hs Hd.
  destruct (Mean_new_total G def dev Hs Hd) as [m Hm].
  exists m. split; [exact Hm|].
  destruct (Mean_new_inv G def dev m Hm) as (src0 & dst0 & _ & _ & ->).
  cbn [work_group_size_].
  destruct dev as [[] [[]] [[]]]; split; reflexivity.
Qed.

Lemma constructor_follows_planner_table_witness :
  exists m,
    Mean_new no_defines (sample_def true) mali_t8xx = Some m
    /\ planner_table mali_t8xx = Some (work_group_size_ m)
    /\ work_group_size_ m = mk_int3 8 4 1.
Proof.
  apply (constructor_follows_planner_table no_defines (sample_def true) mali_t8xx);
    discriminate.
Defined.

(** C6: whatever the device, the chosen work-group [(wx, wy, wz)] has
    [(wx * wy) mod 4 = 0], [wz = 1] and [wx * wy >= 16]. *)
Theorem work_group_invariants (G : CalculationsPrecision -> string)
    (def : OperationDef) (dev : DeviceInfo) (m : Mean) :
  Mean_new G def dev = Some m ->
  (int3_x (work_group_size_ m) * int3_y (work_group_size_ m)) mod 4 = 0
  /\ int3_z (work_group_size_ m) = 1
  /\ int3_x (work_group_size_ m) * int3_y (work_group_size_ m) >= 16.
Proof.
  intros Hm.
  destruct (Mean_new_inv G def dev m Hm) as (src0 & dst0 & _ & _ & ->).
  cbn [work_group_size_].
  destruct (work_group_size_cases dev) as [-> | [-> | [-> | ->]]];
    cbn; repeat split; lia.
Qed.

Lemma work_group_invariants_witness :
  exists m,
    Mean_new no_defines (sample_def true) mali_t8xx = Some m
    /\ (int3_x (work_group_size_ m) * int3_y (work_group_size_ m)) mod 4 = 0
    /\ int3_z (work_group_size_ m) = 1
    /\ int3_x (work_group_size_ m) * int3_y (work_group_size_ m) >= 16.
Proof.
  eexists. split; [reflexivity|].
  apply (work_group_invariants no_defines (sample_def true) mali_t8xx).
  reflexivity.
Defined.

(** ** Grid size *)

(** C8: for a constructed operation with a bound destination whose
    [Slices * Batch] is in the range of [int], [GetGridSize] returns
    [(wx, wy, Slices * Batch)], where [(wx, wy, 1)] is the work-group chosen
    at construction: the global sizes along x and y are the local sizes. *)
Theorem grid_size (G : CalculationsPrecision -> string) (def : OperationDef)
    (dev : DeviceInfo) (m : Mean) (dst : Tensor) :
  Mean_new G def dev = Some m ->
  in_int (Slices dst * Batch dst) ->
  work_group_size_ (SetDst m dst) = work_group_size_for dev
  /\ GetGridSize (SetDst m dst) =
     Some (mk_int3 (int3_x (work_group_size_for dev))
                   (int3_y (work_group_size_for dev))
                   (Slices dst * Batch dst)).
Proof.
  intros Hm Hr.
  destruct (Mean_new_inv G def dev m Hm) as (src0 & dst0 & _ & _ & ->).
  split; [reflexivity|].
  cbn [GetGridSize SetDst dst_ nth_error work_group_size_].
  now rewrite int_mul_exact.
Qed.

Lemma grid_size_witness :
  exists m,
    Mean_new no_defines (sample_def false) other_device = Some m
    /\ GetGridSize (SetDst m sample_dst) = Some (mk_int3 16 16 4).
Proof.
  eexists. split; [reflexivity|].
  apply (grid_size no_defines (sample_def false) other_device);
    [reflexivity | unfold in_int, int_min, int_max; simpl; lia].
Defined.

(** ** The scalars *)

(** C1: for every work-group the constructor can choose and every source
    with [H * W > 0], the scalars that [BindArguments] writes satisfy
    [inv_multiplier_1 * inv_multiplier_2 = 1 / (H * W)] and
    [(H * W / (wx * wy)) * inv_multiplier_1 * (wx * wy) * inv_multiplier_2 = 1],
    in exact arithmetic. *)
Theorem normalization_identity (G : CalculationsPrecision -> string)
    (def : OperationDef) (dev : DeviceInfo) (m : Mean) (src : Tensor) :
  Mean_new G def dev = Some m ->
  Height src * Width src > 0 ->
  exists table inv_multiplier_1 inv_multiplier_2,
    BindArguments (SetSrc m src) (float_table (args_ m)) = Some (OkStatus, table)
    /\ lookup "inv_multiplier_1" table = Some inv_multiplier_1
    /\ lookup "inv_multiplier_2" table = Some inv_multiplier_2
    /\ (inv_multiplier_1 * inv_multiplier_2 == 1 / inject_Z (Height src * Width src))%Q
    /\ (inject_Z (Height src * Width src)
        / inject_Z (int3_x (work_group_size_ m) * int3_y (work_group_size_ m))
        * inv_multiplier_1
        * inject_Z (int3_x (work_group_size_ m) * int3_y (work_group_size_ m))
        * inv_multiplier_2 == 1)%Q.
Proof.
  intros Hm Hpos.
  rewrite (BindArguments_table G def dev m src Hm).
  destruct (Mean_new_inv G def dev m Hm) as (src0 & dst0 & _ & _ & ->).
  cbn [work_group_size_].
  do 3 eexists. split; [reflexivity|]. split; [reflexivity|]. split; [reflexivity|].
  rewrite (Z.mul_comm (Height src)).
  apply scalars_product; [lia|].
  destruct (work_group_size_cases dev) as [-> | [-> | [-> | ->]]]; reflexivity.
Qed.

Lemma normalization_identity_witness :
  exists m table inv_multiplier_1 inv_multiplier_2,
    Mean_new no_defines (sample_def true) mali_t8xx = Some m
    /\ BindArguments (SetSrc m sample_src) (float_table (args_ m)) = Some (OkStatus, table)
    /\ lookup "inv_multiplier_1" table = Some inv_multiplier_1
    /\ lookup "inv_multiplier_2" table = Some inv_multiplier_2
    /\ (inv_multiplier_1 * inv_multiplier_2 == 1 / inject_Z 15)%Q.
Proof.
  eexists.
  destruct (normalization_identity no_defines (sample_def true) mali_t8xx _ sample_src
              eq_refl eq_refl) as (table & i1 & i2 & Hb & H1 & H2 & Hp & _).
  exists table, i1, i2. repeat split; assumption.
Defined.

(** C2, as the code has it, in exact arithmetic over the formulas that the
    binder evaluates: for every work-group [(wx, wy)] and every source with
    [H * W > 0], the two products being in the range of [int],
    [inv_multiplier_1] is the reciprocal of the exact quotient
    [(H * W) / (wx * wy)], that is [(wx * wy) / (H * W)]; the quotient is
    not rounded up, and the scalar is the reciprocal of
    [ceil_ratio (H * W) (wx * wy)] exactly when [wx * wy] divides [H * W]. *)
Theorem inv_multiplier_1_value (m : Mean) (src : Tensor) (table : ArgTable) :
  0 < int3_x (work_group_size_ m) -> 0 < int3_y (work_group_size_ m) ->
  Height src * Width src > 0 ->
  in_int (Height src * Width src) ->
  in_int (int3_x (work_group_size_ m) * int3_y (work_group_size_ m)) ->
  lookup "inv_multiplier_1" table <> None ->
  lookup "inv_multiplier_2" table <> None ->
  exists table' inv_multiplier_1,
    BindArguments (SetSrc m src) table = Some (OkStatus, table')
    /\ lookup "inv_multiplier_1" table' = Some inv_multiplier_1
    /\ (inv_multiplier_1 ==
        inject_Z (int3_x (work_group_size_ m) * int3_y (work_group_size_ m))
        / inject_Z (Height src * Width src))%Q
    /\ ((inv_multiplier_1 ==
         1 / inject_Z (ceil_ratio (Height src * Width src)
                         (int3_x (work_group_size_ m) * int3_y (work_group_size_ m))))%Q
        <-> (int3_x (work_group_size_ m) * int3_y (work_group_size_ m)
             | Height src * Width src)).
Proof.
  intros Hx Hy Hpos _ _ H1 H2.
  rewrite (BindArguments_on_table m src table H1 H2).
  do 2 eexists. split; [reflexivity|]. split.
  { rewrite lookup_assign_other by discriminate. now apply lookup_assign_same. }
  rewrite (Z.mul_comm (Width src)).
  set (t := Height src * Width src) in *.
  set (n := int3_x (work_group_size_ m) * int3_y (work_group_size_ m)).
  assert (Hn : 0 < n) by (subst n; nia).
  assert (Ht' : ~ (inject_Z t == 0)%Q) by (unfold Qeq; simpl; lia).
  assert (Hn' : ~ (inject_Z n == 0)%Q) by (unfold Qeq; simpl; lia).
  split.
  - field. auto.
  - rewrite reciprocal_eq by (try apply ceil_ratio_pos; lia).
    apply ceil_ratio_exact; lia.
Qed.

Lemma inv_multiplier_1_value_witness :
  exists m,
    Mean_new no_defines (sample_def true) mali_t8xx = Some m
    /\ exists table inv_multiplier_1,
         BindArguments (SetSrc m sample_src) (float_table (args_ m))
         = Some (OkStatus, table)
         /\ lookup "inv_multiplier_1" table = Some inv_multiplier_1
         /\ (inv_multiplier_1 == inject_Z 32 / inject_Z 15)%Q.
Proof.
  eexists. split; [reflexivity|].
  match goal with |- context [SetSrc ?m _] =>
    destruct (inv_multiplier_1_value m sample_src (float_table (args_ m))
                eq_refl eq_refl eq_refl
                ltac:(unfold in_int, int_min, int_max; simpl; lia)
                ltac:(unfold in_int, int_min, int_max; simpl; lia)
                ltac:(discriminate) ltac:(discriminate))
      as (table & i1 & Hb & H1 & Hv & _)
  end.
  exists table, i1. split; [exact Hb|]. split; [exact H1 | exact Hv].
Defined.

(** C2, as stated, fails: on a Mali T8xx, work-group (8, 4, 1), and a 3 x 5
    source, the scalar is 32/15, while the ceiling of 15/32 is 1. *)
Lemma inv_multiplier_1_is_not_ceiling_reciprocal :
  exists m table inv_multiplier_1,
    Mean_new no_defines (sample_def true) mali_t8xx = Some m
    /\ Height sample_src * Width sample_src > 0
    /\ BindArguments (SetSrc m sample_src) (float_table (args_ m)) = Some (OkStatus, table)
    /\ lookup "inv_multiplier_1" table = Some inv_multiplier_1
    /\ ~ (inv_multiplier_1 ==
          1 / inject_Z (ceil_ratio (Height sample_src * Width sample_src)
                          (int3_x (work_group_size_ m) * int3_y (work_group_size_ m))))%Q.
Proof.
  do 3 eexists. split; [reflexivity|]. split; [reflexivity|].
  split; [reflexivity|]. split; [reflexivity|].
  vm_compute. discriminate.
Qed.

(** ** The kernel: slice, batch and early exit *)

(** C7: with a [BATCH] axis on the destination the kernel sets
    [linear_id_2 = get_global_id(2)], [S = linear_id_2 / Batch],
    [B = linear_id_2 mod Batch] and the batch reference of both tensors;
    without it, [S = get_global_id(2)] and no batch reference is set; then
    every lane returns when [S >= Slices], and a lane that has returned
    does nothing more. *)
Theorem batch_split_and_early_exit (G : CalculationsPrecision -> string)
    (def : OperationDef) (dev : DeviceInfo) (m : Mean) :
  Mean_new G def dev = Some m ->
  exists dst0,
    nth_error (dst_tensors def) 0 = Some dst0
    /\ code_ m
       = G (precision def)
         ++ kernel_text (local_ids (work_group_size_ m)
                         ++ slice_and_batch (HasAxis dst0 BATCH) ++ early_exit
                         ++ accumulation (work_group_size_ m)
                         ++ reduction (work_group_size_ m) ++ epilogue)%list
    /\ block_text "  " (slice_and_batch (HasAxis dst0 BATCH) ++ early_exit)
       = split_lines (HasAxis dst0 BATCH)
    /\ forall (L : Launch) (lx ly : Z) (g : Group),
         Z.of_nat (List.length (accum g))
         = int3_x (work_group_size_ m) * int3_y (work_group_size_ m) ->
         0 <= launch_z L ->
         (HasAxis dst0 BATCH = true -> 0 < Batch (launch_dst L)) ->
         exists ln S,
           exec_block L (local_ids (work_group_size_ m)
                         ++ slice_and_batch (HasAxis dst0 BATCH) ++ early_exit)
                      (start_lane lx ly) g
           = Some (ln, g)
           /\ lookup "S" (ints ln) = Some S
           /\ (if HasAxis dst0 BATCH
               then lookup "linear_id_2" (ints ln) = Some (launch_z L)
                    /\ S = launch_z L / Batch (launch_dst L)
                    /\ lookup "B" (ints ln)
                       = Some (launch_z L mod Batch (launch_dst L))
                    /\ src_batch ln = Some (launch_z L mod Batch (launch_dst L))
                    /\ dst_batch ln = Some (launch_z L mod Batch (launch_dst L))
               else S = launch_z L
                    /\ lookup "B" (ints ln) = None
                    /\ src_batch ln = None /\ dst_batch ln = None)
           /\ (returned ln = true <-> S >= Slices (launch_dst L))
           /\ (returned ln = true ->
               forall ss g', exec_block L ss ln g' = Some (ln, g')).
Proof.
  intros Hm.
  destruct (Mean_new_inv G def dev m Hm) as (src0 & dst0 & _ & Hd & ->).
  cbn [work_group_size_ code_].
  set (wg := work_group_size_for dev).
  exists dst0. split; [exact Hd|]. split.
  { unfold kernel_body, prologue. now rewrite <- !app_assoc. }
  split.
  { now destruct (HasAxis dst0 BATCH). }
  generalize (HasAxis dst0 BATCH). intros batch L lx ly g Hlen Hz Hb.
  change (local_ids wg ++ slice_and_batch batch ++ early_exit)%list
    with (prologue batch wg).
  set (ln := mk_lane lx ly (lane_vars batch L wg lx ly) (batch_index batch L)).
  exists (if slice_index batch L >=? Slices (launch_dst L) then set_returned ln else ln),
         (slice_index batch L).
  split.
  { apply lane_prologue_exit; [intros E; specialize (Hb E); lia | exact Hlen]. }
  assert (Hints : ints (if slice_index batch L >=? Slices (launch_dst L)
                        then set_returned ln else ln) = lane_vars batch L wg lx ly)
    by (now destruct (_ >=? _)).
  assert (Hsb : src_batch (if slice_index batch L >=? Slices (launch_dst L)
                           then set_returned ln else ln) = batch_index batch L)
    by (now destruct (_ >=? _)).
  assert (Hdb : dst_batch (if slice_index batch L >=? Slices (launch_dst L)
                           then set_returned ln else ln) = batch_index batch L)
    by (now destruct (_ >=? _)).
  rewrite Hints, Hsb, Hdb.
  split; [apply lane_vars_lookup|]. split.
  { unfold lane_vars, batch_index, slice_index. destruct batch.
    - specialize (Hb eq_refl).
      rewrite Z.quot_div_nonneg, Z.rem_mod_nonneg by lia.
      repeat split; reflexivity.
    - repeat split; reflexivity. }
  split.
  { destruct (slice_index batch L >=? Slices (launch_dst L)) eqn:E; cbn [returned set_returned ln mk_lane].
    - rewrite Z.geb_leb in E. apply Z.leb_le in E. split; [lia | reflexivity].
    - rewrite Z.geb_leb in E. apply Z.leb_gt in E. split; [discriminate | lia]. }
  intros Hr ss g'. now apply exec_block_returned.
Qed.

Lemma batch_split_and_early_exit_witness :
  exists m ln,
    Mean_new no_defines (sample_def true) mali_t8xx = Some m
    /\ exec_block {| launch_src := sample_src; launch_dst := sample_dst;
                     launch_args := []; launch_z := 3 |}
         (local_ids (work_group_size_ m) ++ slice_and_batch true ++ early_exit)
         (start_lane 5 2) {| accum := repeat None 32; stores := []; trace := [] |}
       = Some (ln, {| accum := repeat None 32; stores := []; trace := [] |})
    /\ lookup "S" (ints ln) = Some 1
    /\ lookup "B" (ints ln) = Some 1
    /\ returned ln = false.
Proof.
  destruct (batch_split_and_early_exit no_defines (sample_def true) mali_t8xx _ eq_refl)
    as (dst0 & Hd & _ & _ & H).
  injection Hd as <-.
  destruct (H {| launch_src := sample_src; launch_dst := sample_dst;
                 launch_args := []; launch_z := 3 |} 5 2
              {| accum := repeat None 32; stores := []; trace := [] |}
              eq_refl ltac:(discriminate) ltac:(reflexivity))
    as (ln & S & E & HS & HB & _).
  cbn in E. injection E as <-.
  eexists. eexists. repeat split.
Defined.

(** ** The kernel: what a work-group computes *)

(** C3: in the kernel that the constructor generated, the two loops of the
    lanes visit every cell of the source plane once, lane [(lx, ly)] the
    cells congruent to it; the value that every lane stores is made of the
    partial sums of all lanes, each once, every cell multiplied by
    [inv_multiplier_1] then [inv_multiplier_2]; whatever the lanes
    [0 .. N-1] have left in [accum] before the first barrier, the tree and
    the tail add these [N] values, each once; and, in exact arithmetic over
    the formulas of the binder and with [H * W] in the range of [int], the
    product of the two scalars by the number of cells summed is 1. *)
Theorem every_cell_summed_once (G : CalculationsPrecision -> string)
    (def : OperationDef) (dev : DeviceInfo) (m : Mean) (dst0 : TensorDescriptor)
    (src dst : Tensor) (gz : Z) :
  Mean_new G def dev = Some m ->
  nth_error (dst_tensors def) 0 = Some dst0 ->
  Height src > 0 -> Width src > 0 ->
  in_int (Height src * Width src) ->
  (HasAxis dst0 BATCH = true -> Batch dst <> 0) ->
  (if HasAxis dst0 BATCH then gz ÷ Batch dst else gz) < Slices dst ->
  exists table inv_multiplier_1 inv_multiplier_2 body lanes g traces,
    BindArguments (SetSrc m src) (float_table (args_ m)) = Some (OkStatus, table)
    /\ lookup "inv_multiplier_1" table = Some inv_multiplier_1
    /\ lookup "inv_multiplier_2" table = Some inv_multiplier_2
    /\ MeanKernel def (work_group_size_ m) = Some body
    /\ code_ m = G (precision def) ++ kernel_text body
    /\ let wg := work_group_size_ m in
       let L := {| launch_src := src; launch_dst := dst;
                   launch_args := table; launch_z := gz |} in
       let cells :=
         flat_map (fun i => lane_cells L wg (fst (lane_of wg i)) (snd (lane_of wg i)))
                  (seq 0 (group_size wg)) in
       run_kernel L wg body = Some (lanes, g, traces)
       /\ (forall i x y, (i < group_size wg)%nat ->
             In (x, y) (lane_cells L wg (fst (lane_of wg i)) (snd (lane_of wg i)))
             <-> (0 <= x < Width src /\ x mod int3_x wg = fst (lane_of wg i))
                 /\ (0 <= y < Height src /\ y mod int3_y wg = snd (lane_of wg i)))
       /\ NoDup cells
       /\ (forall x y, In (x, y) cells <-> 0 <= x < Width src /\ 0 <= y < Height src)
       /\ List.length (stores g) = group_size wg
       /\ Forall (fun s =>
                    leaves [] (st_value s) []
                    = map (fun c => ([inv_multiplier_1; inv_multiplier_2],
                                     (batch_index (HasAxis dst0 BATCH) L,
                                      fst c, snd c,
                                      slice_index (HasAxis dst0 BATCH) L)))
                          cells)
                 (stores g)
       /\ (forall P : nat -> f4,
             stored_leaves
               (run_phases L (tl (phases body))
                  (map (lane_after (HasAxis dst0 BATCH) L wg) (seq 0 (group_size wg)))
                  {| accum := map (fun i => Some (P i)) (seq 0 (group_size wg));
                     stores := []; trace := [] |})
             = repeat (fold_right (fun i rest => leaves [inv_multiplier_2] (P i) rest)
                                  [] (seq 0 (group_size wg)))
                      (group_size wg))
       /\ (inv_multiplier_1 * inv_multiplier_2
           * inject_Z (Z.of_nat (List.length cells)) == 1)%Q.
Proof.
  intros Hm Hd HH HW _ Hb Hs.
  pose proof (BindArguments_table G def dev m src Hm) as Hbind.
  set (q1 := (1 / (inject_Z (Width src * Height src)
                   / inject_Z (int3_x (work_group_size_for dev)
                               * int3_y (work_group_size_for dev))))%Q) in *.
  set (q2 := (1 / inject_Z (int3_x (work_group_size_for dev)
                            * int3_y (work_group_size_for dev)))%Q) in *.
  destruct (constructed_kernel_runs G def dev m dst0 src dst q1 q2 gz Hm Hd Hb Hs)
    as (Hwg & Hk & Hcode & lanes & g & tr0 & traces & Hrun & _ & _ & Hleaves & _).
  assert (Hpos : 0 < int3_x (work_group_size_ m) /\ 0 < int3_y (work_group_size_ m)).
  { rewrite Hwg. destruct (work_group_size_cases dev) as [-> | [-> | [-> | ->]]];
      split; reflexivity. }
  destruct Hpos as [Hx Hy].
  exists [("inv_multiplier_1", q1); ("inv_multiplier_2", q2)], q1, q2,
         (kernel_body (HasAxis dst0 BATCH) (work_group_size_ m)), lanes, g, (tr0 :: traces).
  split; [exact Hbind|]. split; [reflexivity|]. split; [reflexivity|].
  split; [exact Hk|]. split; [exact Hcode|]. cbv zeta. rewrite bound_launch_table.
  set (L := bound_launch src dst q1 q2 gz) in *. set (wg := work_group_size_ m) in *.
  fold (group_cells L wg).
  apply map_repeat_Forall in Hleaves as [Hlen Hall].
  split; [exact Hrun|].
  split; [intros i x y Hi; now apply lane_cells_mod|].
  split; [now apply group_cells_NoDup|].
  split; [intros x y; now apply group_cells_In|].
  split; [exact Hlen|]. split; [exact Hall|].
  split.
  { intros P. subst wg L. rewrite Hwg.
    now destruct (reduction_runs (HasAxis dst0 BATCH) dev src dst q1 q2 gz P)
      as (_ & Hred & _). }
  rewrite group_cells_count by (cbn; lia). cbn [L bound_launch launch_src].
  subst q1 q2. rewrite <- Hwg. fold wg.
  set (n := int3_x wg * int3_y wg).
  assert (Hn : 0 < n) by (subst n; nia).
  assert (~ inject_Z n == 0)%Q by (unfold Qeq; cbn; lia).
  assert (~ inject_Z (Width src * Height src) == 0)%Q by (unfold Qeq; cbn; nia).
  rewrite (Z.mul_comm (Height src)). field. auto.
Qed.

Lemma every_cell_summed_once_witness :
  exists m table body lanes g traces,
    Mean_new no_defines (sample_def true) mali_t8xx = Some m
    /\ BindArguments (SetSrc m sample_src) (float_table (args_ m)) = Some (OkStatus, table)
    /\ MeanKernel (sample_def true) (work_group_size_ m) = Some body
    /\ run_kernel {| launch_src := sample_src; launch_dst := sample_dst;
                     launch_args := table; launch_z := 3 |}
                  (work_group_size_ m) body
       = Some (lanes, g, traces)
    /\ List.length (stores g) = group_size (work_group_size_ m).
Proof.
  eexists.
  destruct (every_cell_summed_once no_defines (sample_def true) mali_t8xx _
              {| axes := [BATCH; HEIGHT; WIDTH; CHANNELS] |} sample_src sample_dst 3
              eq_refl eq_refl eq_refl eq_refl
              ltac:(unfold in_int, int_min, int_max; simpl; lia)
              ltac:(discriminate) eq_refl)
    as (table & i1 & i2 & body & lanes & g & traces
        & Hb & _ & _ & Hk & _ & Hr & _ & _ & _ & Hl & _).
  exists table, body, lanes, g, traces. repeat split; assumption.
Defined.

(** ** The kernel: barriers and bounds *)

(** C9: cut at its barriers, the kernel has the accumulation with the
    scaling by [inv_multiplier_1] as its first phase, then one phase for
    every radix-4 step, then the tail; and in the run of a work-group a cell
    of [accum] written by a lane in a phase is touched by no other lane in
    that phase: a write and an access of another lane to the same cell are
    separated by a barrier. *)
Theorem barriers_separate_lanes (G : CalculationsPrecision -> string)
    (def : OperationDef) (dev : DeviceInfo) (m : Mean) (dst0 : TensorDescriptor)
    (src dst : Tensor) (q1 q2 : Q) (gz : Z) :
  let wg := work_group_size_ m in
  let N := int3_x wg * int3_y wg in
  let L := bound_launch src dst q1 q2 gz in
  let batch := HasAxis dst0 BATCH in
  Mean_new G def dev = Some m ->
  nth_error (dst_tensors def) 0 = Some dst0 ->
  (batch = true -> Batch dst <> 0) ->
  slice_index batch L < Slices dst ->
  exists body lanes g traces,
    MeanKernel def wg = Some body
    /\ code_ m = G (precision def) ++ kernel_text body
    /\ phases body
       = ((local_ids wg ++ slice_and_batch batch ++ early_exit
           ++ [ SAccumSet (IVar "local_id") VZero;
                SFor "s_y" (IVar "local_y") (IDim src_tensor DHeight) (INum (int3_y wg))
                  [ SFor "s_x" (IVar "local_x") (IDim src_tensor DWidth)
                         (INum (int3_x wg))
                      [ SAccumAdd (IVar "local_id")
                                  (VRead (IVar "s_x") (IVar "s_y") (IVar "S")) ] ];
                SAccumMulArg (IVar "local_id") "inv_multiplier_1" ])
          :: map (fun step => removelast (spec_step (fst step) (snd step)))
                 (fst (reduction_plan (Z.to_nat N) (N / 4) 1))
          ++ [spec_tail (fst (snd (reduction_plan (Z.to_nat N) (N / 4) 1)) * 4)
                        (snd (snd (reduction_plan (Z.to_nat N) (N / 4) 1)))
              ++ epilogue])%list
    /\ run_kernel L wg body = Some (lanes, g, traces)
    /\ List.length traces = List.length (phases body)
    /\ (forall tr w a,
          In tr traces -> In w tr -> In a tr ->
          acc_write w = true -> acc_cell w = acc_cell a ->
          acc_lane w = acc_lane a)
    /\ forall a, In a (last traces []) -> acc_write a = false.
Proof.
  intros wg N L batch Hm Hd Hb Hs.
  destruct (constructed_kernel_runs G def dev m dst0 src dst q1 q2 gz Hm Hd Hb Hs)
    as (Hwg & Hk & Hc & lanes & g & tr0 & traces & Hrun & Htr0 & Hchk & _).
  fold wg L batch in Hwg, Hk, Hc, Hrun, Htr0, Hchk.
  exists (kernel_body batch wg), lanes, g, (tr0 :: traces).
  split; [exact Hk|]. split; [exact Hc|]. split.
  { subst N. rewrite Hwg. rewrite (phases_of_kernel batch dev). cbv zeta.
    unfold prologue, per_lane. now rewrite <- !app_assoc. }
  split; [exact Hrun|]. split.
  { unfold run_kernel in Hrun. now apply run_phases_length in Hrun. }
  unfold accesses_checked in Hchk.
  apply andb_true_iff in Hchk as [Hchk Hreads].
  apply andb_true_iff in Hchk as [Hchk Hwrites].
  apply andb_true_iff in Hchk as [Hfree _].
  split.
  - intros tr w a [<- | Htr].
    + apply race_free_iff. now apply own_cells_race_free with wg.
    + rewrite forallb_forall in Hfree. apply race_free_iff. now apply Hfree.
  - intros a Ha. unfold reads_only in Hwrites. rewrite forallb_forall in Hwrites.
    apply negb_true_iff. apply Hwrites.
    destruct traces as [|tr1 traces]; [|exact Ha].
    exfalso. unfold every_lane_reads in Hreads. cbn [last existsb] in Hreads.
    rewrite Hwg in Hreads.
    destruct (work_group_size_cases dev) as [E | [E | [E | E]]];
      rewrite E in Hreads; discriminate.
Qed.

Lemma barriers_separate_lanes_witness :
  exists m body lanes g traces,
    Mean_new no_defines (sample_def true) mali_t8xx = Some m
    /\ MeanKernel (sample_def true) (work_group_size_ m) = Some body
    /\ run_kernel sample_launch (work_group_size_ m) body = Some (lanes, g, traces)
    /\ List.length traces = List.length (phases body)
    /\ forall tr w a,
         In tr traces -> In w tr -> In a tr ->
         acc_write w = true -> acc_cell w = acc_cell a ->
         acc_lane w = acc_lane a.
Proof.
  eexists.
  destruct (barriers_separate_lanes no_defines (sample_def true) mali_t8xx _
              {| axes := [BATCH; HEIGHT; WIDTH; CHANNELS] |} sample_src sample_dst
              (32 # 15) (1 # 32) 3 eq_refl eq_refl ltac:(discriminate) eq_refl)
    as (body & lanes & g & traces & Hk & _ & _ & Hr & Hl & Hf & _).
  exists body, lanes, g, traces. repeat split; assumption.
Defined.

(** C10: for the work-groups of the planner, [N] is 32, 64, 128 or 256;
    every access to [accum] in the run of a work-group is within [0, N); the
    largest index of a tree step, [local_id * 4 * offset + 3 * offset] with
    [local_id < rem], is below [N]; the largest index of the tail,
    [(final_rem - 1) * offset], is [N - offset]; and
    [offset * rem * 4 = N] at every iteration of the generator's loop. *)
Theorem accum_indices_in_bounds (G : CalculationsPrecision -> string)
    (def : OperationDef) (dev : DeviceInfo) (m : Mean) (dst0 : TensorDescriptor)
    (src dst : Tensor) (q1 q2 : Q) (gz : Z) :
  let wg := work_group_size_ m in
  let N := int3_x wg * int3_y wg in
  let L := bound_launch src dst q1 q2 gz in
  let batch := HasAxis dst0 BATCH in
  Mean_new G def dev = Some m ->
  nth_error (dst_tensors def) 0 = Some dst0 ->
  (batch = true -> Batch dst <> 0) ->
  slice_index batch L < Slices dst ->
  (N = 32 \/ N = 64 \/ N = 128 \/ N = 256)
  /\ exists body lanes g traces,
       MeanKernel def wg = Some body
       /\ local_size body = N
       /\ body = (prologue batch wg ++ accumulation wg
                  ++ spec_reduction N ++ epilogue)%list
       /\ plan_in_bounds N (reduction_plan (Z.to_nat N) (N / 4) 1)
       /\ run_kernel L wg body = Some (lanes, g, traces)
       /\ forall tr a, In tr traces -> In a tr -> 0 <= acc_cell a < N.
Proof.
  intros wg N L batch Hm Hd Hb Hs.
  destruct (constructed_kernel_runs G def dev m dst0 src dst q1 q2 gz Hm Hd Hb Hs)
    as (Hwg & Hk & Hc & lanes & g & tr0 & traces & Hrun & Htr0 & Hchk & _).
  fold wg L batch in Hwg, Hk, Hc, Hrun, Htr0, Hchk.
  destruct (plan_of_work_group dev) as [HN Hplan]. rewrite <- Hwg in HN, Hplan.
  fold N in HN, Hplan.
  split; [exact HN|].
  exists (kernel_body batch wg), lanes, g, (tr0 :: traces).
  split; [exact Hk|]. split; [reflexivity|]. split.
  { unfold kernel_body. subst N. rewrite Hwg. now rewrite reduction_is_specified. }
  split; [exact Hplan|]. split; [exact Hrun|].
  unfold accesses_checked in Hchk.
  apply andb_true_iff in Hchk as [Hchk _].
  apply andb_true_iff in Hchk as [Hchk _].
  apply andb_true_iff in Hchk as [_ Hbounds].
  intros tr a [<- | Htr].
  - apply in_bounds_iff. now apply own_cells_in_bounds.
  - rewrite forallb_forall in Hbounds. apply in_bounds_iff. now apply Hbounds.
Qed.

Lemma accum_indices_in_bounds_witness :
  exists m body lanes g traces,
    Mean_new no_defines (sample_def true) mali_t8xx = Some m
    /\ MeanKernel (sample_def true) (work_group_size_ m) = Some body
    /\ run_kernel sample_launch (work_group_size_ m) body = Some (lanes, g, traces)
    /\ forall tr a, In tr traces -> In a tr -> 0 <= acc_cell a < 32.
Proof.
  eexists.
  destruct (accum_indices_in_bounds no_defines (sample_def true) mali_t8xx _
              {| axes := [BATCH; HEIGHT; WIDTH; CHANNELS] |} sample_src sample_dst
              (32 # 15) (1 # 32) 3 eq_refl eq_refl ltac:(discriminate) eq_refl)
    as (_ & body & lanes & g & traces & Hk & _ & _ & _ & Hr & Hb).
  exists body, lanes, g, traces. repeat split; try assumption; now apply (Hb tr a).
Defined.

(** ** The kernel: the reduction tree *)

(** C4, as the code has it: the generator emits the specified radix-4
    steps, each followed by a barrier, and then the serial tail over the
    slots [0], [offset], ..., [(final_rem - 1) * offset], all with numerals
    for indices and bounds; the tail is not guarded: every lane of the
    work-group reads the slots and stores the result. *)
Theorem reduction_as_specified (G : CalculationsPrecision -> string)
    (def : OperationDef) (dev : DeviceInfo) (m : Mean) (dst0 : TensorDescriptor)
    (src dst : Tensor) (q1 q2 : Q) (gz : Z) :
  let wg := work_group_size_ m in
  let N := int3_x wg * int3_y wg in
  let L := bound_launch src dst q1 q2 gz in
  let batch := HasAxis dst0 BATCH in
  Mean_new G def dev = Some m ->
  nth_error (dst_tensors def) 0 = Some dst0 ->
  (batch = true -> Batch dst <> 0) ->
  slice_index batch L < Slices dst ->
  reduction wg = spec_reduction N
  /\ forallb unrolled (spec_reduction N) = true
  /\ exists body lanes g traces,
       MeanKernel def wg = Some body
       /\ body = (prologue batch wg ++ accumulation wg
                  ++ spec_reduction N ++ epilogue)%list
       /\ code_ m = G (precision def) ++ kernel_text body
       /\ run_kernel L wg body = Some (lanes, g, traces)
       /\ (forall i, (i < group_size wg)%nat ->
             exists a, In a (last traces [])
                       /\ acc_write a = false /\ acc_lane a = lane_of wg i)
       /\ map st_lane (stores g) = map (lane_of wg) (rev (seq 0 (group_size wg))).
Proof.
  intros wg N L batch Hm Hd Hb Hs.
  destruct (constructed_kernel_runs G def dev m dst0 src dst q1 q2 gz Hm Hd Hb Hs)
    as (Hwg & Hk & Hc & lanes & g & tr0 & traces & Hrun & Htr0 & Hchk & _ & Hplaces).
  fold wg L batch in Hwg, Hk, Hc, Hrun, Htr0, Hchk, Hplaces.
  assert (Hred : reduction wg = spec_reduction N).
  { subst N. rewrite Hwg. apply reduction_is_specified. }
  split; [exact Hred|]. split.
  { subst N. rewrite Hwg.
    destruct (work_group_size_cases dev) as [-> | [-> | [-> | ->]]]; reflexivity. }
  exists (kernel_body batch wg), lanes, g, (tr0 :: traces).
  split; [exact Hk|]. split.
  { unfold kernel_body. now rewrite Hred. }
  split; [exact Hc|]. split; [exact Hrun|].
  unfold accesses_checked in Hchk.
  apply andb_true_iff in Hchk as [_ Hreads].
  split.
  - destruct traces as [|tr1 traces].
    + exfalso. unfold every_lane_reads in Hreads. cbn [last existsb] in Hreads.
      rewrite Hwg in Hreads.
      destruct (work_group_size_cases dev) as [E | [E | [E | E]]];
        rewrite E in Hreads; discriminate.
    + now apply every_lane_reads_iff.
  - cbn [stored_places] in Hplaces.
    apply (f_equal (map (fun p => fst (fst p)))) in Hplaces.
    rewrite !map_map in Hplaces. exact Hplaces.
Qed.

Lemma reduction_as_specified_witness :
  exists m body lanes g traces,
    Mean_new no_defines (sample_def true) mali_t8xx = Some m
    /\ reduction (work_group_size_ m) = spec_reduction 32
    /\ MeanKernel (sample_def true) (work_group_size_ m) = Some body
    /\ run_kernel sample_launch (work_group_size_ m) body = Some (lanes, g, traces)
    /\ map st_lane (stores g)
       = map (lane_of (work_group_size_ m)) (rev (seq 0 (group_size (work_group_size_ m)))).
Proof.
  eexists.
  destruct (reduction_as_specified no_defines (sample_def true) mali_t8xx _
              {| axes := [BATCH; HEIGHT; WIDTH; CHANNELS] |} sample_src sample_dst
              (32 # 15) (1 # 32) 3 eq_refl eq_refl ltac:(discriminate) eq_refl)
    as (Hred & _ & body & lanes & g & traces & Hk & _ & _ & Hr & _ & Hp).
  exists body, lanes, g, traces. repeat split; assumption.
Defined.

(** C4, as stated, fails: the tail is not restricted to lane 0.  On a Mali
    T8xx the accesses of the last phase are not all made by lane (0, 0). *)
Lemma serial_tail_is_not_on_lane_0_only :
  exists m body,
    Mean_new no_defines (sample_def true) mali_t8xx = Some m
    /\ MeanKernel (sample_def true) (work_group_size_ m) = Some body
    /\ run_kernel sample_launch (work_group_size_ m) body <> None
    /\ tail_on_lane_0 (run_kernel sample_launch (work_group_size_ m) body) = false.
Proof.
  do 2 eexists. split; [reflexivity|]. split; [reflexivity|].
  split; [vm_compute; discriminate | vm_compute; reflexivity].
Qed.

(** * Further properties

    What follows is not needed for the claims above.  It covers the rest of
    the generator, the binder on an arbitrary table, the grid, and the
    kernel of a work-group of any size along x and y. *)

(** ** The value that is stored *)

Lemma scale_eq (path : list Q) (v : Q) :
  (fold_left Qmult path v == v * fold_left Qmult path 1)%Q.
Proof.
  revert v. induction path as [|q path IH]; intros v; cbn [fold_left].
  - ring.
  - rewrite IH, (IH (1 * q)%Q). ring.
Qed.

Lemma Qsum_cons (q : Q) (l : list Q) : Qsum (q :: l) = (q + Qsum l)%Q.
Proof.
  reflexivity.
Qed.

Lemma Qsum_perm (l l' : list Q) : Permutation l l' -> (Qsum l == Qsum l')%Q.
Proof.
  induction 1; rewrite ?Qsum_cons.
  - reflexivity.
  - now rewrite IHPermutation.
  - ring.
  - etransitivity; eassumption.
Qed.

(** A symbolic value denotes the sum of its terms. *)
Lemma denote_leaves (src : option Z -> Z -> Z -> Z -> Q) (a : f4) :
  forall path rest,
    (Qsum (map (term_value src) (leaves path a rest))
     == fold_left Qmult path (denote src a) + Qsum (map (term_value src) rest))%Q.
Proof.
  induction a as [|b sx sy s|a1 IH1 a2 IH2|a IH q]; intros path rest;
    cbn [leaves denote].
  - rewrite scale_eq. ring.
  - cbn [map]. rewrite Qsum_cons. reflexivity.
  - rewrite IH1, IH2.
    rewrite (scale_eq path (denote src a1 + denote src a2)),
            (scale_eq path (denote src a1)), (scale_eq path (denote src a2)). ring.
  - rewrite IH. reflexivity.
Qed.

Lemma Qsum_scaled (f : Z * Z -> Q) (q : Q) (l : list (Z * Z)) :
  (Qsum (map (fun c => f c * q) l) == Qsum (map f l) * q)%Q.
Proof.
  induction l as [|c l IH]; cbn [map]; [unfold Qsum; cbn; ring|].
  rewrite !Qsum_cons, IH. ring.
Qed.

Lemma Qsum_ext {A} (f g : A -> Q) (l : list A) :
  (forall a, f a == g a)%Q -> (Qsum (map f l) == Qsum (map g l))%Q.
Proof.
  intros E. induction l as [|c l IH]; cbn [map]; [reflexivity|].
  now rewrite !Qsum_cons, IH, E.
Qed.

Lemma group_cells_plane (L : Launch) (wg : int3) :
  0 < int3_x wg -> 0 < int3_y wg ->
  Permutation (group_cells L wg)
    (list_prod (zrange (Width (launch_src L))) (zrange (Height (launch_src L)))).
Proof.
  intros Hx Hy. apply NoDup_Permutation.
  - now apply group_cells_NoDup.
  - apply list_prod_NoDup; unfold zrange;
      (apply Finite.Injective_map_NoDup; [intros ? ?; apply Nat2Z.inj | apply seq_NoDup]).
  - intros [x y]. rewrite group_cells_In, in_prod_iff, !zrange_In by assumption.
    reflexivity.
Qed.

(** The terms of the mean add up to the sum over the plane, times the two
    scalars. *)
Lemma mean_terms_value (src : option Z -> Z -> Z -> Z -> Q) (batch : bool) (L : Launch)
    (wg : int3) (q1 q2 : Q) :
  0 < int3_x wg -> 0 < int3_y wg ->
  (Qsum (map (term_value src) (mean_terms batch L wg q1 q2))
   == plane_sum src (batch_index batch L) (slice_index batch L)
        (Width (launch_src L)) (Height (launch_src L)) * q1 * q2)%Q.
Proof.
  intros Hx Hy. unfold mean_terms, plane_sum. rewrite map_map.
  cbn [term_value fold_left].
  rewrite (Qsum_perm _ _ (Permutation_map _ (group_cells_plane L wg Hx Hy))).
  set (cells := list_prod _ _).
  set (f := fun c : Z * Z => src (batch_index batch L) (fst c) (snd c) (slice_index batch L)).
  rewrite (Qsum_ext _ (fun c => f c * (q1 * q2))%Q) by (intros c; unfold f; ring).
  rewrite Qsum_scaled. ring.
Qed.

(** X8: for a constructed operation bound to a source of [H, W > 0], with
    the scalars that [BindArguments] writes, every value that a work-group
    stores in the kernel that the constructor generated is, in exact
    arithmetic and whatever the source holds, the sum of the source over
    the plane of its slice and batch divided by [H * W]. *)
Theorem kernel_stores_the_mean (G : CalculationsPrecision -> string)
    (def : OperationDef) (dev : DeviceInfo) (m : Mean) (dst0 : TensorDescriptor)
    (src dst : Tensor) (gz : Z) :
  Mean_new G def dev = Some m ->
  nth_error (dst_tensors def) 0 = Some dst0 ->
  Height src > 0 -> Width src > 0 ->
  (HasAxis dst0 BATCH = true -> Batch dst <> 0) ->
  (if HasAxis dst0 BATCH then gz ÷ Batch dst else gz) < Slices dst ->
  exists table body lanes g traces,
    BindArguments (SetSrc m src) (float_table (args_ m)) = Some (OkStatus, table)
    /\ MeanKernel def (work_group_size_ m) = Some body
    /\ code_ m = G (precision def) ++ kernel_text body
    /\ let L := {| launch_src := src; launch_dst := dst;
                   launch_args := table; launch_z := gz |} in
       run_kernel L (work_group_size_ m) body = Some (lanes, g, traces)
       /\ stores g <> []
       /\ forall content : option Z -> Z -> Z -> Z -> Q,
            Forall (fun s =>
                      (denote content (st_value s)
                       == plane_sum content (batch_index (HasAxis dst0 BATCH) L)
                            (slice_index (HasAxis dst0 BATCH) L) (Width src) (Height src)
                          / inject_Z (Height src * Width src))%Q)
                   (stores g).
Proof.
  intros Hm Hd HH HW Hb Hs.
  pose proof (BindArguments_table G def dev m src Hm) as Hbind.
  set (q1 := (1 / (inject_Z (Width src * Height src)
                   / inject_Z (int3_x (work_group_size_for dev)
                               * int3_y (work_group_size_for dev))))%Q) in *.
  set (q2 := (1 / inject_Z (int3_x (work_group_size_for dev)
                            * int3_y (work_group_size_for dev)))%Q) in *.
  destruct (constructed_kernel_runs G def dev m dst0 src dst q1 q2 gz Hm Hd Hb Hs)
    as (Hwg & Hk & Hcode & lanes & g & tr0 & traces & Hrun & _ & _ & Hleaves & _).
  assert (Hpos : 0 < int3_x (work_group_size_ m) /\ 0 < int3_y (work_group_size_ m)).
  { rewrite Hwg. destruct (work_group_size_cases dev) as [-> | [-> | [-> | ->]]];
      split; reflexivity. }
  destruct Hpos as [Hx Hy].
  exists [("inv_multiplier_1", q1); ("inv_multiplier_2", q2)],
         (kernel_body (HasAxis dst0 BATCH) (work_group_size_ m)), lanes, g, (tr0 :: traces).
  split; [exact Hbind|]. split; [exact Hk|]. split; [exact Hcode|].
  cbv zeta. rewrite bound_launch_table.
  set (L := bound_launch src dst q1 q2 gz) in *. set (wg := work_group_size_ m) in *.
  cbn [stored_leaves] in Hleaves.
  apply map_repeat_Forall in Hleaves as [Hlen Hall].
  split; [exact Hrun|]. split.
  { intros E. rewrite E in Hlen. cbn in Hlen. unfold group_size in Hlen.
    assert (0 < int3_x wg * int3_y wg) by nia. lia. }
  intros content. rewrite Forall_forall in *. intros s Hin.
  specialize (Hall s Hin).
  pose proof (denote_leaves content (st_value s) [] []) as D.
  rewrite Hall in D. cbn [fold_left map Qsum fold_right] in D.
  rewrite mean_terms_value in D by assumption.
  rewrite Qplus_0_r in D. rewrite <- D.
  cbn [L bound_launch launch_src].
  subst q1 q2. rewrite <- Hwg. fold wg.
  set (n := int3_x wg * int3_y wg).
  assert (Hn : 0 < n) by (subst n; nia).
  assert (~ inject_Z n == 0)%Q by (unfold Qeq; cbn; lia).
  assert (~ inject_Z (Width src * Height src) == 0)%Q by (unfold Qeq; cbn; nia).
  assert (~ inject_Z (Height src * Width src) == 0)%Q by (unfold Qeq; cbn; nia).
  rewrite (Z.mul_comm (Height src)). field. auto.
Qed.

Lemma kernel_stores_the_mean_witness :
  exists m table body lanes g traces,
    Mean_new no_defines (sample_def true) mali_t8xx = Some m
    /\ BindArguments (SetSrc m sample_src) (float_table (args_ m)) = Some (OkStatus, table)
    /\ MeanKernel (sample_def true) (work_group_size_ m) = Some body
    /\ code_ m = no_defines F32 ++ kernel_text body
    /\ run_kernel {| launch_src := sample_src; launch_dst := sample_dst;
                     launch_args := table; launch_z := 3 |}
                  (work_group_size_ m) body
       = Some (lanes, g, traces)
    /\ stores g <> [].
Proof.
  eexists.
  destruct (kernel_stores_the_mean no_defines (sample_def true) mali_t8xx _
              {| axes := [BATCH; HEIGHT; WIDTH; CHANNELS] |} sample_src sample_dst 3
              eq_refl eq_refl eq_refl eq_refl ltac:(discriminate) eq_refl)
    as (table & body & lanes & g & traces & Hb & Hk & Hc & Hr & Hne & _).
  exists table, body, lanes, g, traces. repeat split; assumption.
Defined.

(** ** Lanes and stores *)

Lemma lane_of_inj (wg : int3) (i j : nat) :
  0 < int3_x wg -> lane_of wg i = lane_of wg j -> i = j.
Proof.
  intros Hx [= Hm Hd].
  pose proof (Z.div_mod (Z.of_nat i) (int3_x wg) ltac:(lia)).
  pose proof (Z.div_mod (Z.of_nat j) (int3_x wg) ltac:(lia)).
  apply Nat2Z.inj. congruence.
Qed.

Lemma lane_of_In (wg : int3) (lx ly : Z) :
  0 < int3_x wg -> 0 < int3_y wg ->
  (In (lx, ly) (map (lane_of wg) (seq 0 (group_size wg)))
   <-> 0 <= lx < int3_x wg /\ 0 <= ly < int3_y wg).
Proof.
  intros Hx Hy. rewrite in_map_iff. split.
  - intros (i & [= <- <-] & Hi). apply in_seq in Hi.
    destruct (lane_index wg i Hx Hy ltac:(unfold group_size in Hi; lia)) as (_ & ? & ?).
    tauto.
  - intros [Hlx Hly]. exists (Z.to_nat (ly * int3_x wg + lx)).
    assert (0 <= ly * int3_x wg + lx < int3_x wg * int3_y wg) by nia.
    split.
    + unfold lane_of. rewrite Z2Nat.id by lia.
      rewrite Z.add_comm, Z.mod_add, Z.div_add, Z.mod_small, Z.div_small by lia.
      reflexivity.
    + apply in_seq. unfold group_size. lia.
Qed.

(** ** Early exit of a whole group *)

Lemma run_lanes_returned (L : Launch) (ss : list stmt) (lanes : list Lane) (g : Group) :
  Forall (fun ln => returned ln = true) lanes ->
  run_lanes L ss lanes g = Some (lanes, g).
Proof.
  induction 1 as [|ln lanes Hr _ IH]; [reflexivity|].
  cbn [run_lanes]. now rewrite exec_block_returned, IH.
Qed.

Lemma uniform_returned (lanes : list Lane) :
  Forall (fun ln => returned ln = true) lanes -> uniform lanes = true.
Proof.
  intros H. unfold uniform. apply orb_true_iff. left.
  apply forallb_forall. now apply Forall_forall.
Qed.

Lemma run_phases_returned (L : Launch) (ps : list (list stmt)) (lanes : list Lane)
    (g : Group) :
  Forall (fun ln => returned ln = true) lanes ->
  trace g = [] ->
  run_phases L ps lanes g = Some (lanes, g, map (fun _ => []) ps).
Proof.
  intros Hr Hg. induction ps as [|p ps IH]; [reflexivity|].
  cbn [run_phases map]. rewrite run_lanes_returned by assumption.
  rewrite uniform_returned by assumption.
  replace (clear_trace g) with g by (destruct g; cbn in Hg; now subst).
  rewrite IH, Hg. now destruct ps.
Qed.

(** A group whose slice is out of range: every lane returns in the
    prologue. *)
Lemma run_lanes_exit (L : Launch) (wg : int3) (batch : bool) (rest : list stmt)
    (g : Group) (l : list nat) :
  (batch = true -> Batch (launch_dst L) <> 0) ->
  Slices (launch_dst L) <= slice_index batch L ->
  Z.of_nat (List.length (accum g)) = int3_x wg * int3_y wg ->
  run_lanes L (prologue batch wg ++ rest)
    (map (fun i => start_lane (Z.of_nat i mod int3_x wg) (Z.of_nat i / int3_x wg)) l) g
  = Some (map (fun i => set_returned (lane_after batch L wg i)) l, g).
Proof.
  intros Hb Hs Hlen. induction l as [|i l IH]; [reflexivity|].
  cbn [map run_lanes]. rewrite exec_block_app, lane_prologue_exit by assumption.
  cbv zeta. replace (_ >=? _) with true
    by (symmetry; rewrite Z.geb_leb; now apply Z.leb_le).
  rewrite exec_block_returned by reflexivity. now rewrite IH.
Qed.

(** A work-group whose slice is out of range, for the statements of any
    work-group size. *)
Lemma group_exit_runs (batch : bool) (wg : int3) (L : Launch) :
  0 < int3_x wg -> 0 < int3_y wg ->
  (batch = true -> Batch (launch_dst L) <> 0) ->
  Slices (launch_dst L) <= slice_index batch L ->
  exists lanes g traces,
    run_kernel L wg (kernel_body batch wg) = Some (lanes, g, traces)
    /\ List.length lanes = group_size wg
    /\ Forall (fun ln => returned ln = true) lanes
    /\ stores g = []
    /\ Forall (fun cell => cell = None) (accum g)
    /\ Forall (fun tr => tr = []) traces
    /\ List.length traces = List.length (phases (kernel_body batch wg)).
Proof.
  intros Hx Hy Hb Hs.
  unfold run_kernel. rewrite phases_body, local_size_body. cbn [run_phases].
  unfold lanes_of. fold (group_size wg).
  rewrite (run_lanes_exit L wg batch (per_lane wg)); [|assumption|assumption|].
  2:{ cbn [accum]. rewrite repeat_length. unfold group_size. nia. }
  set (lanes := map _ (seq 0 (group_size wg))).
  assert (Hl : Forall (fun ln => returned ln = true) lanes).
  { apply Forall_forall. intros ln Hin. apply in_map_iff in Hin as (i & <- & _).
    reflexivity. }
  rewrite uniform_returned by assumption.
  rewrite run_phases_returned by (assumption || reflexivity).
  replace (match phases (reduction wg ++ epilogue) with [] => true | _ :: _ => true end)
    with true by (now destruct (phases (reduction wg ++ epilogue))).
  eexists. eexists. eexists. split; [reflexivity|].
  split; [subst lanes; now rewrite length_map, length_seq|].
  split; [exact Hl|]. split; [reflexivity|]. split.
  { cbn [clear_trace accum]. apply Forall_forall. intros c Hc.
    now apply repeat_spec in Hc. }
  split.
  - constructor; [reflexivity|]. apply Forall_forall. intros tr Hin.
    now apply in_map_iff in Hin as (? & <- & _).
  - cbn [List.length]. now rewrite length_map.
Qed.

(** What the generator returns, as the statements that are run. *)
Lemma generated_kernel (G : CalculationsPrecision -> string) (args_ : list ArgDecl)
    (op_def : OperationDef) (wg : int3) (src0 dst0 : TensorDescriptor) :
  nth_error (src_tensors op_def) 0 = Some src0 ->
  nth_error (dst_tensors op_def) 0 = Some dst0 ->
  GetMeanKernelCode G args_ op_def wg
  = Some ((args_ ++ [SrcTensorArg "src_tensor" src0; DstTensorArg "dst_tensor" dst0;
                     FloatArg "inv_multiplier_1"; FloatArg "inv_multiplier_2"])%list,
          G (precision op_def) ++ kernel_text (kernel_body (HasAxis dst0 BATCH) wg))
  /\ MeanKernel op_def wg = Some (kernel_body (HasAxis dst0 BATCH) wg).
Proof.
  intros Hs Hd. rewrite kernel_text_is_rendering. unfold MeanKernel.
  now rewrite Hs, Hd.
Qed.

(** X6: in the kernel that [GetMeanKernelCode] returns for a work-group
    size with [wx, wy > 0], [wz = 1] and [wx * wy] in the range of [int], a
    work-group whose slice is not below [Slices] runs to its end: every
    lane has returned, [accum] is untouched and nothing is stored. *)
Theorem group_beyond_last_slice_does_nothing (G : CalculationsPrecision -> string)
    (args_ : list ArgDecl) (op_def : OperationDef) (src0 dst0 : TensorDescriptor)
    (wg : int3) (L : Launch) :
  nth_error (src_tensors op_def) 0 = Some src0 ->
  nth_error (dst_tensors op_def) 0 = Some dst0 ->
  0 < int3_x wg -> 0 < int3_y wg -> int3_z wg = 1 ->
  in_int (int3_x wg * int3_y wg) ->
  (HasAxis dst0 BATCH = true -> Batch (launch_dst L) <> 0) ->
  Slices (launch_dst L)
  <= (if HasAxis dst0 BATCH then launch_z L ÷ Batch (launch_dst L) else launch_z L) ->
  exists args' body lanes g traces,
    GetMeanKernelCode G args_ op_def wg
    = Some (args', G (precision op_def) ++ kernel_text body)
    /\ MeanKernel op_def wg = Some body
    /\ run_kernel L wg body = Some (lanes, g, traces)
    /\ List.length lanes = group_size wg
    /\ Forall (fun ln => returned ln = true) lanes
    /\ stores g = []
    /\ Forall (fun cell => cell = None) (accum g)
    /\ Forall (fun tr => tr = []) traces
    /\ List.length traces = List.length (phases body).
Proof.
  intros Hs0 Hd0 Hx Hy _ _ Hb Hs.
  destruct (generated_kernel G args_ op_def wg src0 dst0 Hs0 Hd0) as [Hg Hk].
  destruct (group_exit_runs (HasAxis dst0 BATCH) wg L Hx Hy Hb Hs)
    as (lanes & g & traces & H).
  exists (args_ ++ [SrcTensorArg "src_tensor" src0; DstTensorArg "dst_tensor" dst0;
                    FloatArg "inv_multiplier_1"; FloatArg "inv_multiplier_2"])%list,
         (kernel_body (HasAxis dst0 BATCH) wg), lanes, g, traces.
  split; [exact Hg|]. split; [exact Hk|]. exact H.
Qed.

Lemma group_beyond_last_slice_does_nothing_witness :
  exists args' body lanes g traces,
    GetMeanKernelCode no_defines [] (sample_def true) six_by_six
    = Some (args', no_defines F32 ++ kernel_text body)
    /\ run_kernel (bound_launch sample_src sample_dst (32 # 15) (1 # 32) 4)
                  six_by_six body
       = Some (lanes, g, traces)
    /\ stores g = [].
Proof.
  destruct (group_beyond_last_slice_does_nothing no_defines [] (sample_def true) _ _
              six_by_six (bound_launch sample_src sample_dst (32 # 15) (1 # 32) 4)
              eq_refl eq_refl eq_refl eq_refl eq_refl
              ltac:(unfold in_int, int_min, int_max; cbn; lia)
              ltac:(discriminate) ltac:(discriminate))
    as (args' & body & lanes & g & traces & Hg & _ & Hr & _ & _ & Hs & _).
  exists args', body, lanes, g, traces. repeat split; assumption.
Defined.

(** ** The grid *)

(** X5: for a destination with [Slices, Batch >= 0] whose product is in
    the range of [int] (and [Batch = 1] without a batch axis), the [int]
    product of [GetGridSize] is [Slices * Batch]; the generated code starts
    with the prologue; no lane of a work-group [z] of the grid returns
    early or divides by zero there: it works on a slice [S < Slices] and a
    batch [B < Batch] with [z = S * Batch + B]; every pair [(S, B)] has its
    [z] in the grid, and only one. *)
Theorem grid_covers_slices_and_batches (G : CalculationsPrecision -> string)
    (def : OperationDef) (dev : DeviceInfo) (m : Mean) (dst0 : TensorDescriptor)
    (dst : Tensor) :
  Mean_new G def dev = Some m ->
  nth_error (dst_tensors def) 0 = Some dst0 ->
  0 <= Slices dst -> 0 <= Batch dst ->
  in_int (Slices dst * Batch dst) ->
  (HasAxis dst0 BATCH = false -> Batch dst = 1) ->
  exists grid,
    GetGridSize (SetDst m dst) = Some grid
    /\ code_ m
       = G (precision def)
         ++ kernel_text (prologue (HasAxis dst0 BATCH) (work_group_size_ m)
                         ++ accumulation (work_group_size_ m)
                         ++ reduction (work_group_size_ m) ++ epilogue)
    /\ (forall (z : Z) (src : Tensor) (args : list (string * Q)) (lx ly : Z) (g : Group),
          0 <= z < int3_z grid ->
          Z.of_nat (List.length (accum g))
          = int3_x (work_group_size_ m) * int3_y (work_group_size_ m) ->
          exists ln S B,
            exec_block {| launch_src := src; launch_dst := dst;
                          launch_args := args; launch_z := z |}
                       (prologue (HasAxis dst0 BATCH) (work_group_size_ m))
                       (start_lane lx ly) g
            = Some (ln, g)
            /\ returned ln = false
            /\ lookup "S" (ints ln) = Some S
            /\ 0 <= S < Slices dst /\ 0 <= B < Batch dst
            /\ z = S * Batch dst + B
            /\ src_batch ln = (if HasAxis dst0 BATCH then Some B else None)
            /\ dst_batch ln = (if HasAxis dst0 BATCH then Some B else None))
    /\ (forall S B, 0 <= S < Slices dst -> 0 <= B < Batch dst ->
          0 <= S * Batch dst + B < int3_z grid)
    /\ (forall S B S' B', 0 <= B < Batch dst -> 0 <= B' < Batch dst ->
          S * Batch dst + B = S' * Batch dst + B' -> S = S' /\ B = B').
Proof.
  intros Hm Hd HS HB Hint Hnb.
  destruct (Mean_new_inv G def dev m Hm) as (src0 & dst0' & _ & Hd' & ->).
  rewrite Hd in Hd'. injection Hd' as <-.
  cbn [work_group_size_ SetDst GetGridSize dst_ nth_error code_].
  rewrite (int_mul_exact _ _ Hint).
  eexists. split; [reflexivity|]. split; [reflexivity|]. cbn [int3_z]. split; [|split].
  - intros z src args lx ly g Hz Hlen.
    assert (HS' : 0 < Slices dst) by nia. assert (HB' : 0 < Batch dst) by nia.
    clear HS HB. rename HS' into HS. rename HB' into HB.
    set (L := {| launch_src := src; launch_dst := dst; launch_args := args; launch_z := z |}).
    set (batch := HasAxis dst0 BATCH) in *.
    assert (Hsl : slice_index batch L < Slices dst /\ 0 <= slice_index batch L).
    { unfold slice_index. cbn [L launch_z launch_dst]. destruct batch.
      - rewrite Z.quot_div_nonneg by lia. split.
        + apply Z.div_lt_upper_bound; lia.
        + apply Z.div_pos; lia.
      - rewrite (Hnb eq_refl) in Hz. lia. }
    exists (mk_lane lx ly (lane_vars batch L (work_group_size_for dev) lx ly)
                    (batch_index batch L)),
           (slice_index batch L),
           (if batch then z mod Batch dst else 0).
    split.
    { apply lane_prologue; cbn [L launch_dst]; [intros _; lia | tauto | exact Hlen]. }
    split; [reflexivity|]. split; [apply lane_vars_lookup|].
    split; [cbn [L launch_dst] in Hsl; lia|].
    unfold batch_index, slice_index in *. cbn [L launch_z launch_dst mk_lane src_batch dst_batch] in *.
    destruct batch.
    + rewrite Z.quot_div_nonneg, Z.rem_mod_nonneg by lia.
      pose proof (Z.mod_pos_bound z (Batch dst) HB).
      pose proof (Z.div_mod z (Batch dst) ltac:(lia)).
      repeat split; lia.
    + rewrite (Hnb eq_refl). repeat split; lia.
  - intros S B HSr HBr. nia.
  - intros S B S' B' HBr HBr' E.
    assert (S = S') by nia. subst. lia.
Qed.

Lemma grid_covers_slices_and_batches_witness :
  exists m grid,
    Mean_new no_defines (sample_def true) mali_t8xx = Some m
    /\ GetGridSize (SetDst m sample_dst) = Some grid
    /\ 0 <= 1 * Batch sample_dst + 1 < int3_z grid.
Proof.
  eexists.
  destruct (grid_covers_slices_and_batches no_defines (sample_def true) mali_t8xx _
              {| axes := [BATCH; HEIGHT; WIDTH; CHANNELS] |} sample_dst
              eq_refl eq_refl ltac:(cbn; lia) ltac:(cbn; lia)
              ltac:(unfold in_int, int_min, int_max; cbn; lia) ltac:(discriminate))
    as (grid & Hg & _ & _ & Hin & _).
  exists grid. split; [reflexivity|]. split; [exact Hg|].
  apply Hin; cbn; lia.
Defined.

(** ** The binder on an arbitrary table *)

(** X3: in exact arithmetic over the formulas that the binder evaluates
    (the [double]s as rationals, the rounding to [float] left out) and with
    [H * W] in the range of [int]: on an argument table that holds both
    scalars, whatever else it holds, [BindArguments] of a constructed
    operation with a source of [H * W > 0] returns ok, leaves
    [inv_multiplier_1 = wx * wy / (H * W)] and
    [inv_multiplier_2 = 1 / (wx * wy)] in the table and changes no other
    argument. *)
Theorem BindArguments_sets_its_two_scalars (G : CalculationsPrecision -> string)
    (def : OperationDef) (dev : DeviceInfo) (m : Mean) (src : Tensor) (table : ArgTable) :
  Mean_new G def dev = Some m ->
  Height src * Width src > 0 ->
  in_int (Height src * Width src) ->
  lookup "inv_multiplier_1" table <> None ->
  lookup "inv_multiplier_2" table <> None ->
  exists table' inv_multiplier_1 inv_multiplier_2,
    BindArguments (SetSrc m src) table = Some (OkStatus, table')
    /\ lookup "inv_multiplier_1" table' = Some inv_multiplier_1
    /\ lookup "inv_multiplier_2" table' = Some inv_multiplier_2
    /\ (inv_multiplier_1
        == inject_Z (int3_x (work_group_size_ m) * int3_y (work_group_size_ m))
           / inject_Z (Height src * Width src))%Q
    /\ (inv_multiplier_2
        == 1 / inject_Z (int3_x (work_group_size_ m) * int3_y (work_group_size_ m)))%Q
    /\ (forall name, name <> "inv_multiplier_1" -> name <> "inv_multiplier_2" ->
          lookup name table' = lookup name table)
    /\ map fst table' = map fst table.
Proof.
  intros Hm Hpos _ H1 H2.
  destruct (Mean_new_inv G def dev m Hm) as (src0 & dst0 & _ & _ & ->).
  unfold BindArguments. cbn [SetSrc src_ nth_error work_group_size_].
  set (n := int3_x (work_group_size_for dev) * int3_y (work_group_size_for dev)).
  assert (Hn : 0 < n).
  { subst n. destruct (work_group_size_cases dev) as [-> | [-> | [-> | ->]]]; reflexivity. }
  cbn [SetFloat ArgTable_binder].
  destruct (lookup "inv_multiplier_1" table) as [old1|] eqn:E1; [|contradiction].
  cbn [ok]. rewrite lookup_assign_other by discriminate.
  destruct (lookup "inv_multiplier_2" table) as [old2|] eqn:E2; [|contradiction].
  cbn [ok].
  do 3 eexists. split; [reflexivity|].
  split.
  { rewrite lookup_assign_other by discriminate.
    apply lookup_assign_same. now rewrite E1. }
  split.
  { apply lookup_assign_same. rewrite lookup_assign_other by discriminate. now rewrite E2. }
  assert (~ (inject_Z n == 0)%Q) by (unfold Qeq; simpl; lia).
  assert (~ (inject_Z (Height src * Width src) == 0)%Q) by (unfold Qeq; simpl; lia).
  assert (~ (inject_Z (Width src * Height src) == 0)%Q) by (unfold Qeq; simpl; lia).
  split; [rewrite (Z.mul_comm (Height src)); field; auto|].
  split; [reflexivity|].
  split.
  - intros name N1 N2. now rewrite !lookup_assign_other.
  - now rewrite !assign_names.
Qed.

Lemma BindArguments_sets_its_two_scalars_witness :
  exists m table',
    Mean_new no_defines (sample_def true) mali_t8xx = Some m
    /\ BindArguments (SetSrc m sample_src)
         [("bias", 7 # 1); ("inv_multiplier_2", 0); ("inv_multiplier_1", 0)]%Q
       = Some (OkStatus, table')
    /\ lookup "bias" table' = Some (7 # 1)%Q.
Proof.
  eexists.
  destruct (BindArguments_sets_its_two_scalars no_defines (sample_def true) mali_t8xx _
              sample_src
              [("bias", 7 # 1); ("inv_multiplier_2", 0); ("inv_multiplier_1", 0)]%Q
              eq_refl eq_refl ltac:(unfold in_int, int_min, int_max; cbn; lia)
              ltac:(discriminate) ltac:(discriminate))
    as (table' & i1 & i2 & Hb & _ & _ & _ & _ & Hother & _).
  exists table'. split; [reflexivity|]. split; [exact Hb|].
  rewrite Hother by discriminate. reflexivity.
Defined.

(** X4: when the table lacks one of the two scalars, [BindArguments]
    returns an error.  Without [inv_multiplier_1] the table is unchanged;
    with it, [inv_multiplier_1] has been written before the write of
    [inv_multiplier_2] fails; in both cases no other argument is
    changed. *)
Theorem BindArguments_stops_at_the_first_error (G : CalculationsPrecision -> string)
    (def : OperationDef) (dev : DeviceInfo) (m : Mean) (src : Tensor) (table : ArgTable) :
  Mean_new G def dev = Some m ->
  Height src * Width src > 0 ->
  lookup "inv_multiplier_1" table = None \/ lookup "inv_multiplier_2" table = None ->
  exists message table',
    BindArguments (SetSrc m src) table = Some (ErrorStatus message, table')
    /\ (lookup "inv_multiplier_1" table = None -> table' = table)
    /\ (lookup "inv_multiplier_1" table <> None ->
        exists inv_multiplier_1,
          lookup "inv_multiplier_1" table' = Some inv_multiplier_1
          /\ (inv_multiplier_1
              == inject_Z (int3_x (work_group_size_ m) * int3_y (work_group_size_ m))
                 / inject_Z (Height src * Width src))%Q)
    /\ (forall name, name <> "inv_multiplier_1" ->
          lookup name table' = lookup name table).
Proof.
  intros Hm Hpos Hmiss.
  destruct (Mean_new_inv G def dev m Hm) as (src0 & dst0 & _ & _ & ->).
  unfold BindArguments. cbn [SetSrc src_ nth_error work_group_size_].
  set (n := int3_x (work_group_size_for dev) * int3_y (work_group_size_for dev)).
  assert (Hn : 0 < n).
  { subst n. destruct (work_group_size_cases dev) as [-> | [-> | [-> | ->]]]; reflexivity. }
  cbn [SetFloat ArgTable_binder].
  destruct (lookup "inv_multiplier_1" table) as [old1|] eqn:E1; cbn [ok].
  - destruct Hmiss as [Hmiss|Hmiss]; [discriminate|].
    rewrite lookup_assign_other by discriminate. rewrite Hmiss. cbn [ok].
    do 2 eexists. split; [reflexivity|].
    split; [discriminate|].
    split.
    + intros _. eexists. split.
      * apply lookup_assign_same. now rewrite E1.
      * assert (~ (inject_Z n == 0)%Q) by (unfold Qeq; simpl; lia).
        assert (~ (inject_Z (Height src * Width src) == 0)%Q) by (unfold Qeq; simpl; lia).
        assert (~ (inject_Z (Width src * Height src) == 0)%Q) by (unfold Qeq; simpl; lia).
        rewrite (Z.mul_comm (Height src)). field. auto.
    + intros name N1. now rewrite lookup_assign_other.
  - do 2 eexists. split; [reflexivity|].
    split; [reflexivity|]. split; [intros C; now contradiction C|]. reflexivity.
Qed.

Lemma BindArguments_stops_at_the_first_error_witness :
  exists m message table',
    Mean_new no_defines (sample_def true) mali_t8xx = Some m
    /\ BindArguments (SetSrc m sample_src) [("inv_multiplier_1", 0%Q)]
       = Some (ErrorStatus message, table').
Proof.
  eexists.
  destruct (BindArguments_stops_at_the_first_error no_defines (sample_def true) mali_t8xx _
              sample_src [("inv_multiplier_1", 0%Q)]
              eq_refl eq_refl ltac:(right; reflexivity))
    as (message & table' & Hb & _).
  exists message, table'. split; [reflexivity | exact Hb].
Defined.

(** ** How many cells a lane reads *)

Lemma values_length (c : Z) (Hc : 0 < c) (b : Z) (n : nat) :
  forall a, (Z.to_nat (b - a) <= n)%nat ->
    Z.of_nat (List.length (values a b c)) = Z.max 0 (ceil_ratio (b - a) c).
Proof.
  unfold ceil_ratio.
  induction n as [|n IH]; intros a Hn.
  - rewrite values_done by lia. cbn [List.length].
    assert ((b - a + c - 1) / c <= 0).
    { apply Z.lt_succ_r. apply Z.div_lt_upper_bound; lia. }
    lia.
  - destruct (Z_lt_dec a b) as [Hab|Hab].
    + rewrite values_step by assumption. cbn [List.length].
      rewrite Nat2Z.inj_succ, IH by lia.
      replace (b - a + c - 1) with ((b - (a + c) + c - 1) + 1 * c) by lia.
      rewrite Z.div_add by lia.
      assert (0 <= (b - (a + c) + c - 1) / c) by (apply Z.div_pos; lia).
      lia.
    + rewrite values_done by lia. cbn [List.length].
      assert ((b - a + c - 1) / c <= 0).
      { apply Z.lt_succ_r. apply Z.div_lt_upper_bound; lia. }
      lia.
Qed.

Lemma lane_cells_length (L : Launch) (wg : int3) (lx ly : Z) :
  0 < int3_x wg -> 0 < int3_y wg ->
  Z.of_nat (List.length (lane_cells L wg lx ly))
  = Z.max 0 (ceil_ratio (Width (launch_src L) - lx) (int3_x wg))
    * Z.max 0 (ceil_ratio (Height (launch_src L) - ly) (int3_y wg)).
Proof.
  intros Hx Hy. unfold lane_cells.
  rewrite <- (values_length _ Hx _ _ lx (Nat.le_refl _)).
  rewrite <- (values_length _ Hy _ _ ly (Nat.le_refl _)).
  induction (values ly (Height (launch_src L)) (int3_y wg)) as [|y ys IH];
    cbn [flat_map List.length]; [lia|].
  rewrite length_app, length_map, Nat2Z.inj_add, IH. lia.
Qed.

(** X7: after the prologue and the two loops, the cell of lane [(lx, ly)]
    holds a sum of exactly [ceil ((W - lx) / wx) * ceil ((H - ly) / wy)]
    cells of the source; this is at most [ceil (W / wx) * ceil (H / wy)],
    and it is none exactly for the lanes outside the plane. *)
Theorem cells_read_by_a_lane (L : Launch) (wg : int3) (batch : bool) (q1 : Q)
    (lx ly : Z) (g : Group) :
  0 <= lx < int3_x wg -> 0 <= ly < int3_y wg ->
  0 <= Width (launch_src L) -> 0 <= Height (launch_src L) ->
  (batch = true -> Batch (launch_dst L) <> 0) ->
  (if batch then launch_z L ÷ Batch (launch_dst L) else launch_z L)
  < Slices (launch_dst L) ->
  lookup "inv_multiplier_1" (launch_args L) = Some q1 ->
  Z.of_nat (List.length (accum g)) = int3_x wg * int3_y wg ->
  exists ln g' v,
    exec_block L (prologue batch wg ++ per_lane wg) (start_lane lx ly) g = Some (ln, g')
    /\ nth_error (accum g') (Z.to_nat (ly * int3_x wg + lx)) = Some (Some v)
    /\ Z.of_nat (List.length (leaves [] v []))
       = ceil_ratio (Width (launch_src L) - lx) (int3_x wg)
         * ceil_ratio (Height (launch_src L) - ly) (int3_y wg)
    /\ Z.of_nat (List.length (leaves [] v []))
       <= ceil_ratio (Width (launch_src L)) (int3_x wg)
          * ceil_ratio (Height (launch_src L)) (int3_y wg)
    /\ (List.length (leaves [] v []) = 0%nat
        <-> Width (launch_src L) <= lx \/ Height (launch_src L) <= ly).
Proof.
  intros Hlx Hly HW HH Hb Hs Hq Hlen.
  assert (Hx : 0 < int3_x wg) by lia. assert (Hy : 0 < int3_y wg) by lia.
  rewrite exec_block_app, lane_prologue by assumption.
  destruct (lane_accumulation batch L wg lx ly g q1 Hx Hy Hq) as (tr & E & _); [nia|].
  rewrite E. do 3 eexists. split; [reflexivity|].
  cbn [with_cell accum]. split.
  { apply nth_error_set_nth. nia. }
  cbn [leaves]. unfold partial_sum. rewrite leaves_fold. cbn [leaves].
  rewrite app_nil_r, length_map, lane_cells_length by assumption.
  unfold ceil_ratio.
  set (W := Width (launch_src L)) in *. set (H := Height (launch_src L)) in *.
  assert (Ax : (W - lx + int3_x wg - 1) / int3_x wg <= (W + int3_x wg - 1) / int3_x wg)
    by (apply Z.div_le_mono; lia).
  assert (Ay : (H - ly + int3_y wg - 1) / int3_y wg <= (H + int3_y wg - 1) / int3_y wg)
    by (apply Z.div_le_mono; lia).
  assert (Bx : 0 <= (W - lx + int3_x wg - 1) / int3_x wg) by (apply Z.div_pos; lia).
  assert (By : 0 <= (H - ly + int3_y wg - 1) / int3_y wg) by (apply Z.div_pos; lia).
  assert (Cx : 0 < (W - lx + int3_x wg - 1) / int3_x wg <-> lx < W).
  { split; intros C.
    - destruct (Z_lt_dec lx W); [assumption|].
      rewrite Z.div_small in C by lia. lia.
    - apply Z.div_str_pos. lia. }
  assert (Cy : 0 < (H - ly + int3_y wg - 1) / int3_y wg <-> ly < H).
  { split; intros C.
    - destruct (Z_lt_dec ly H); [assumption|].
      rewrite Z.div_small in C by lia. lia.
    - apply Z.div_str_pos. lia. }
  split; [lia|]. split; [nia|].
  split.
  - intros E0. assert (Z.of_nat (List.length (lane_cells L wg lx ly)) = 0)
      by (rewrite length_map in E0 || idtac; lia).
    rewrite lane_cells_length in H0 by assumption. unfold ceil_ratio in H0. fold W H in H0. nia.
  - intros Hout.
    assert (Z.of_nat (List.length (lane_cells L wg lx ly)) = 0).
    { rewrite lane_cells_length by assumption. unfold ceil_ratio. fold W H. nia. }
    lia.
Qed.

Lemma cells_read_by_a_lane_witness :
  exists ln g v,
    exec_block sample_launch (prologue true six_by_six ++ per_lane six_by_six)
      (start_lane 1 2) {| accum := repeat None 36; stores := []; trace := [] |}
    = Some (ln, g)
    /\ nth_error (accum g) 13 = Some (Some v)
    /\ Z.of_nat (List.length (leaves [] v [])) = 1.
Proof.
  destruct (cells_read_by_a_lane sample_launch six_by_six true (32 # 15) 1 2
              {| accum := repeat None 36; stores := []; trace := [] |}
              ltac:(cbn; lia) ltac:(cbn; lia) ltac:(cbn; lia) ltac:(cbn; lia)
              ltac:(discriminate) eq_refl eq_refl eq_refl)
    as (ln & g & v & He & Hn & Hc & _).
  exists ln, g, v. split; [exact He|]. split; [exact Hn|].
  rewrite Hc. reflexivity.
Defined.

(** ** The reduction of any work-group *)

Lemma set_nth_map_seq {A} (f : nat -> A) (v : A) (n : nat) :
  forall start k, (k < n)%nat ->
    set_nth k v (map f (seq start n))
    = map (fun j => if (j =? start + k)%nat then v else f j) (seq start n).
Proof.
  induction n as [|n IH]; intros start k Hk; [lia|].
  cbn [seq map]. destruct k as [|k]; cbn [set_nth].
  - rewrite Nat.add_0_r, Nat.eqb_refl. f_equal.
    apply map_ext_in. intros j Hj. apply in_seq in Hj.
    now replace (j =? start)%nat with false by (symmetry; apply Nat.eqb_neq; lia).
  - replace (start =? start + S k)%nat with false by (symmetry; apply Nat.eqb_neq; lia).
    f_equal. rewrite IH by lia. apply map_ext. intros j.
    now replace (S start + k)%nat with (start + S k)%nat by lia.
Qed.

Lemma cells_of_length (n : nat) (A : Z -> f4) : List.length (cells_of n A) = n.
Proof.
  unfold cells_of. now rewrite length_map, length_seq.
Qed.

Lemma cells_of_nth (n : nat) (A : Z -> f4) (i : Z) :
  0 <= i < Z.of_nat n -> nth_error (cells_of n A) (Z.to_nat i) = Some (Some (A i)).
Proof.
  intros Hi. unfold cells_of.
  rewrite nth_error_map, nth_error_seq.
  replace (Z.to_nat i <? n)%nat with true by (symmetry; apply Nat.ltb_lt; lia).
  cbn. now rewrite Z2Nat.id by lia.
Qed.

Lemma cells_of_ext (n : nat) (A B : Z -> f4) :
  (forall z, 0 <= z < Z.of_nat n -> A z = B z) -> cells_of n A = cells_of n B.
Proof.
  intros E. unfold cells_of. apply map_ext_in. intros j Hj. apply in_seq in Hj.
  now rewrite E by lia.
Qed.

Lemma cells_of_set (n : nat) (A : Z -> f4) (i : Z) (v : f4) :
  0 <= i < Z.of_nat n ->
  set_nth (Z.to_nat i) (Some v) (cells_of n A) = cells_of n (upd A i v).
Proof.
  intros Hi. unfold cells_of. rewrite set_nth_map_seq by lia.
  apply map_ext. intros j. unfold upd. cbn [Nat.add].
  destruct (Nat.eqb_spec j (Z.to_nat i)) as [->|Hne].
  - now rewrite Z2Nat.id, Z.eqb_refl by lia.
  - now replace (Z.of_nat j =? i) with false by (symmetry; apply Z.eqb_neq; lia).
Qed.

Lemma load_cells (ln : Lane) (g : Group) (n : nat) (A : Z -> f4) (i : Z) :
  accum g = cells_of n A -> 0 <= i < Z.of_nat n ->
  load ln g i = Some (A i, logged ln false i g).
Proof.
  intros Hg Hi. unfold load.
  rewrite cell_index_in by (rewrite Hg, cells_of_length; lia).
  now rewrite Hg, cells_of_nth.
Qed.

Lemma store_cells (ln : Lane) (g : Group) (n : nat) (A : Z -> f4) (i : Z) (v : f4) :
  accum g = cells_of n A -> 0 <= i < Z.of_nat n ->
  store ln g i v
  = Some (logged ln true i
            {| accum := cells_of n (upd A i v); stores := stores g; trace := trace g |}).
Proof.
  intros Hg Hi. unfold store.
  rewrite cell_index_in by (rewrite Hg, cells_of_length; lia).
  now rewrite Hg, cells_of_set.
Qed.

Lemma leave_scope_inner (ln : Lane) (iv : list (string * Z)) (vs : list (string * f4)) :
  leave_scope ln {| local_x := local_x ln; local_y := local_y ln;
                    ints := iv ++ ints ln; vecs := vs ++ vecs ln;
                    src_batch := src_batch ln; dst_batch := dst_batch ln;
                    returned := returned ln |} = ln.
Proof.
  destruct ln as [lx ly i v sb db r]. unfold leave_scope.
  cbn [local_x local_y ints vecs src_batch dst_batch returned].
  rewrite !length_app.
  replace (List.length iv + List.length i - List.length i)%nat with (List.length iv) by lia.
  replace (List.length vs + List.length v - List.length v)%nat with (List.length vs) by lia.
  now rewrite !skipn_app, !skipn_all, !Nat.sub_diag.
Qed.

(** One lane in one step of the tree. *)
Lemma tree_step_lane (L : Launch) (ln : Lane) (g : Group) (n : nat) (A : Z -> f4)
    (reminder offset id : Z) :
  returned ln = false ->
  lookup "local_id" (ints ln) = Some id ->
  accum g = cells_of n A ->
  0 <= id -> 0 < offset -> reminder * (offset * 4) <= Z.of_nat n ->
  exec_block L [SIfLt (IVar "local_id") (INum reminder)
                  [ SInt "t" (IMul (IVar "local_id") (INum (offset * 4)));
                    SFloat4 "sum" (VAccum (IAdd (IVar "t") (INum offset)));
                    SVAdd "sum" (VAccum (IAdd (IVar "t") (INum (offset * 2))));
                    SVAdd "sum" (VAccum (IAdd (IVar "t") (INum (offset * 3))));
                    SAccumAdd (IVar "t") (VVar "sum") ]] ln g
  = Some (ln,
          if id <? reminder
          then {| accum := cells_of n (upd A (id * (offset * 4))
                                          (step_sum A offset (id * (offset * 4))));
                  stores := stores g;
                  trace := (step_accesses (local_x ln, local_y ln) offset id
                            ++ trace g)%list |}
          else g).
Proof.
  intros Hr Hid Hg Hid0 Hoff Hn.
  rewrite exec_block_cons, exec_stmt_eq, Hr.
  cbn [eval_iexp]. rewrite Hid.
  destruct (id <? reminder) eqn:Hlt; [|reflexivity].
  apply Z.ltb_lt in Hlt.
  set (t := id * (offset * 4)).
  assert (Ht : 0 <= t /\ t + offset * 3 < Z.of_nat n) by (subst t; nia).
  unfold scoped.
  (* int t *)
  rewrite exec_block_cons, exec_stmt_eq, Hr. cbn [eval_iexp]. rewrite Hid.
  fold t.
  set (ln1 := declare_int "t" t ln).
  assert (Hr1 : returned ln1 = false) by exact Hr.
  (* float4 sum = accum[t + offset] *)
  rewrite exec_block_cons, exec_stmt_eq, Hr1.
  cbn [eval_vexp eval_iexp ln1 declare_int ints lookup String.eqb Ascii.eqb Bool.eqb].
  fold ln1.
  rewrite (load_cells ln1 g n A) by (assumption || lia).
  set (g1 := logged ln1 false (t + offset) g).
  set (ln2 := declare_vec "sum" (A (t + offset)) ln1).
  assert (Hr2 : returned ln2 = false) by exact Hr.
  (* sum += accum[t + offset * 2] *)
  rewrite exec_block_cons, exec_stmt_eq, Hr2.
  cbn [eval_vexp eval_iexp ln2 ln1 declare_vec declare_int ints vecs lookup
       String.eqb Ascii.eqb Bool.eqb].
  fold ln1. fold ln2.
  rewrite (load_cells ln2 g1 n A) by (assumption || lia).
  set (g2 := logged ln2 false (t + offset * 2) g1).
  set (ln3 := assign_vec "sum" (FAdd (A (t + offset)) (A (t + offset * 2))) ln2).
  assert (Hr3 : returned ln3 = false) by exact Hr.
  (* sum += accum[t + offset * 3] *)
  rewrite exec_block_cons, exec_stmt_eq, Hr3.
  cbn [eval_vexp eval_iexp ln3 ln2 ln1 assign_vec declare_vec declare_int ints vecs
       lookup assign String.eqb Ascii.eqb Bool.eqb].
  fold ln1. fold ln2.
  change (assign_vec "sum" (FAdd (A (t + offset)) (A (t + offset * 2))) ln2) with ln3.
  rewrite (load_cells _ g2 n A) by (assumption || lia).
  set (g3 := logged _ false (t + offset * 3) g2).
  set (ln4 := assign_vec "sum" _ _).
  assert (Hr4 : returned ln4 = false) by exact Hr.
  (* accum[t] += sum *)
  rewrite exec_block_cons, exec_stmt_eq, Hr4.
  cbn [eval_vexp eval_iexp ln4 ln3 ln2 ln1 assign_vec declare_vec declare_int ints vecs
       lookup assign String.eqb Ascii.eqb Bool.eqb].
  rewrite (load_cells _ g3 n A) by (assumption || lia).
  rewrite (store_cells _ _ n A) by (assumption || lia).
  cbn [exec_block]. f_equal. f_equal.
  apply leave_scope_inner with (iv := [("t", t)])
      (vs := [("sum", FAdd (FAdd (A (t + offset)) (A (t + offset * 2))) (A (t + offset * 3)))]).
Qed.

Lemma lane_after_id (batch : bool) (L : Launch) (wg : int3) (i : nat) :
  0 < int3_x wg ->
  lookup "local_id" (ints (lane_after batch L wg i)) = Some (Z.of_nat i).
Proof.
  intros Hx. unfold lane_after. cbn [mk_lane ints].
  destruct (lane_vars_lookup batch L wg (Z.of_nat i mod int3_x wg) (Z.of_nat i / int3_x wg))
    as (_ & -> & _).
  f_equal. pose proof (Z.div_mod (Z.of_nat i) (int3_x wg) ltac:(lia)). lia.
Qed.

Lemma stepped_next (A : Z -> f4) (offset k z : Z) :
  0 < offset -> 0 <= k ->
  upd (stepped A offset k) (k * (offset * 4))
      (step_sum (stepped A offset k) offset (k * (offset * 4))) z
  = stepped A offset (k + 1) z.
Proof.
  intros Hoff Hk. unfold upd.
  assert (Hbase : forall c, 0 <= c < offset * 4 ->
            (k * (offset * 4) + c) mod (offset * 4) = c
            /\ (k * (offset * 4) + c) / (offset * 4) = k).
  { intros c Hc. rewrite Z.add_comm, Z.mod_add, Z.div_add by lia.
    rewrite Z.mod_small, Z.div_small by lia. lia. }
  assert (Hother : forall c, 0 < c < offset * 4 ->
            stepped A offset k (k * (offset * 4) + c) = A (k * (offset * 4) + c)).
  { intros c Hc. unfold stepped. destruct (Hbase c ltac:(lia)) as [-> _].
    replace (c =? 0) with false by (symmetry; apply Z.eqb_neq; lia).
    now rewrite andb_false_r. }
  destruct (Z.eqb_spec z (k * (offset * 4))) as [->|Hne].
  - unfold step_sum. rewrite !Hother by lia.
    unfold stepped.
    destruct (Hbase 0 ltac:(lia)) as [Hm Hd]. rewrite Z.add_0_r in Hm, Hd.
    rewrite Hm, Hd. rewrite Z.ltb_irrefl, andb_false_r.
    replace (0 <=? k * (offset * 4)) with true by (symmetry; apply Z.leb_le; nia).
    replace (k <? k + 1) with true by (symmetry; apply Z.ltb_lt; lia).
    reflexivity.
  - unfold stepped.
    destruct (0 <=? z) eqn:E0; [|reflexivity].
    destruct (z mod (offset * 4) =? 0) eqn:Em; [|reflexivity].
    cbn [andb]. apply Z.leb_le in E0. apply Z.eqb_eq in Em.
    assert (z / (offset * 4) <> k).
    { intros <-. apply Hne. pose proof (Z.div_mod z (offset * 4) ltac:(lia)). lia. }
    destruct (Z.ltb_spec (z / (offset * 4)) k), (Z.ltb_spec (z / (offset * 4)) (k + 1));
      (reflexivity || lia).
Qed.

Lemma step_accesses_in_block (wg : int3) (offset reminder id : Z) :
  0 < offset -> 0 <= id < reminder ->
  Forall (in_block wg offset reminder)
         (step_accesses (id mod int3_x wg, id / int3_x wg) offset id).
Proof.
  intros Hoff Hid. unfold step_accesses.
  repeat constructor; exists id; cbn [acc_lane acc_cell]; repeat split; lia.
Qed.

Lemma stepped_by_nil (A : Z -> f4) (offset reminder z : Z) :
  stepped_by A offset reminder [] z = A z.
Proof.
  unfold stepped_by. cbn [existsb]. now rewrite andb_false_r.
Qed.

Lemma stepped_by_all (A : Z -> f4) (offset reminder : Z) (n : nat) (done : list nat) (z : Z) :
  0 < offset -> reminder <= Z.of_nat n ->
  (forall i, (i < n)%nat -> In i done) ->
  stepped_by A offset reminder done z = stepped A offset reminder z.
Proof.
  intros Hoff Hrem Hall. unfold stepped_by, stepped.
  destruct (0 <=? z) eqn:E0; [|reflexivity].
  destruct (z mod (offset * 4) =? 0) eqn:Em; [|reflexivity].
  destruct (z / (offset * 4) <? reminder) eqn:El; [|reflexivity].
  cbn [andb]. apply Z.leb_le in E0. apply Z.ltb_lt in El.
  pose proof (Z.div_pos z (offset * 4) E0 ltac:(lia)) as Hd.
  replace (existsb _ done) with true; [reflexivity|].
  symmetry. apply existsb_exists. exists (Z.to_nat (z / (offset * 4))).
  split; [apply Hall; lia | apply Z.eqb_eq; lia].
Qed.

Lemma stepped_by_skip (A : Z -> f4) (offset reminder : Z) (i : nat) (done : list nat)
    (z : Z) :
  reminder <= Z.of_nat i ->
  stepped_by A offset reminder (i :: done) z = stepped_by A offset reminder done z.
Proof.
  intros Hi. unfold stepped_by. cbn [existsb].
  destruct (z / (offset * 4) <? reminder) eqn:El.
  - apply Z.ltb_lt in El.
    now replace (Z.of_nat i =? z / (offset * 4)) with false
      by (symmetry; apply Z.eqb_neq; lia).
  - now rewrite !andb_false_r.
Qed.

Lemma stepped_by_next (A : Z -> f4) (offset reminder : Z) (i : nat) (done : list nat)
    (z : Z) :
  0 < offset -> Z.of_nat i < reminder -> ~ In i done ->
  upd (stepped_by A offset reminder done) (Z.of_nat i * (offset * 4))
      (step_sum (stepped_by A offset reminder done) offset (Z.of_nat i * (offset * 4))) z
  = stepped_by A offset reminder (i :: done) z.
Proof.
  intros Hoff Hi Hnot. unfold upd.
  set (k := Z.of_nat i) in *.
  assert (Hbase : forall c, 0 <= c < offset * 4 ->
            (k * (offset * 4) + c) mod (offset * 4) = c
            /\ (k * (offset * 4) + c) / (offset * 4) = k).
  { intros c Hc. rewrite Z.add_comm, Z.mod_add, Z.div_add by lia.
    rewrite Z.mod_small, Z.div_small by lia. lia. }
  assert (Hnone : existsb (fun j => Z.of_nat j =? k) done = false).
  { apply not_true_is_false. intros C. apply existsb_exists in C as (j & Hj & Ej).
    apply Z.eqb_eq in Ej. apply Hnot. subst k. apply Nat2Z.inj in Ej. now subst. }
  assert (Hblock : forall c, 0 <= c < offset * 4 ->
            stepped_by A offset reminder done (k * (offset * 4) + c)
            = A (k * (offset * 4) + c)).
  { intros c Hc. unfold stepped_by. destruct (Hbase c Hc) as [_ ->].
    now rewrite Hnone, andb_false_r. }
  destruct (Z.eqb_spec z (k * (offset * 4))) as [->|Hne].
  - unfold step_sum.
    rewrite !Hblock by lia.
    pose proof (Hblock 0 ltac:(lia)) as H0. rewrite Z.add_0_r in H0. rewrite H0.
    unfold stepped_by.
    destruct (Hbase 0 ltac:(lia)) as [Hm Hd]. rewrite Z.add_0_r in Hm, Hd.
    rewrite Hm, Hd. cbn [existsb]. fold k.
    replace (k =? k) with true by (symmetry; apply Z.eqb_refl).
    replace (0 <=? k * (offset * 4)) with true by (symmetry; apply Z.leb_le; nia).
    replace (k <? reminder) with true by (symmetry; apply Z.ltb_lt; lia).
    reflexivity.
  - unfold stepped_by. cbn [existsb].
    destruct (0 <=? z) eqn:E0; [|reflexivity].
    destruct (z mod (offset * 4) =? 0) eqn:Em; [|reflexivity].
    apply Z.leb_le in E0. apply Z.eqb_eq in Em.
    assert (z / (offset * 4) <> k).
    { intros <-. apply Hne. pose proof (Z.div_mod z (offset * 4) ltac:(lia)). lia. }
    fold k.
    now replace (k =? z / (offset * 4)) with false by (symmetry; apply Z.eqb_neq; lia).
Qed.

(** The lanes of [ids], in this order, in one step of the tree. *)
Lemma tree_step_lanes (L : Launch) (wg : int3) (batch : bool) (n : nat) (A : Z -> f4)
    (reminder offset : Z) (sts : list Store) :
  0 < int3_x wg -> 0 < offset -> 0 <= reminder ->
  reminder * (offset * 4) <= Z.of_nat n ->
  forall (ids done : list nat) (tr0 : list Access),
    NoDup (ids ++ done) ->
    exists tr,
      run_lanes L [SIfLt (IVar "local_id") (INum reminder)
                     [ SInt "t" (IMul (IVar "local_id") (INum (offset * 4)));
                       SFloat4 "sum" (VAccum (IAdd (IVar "t") (INum offset)));
                       SVAdd "sum" (VAccum (IAdd (IVar "t") (INum (offset * 2))));
                       SVAdd "sum" (VAccum (IAdd (IVar "t") (INum (offset * 3))));
                       SAccumAdd (IVar "t") (VVar "sum") ]]
        (map (lane_after batch L wg) ids)
        {| accum := cells_of n (stepped_by A offset reminder done);
           stores := sts; trace := tr0 |}
      = Some (map (lane_after batch L wg) ids,
              {| accum := cells_of n (stepped_by A offset reminder (rev ids ++ done));
                 stores := sts; trace := (tr ++ tr0)%list |})
      /\ Forall (in_block wg offset reminder) tr.
Proof.
  intros Hx Hoff Hrem Hn.
  induction ids as [|k ids IH]; intros done tr0 Hnd.
  - exists []. split; [reflexivity | constructor].
  - cbn [map run_lanes]. cbn [app] in Hnd. inversion Hnd as [|? ? Hk Hnd']; subst.
    rewrite (tree_step_lane L _ _ n (stepped_by A offset reminder done)
               reminder offset (Z.of_nat k));
      [| reflexivity | now apply lane_after_id | reflexivity | lia | lia | lia].
    cbn [stores trace lane_after mk_lane local_x local_y].
    assert (Hnd1 : NoDup (ids ++ k :: done)).
    { apply NoDup_Add with (a := k) (l := (ids ++ done)%list).
      - apply Add_app.
      - split; assumption. }
    cbn [rev]. rewrite <- app_assoc. cbn [app].
    destruct (Z.ltb_spec (Z.of_nat k) reminder) as [Hlt|Hge].
    + rewrite (cells_of_ext n _ (stepped_by A offset reminder (k :: done))).
      2:{ intros z _. apply stepped_by_next; [lia | lia |].
          intros C. apply Hk. apply in_or_app. now right. }
      destruct (IH (k :: done)
                  (step_accesses (Z.of_nat k mod int3_x wg, Z.of_nat k / int3_x wg)
                     offset (Z.of_nat k) ++ tr0)%list Hnd1) as (tr & E & Htr).
      fold (lane_after batch L wg k). rewrite E.
      exists (tr ++ step_accesses (Z.of_nat k mod int3_x wg, Z.of_nat k / int3_x wg)
                      offset (Z.of_nat k))%list.
      split.
      * now rewrite <- app_assoc.
      * apply Forall_app. split; [exact Htr|].
        apply step_accesses_in_block; lia.
    + rewrite (cells_of_ext n _ (stepped_by A offset reminder (k :: done)))
        by (intros z _; symmetry; now apply stepped_by_skip).
      destruct (IH (k :: done) tr0 Hnd1) as (tr & E & Htr).
      fold (lane_after batch L wg k). rewrite E.
      exists tr. split; [reflexivity | exact Htr].
Qed.

Lemma in_block_race_free (wg : int3) (offset reminder : Z) (tr : list Access) :
  0 < offset -> Forall (in_block wg offset reminder) tr -> race_free tr = true.
Proof.
  intros Hoff H. apply race_free_iff. intros w a Hw Ha _ Hc.
  rewrite Forall_forall in H.
  destruct (H w Hw) as (i & _ & -> & Hi). destruct (H a Ha) as (j & _ & -> & Hj).
  assert (i = j) by nia. now subst.
Qed.

Lemma in_block_in_bounds (wg : int3) (offset reminder N : Z) (tr : list Access) :
  0 < offset -> reminder * (offset * 4) <= N ->
  Forall (in_block wg offset reminder) tr -> in_bounds N tr = true.
Proof.
  intros Hoff HN H. apply in_bounds_iff. intros a Ha.
  rewrite Forall_forall in H. destruct (H a Ha) as (i & Hi & _ & Hc). nia.
Qed.

(** *** The tail *)

Lemma tail_stmts_values (offset reminder : Z) (k : nat) :
  forall i, (Z.to_nat (reminder - i) <= k)%nat ->
    tail_stmts i reminder offset
    = map (fun j => SVAdd "sum" (VAccum (INum (offset * j)))) (values i reminder 1).
Proof.
  induction k as [|k IH]; intros i Hk.
  - rewrite tail_stmts_done, values_done by lia. reflexivity.
  - destruct (Z_lt_dec i reminder) as [Hlt|Hge].
    + rewrite tail_stmts_step, values_step by lia. cbn [map]. now rewrite IH by lia.
    + rewrite tail_stmts_done, values_done by lia. reflexivity.
Qed.

Lemma tail_adds (L : Launch) (ln0 : Lane) (n : nat) (A : Z -> f4) (offset : Z)
    (rest : list stmt) (acc : list (option f4)) (sts : list Store) :
  returned ln0 = false -> acc = cells_of n A ->
  forall (js : list Z) (s : f4) (tr0 : list Access),
    Forall (fun j => 0 <= offset * j < Z.of_nat n) js ->
    exists tr,
      exec_block L (map (fun j => SVAdd "sum" (VAccum (INum (offset * j)))) js ++ rest)
        (declare_vec "sum" s ln0) {| accum := acc; stores := sts; trace := tr0 |}
      = exec_block L rest
          (declare_vec "sum" (fold_left (fun s j => FAdd s (A (offset * j))) js s) ln0)
          {| accum := acc; stores := sts; trace := (tr ++ tr0)%list |}
      /\ Forall (fun a => acc_write a = false /\ 0 <= acc_cell a < Z.of_nat n
                          /\ acc_lane a = (local_x ln0, local_y ln0)) tr.
Proof.
  intros Hr Hacc. induction js as [|j js IH]; intros s tr0 Hjs.
  - exists []. split; [reflexivity | constructor].
  - inversion Hjs as [|? ? Hj Hjs']; subst.
    cbn [map app]. rewrite exec_block_cons, exec_stmt_eq.
    cbn [returned declare_vec]. rewrite Hr.
    cbn [vecs lookup String.eqb Ascii.eqb Bool.eqb eval_vexp eval_iexp].
    rewrite (load_cells _ _ n A) by (reflexivity || lia).
    destruct (IH (FAdd s (A (offset * j)))
                ({| acc_lane := (local_x ln0, local_y ln0); acc_write := false;
                    acc_cell := offset * j |} :: tr0) Hjs') as (tr & E & Htr).
    exists (tr ++ [{| acc_lane := (local_x ln0, local_y ln0); acc_write := false;
                     acc_cell := offset * j |}])%list.
    split.
    + rewrite <- app_assoc. cbn [app fold_left]. exact E.
    + apply Forall_app. split; [exact Htr|]. repeat constructor; cbn; lia.
Qed.

(** One lane in the last phase. *)
Lemma tail_lane (L : Launch) (batch : bool) (wg : int3) (i n : nat) (A : Z -> f4)
    (offset reminder : Z) (q2 : Q) (sts : list Store) (tr0 : list Access) :
  lookup "inv_multiplier_2" (launch_args L) = Some q2 ->
  0 < offset -> (0 < n)%nat -> reminder * offset <= Z.of_nat n ->
  exists ln tr,
    exec_block L ([SFloat4 "sum" (VAccum (INum 0))]
                  ++ tail_stmts 1 reminder offset ++ epilogue)
      (lane_after batch L wg i)
      {| accum := cells_of n A; stores := sts; trace := tr0 |}
    = Some (ln, {| accum := cells_of n A;
                   stores := lane_store batch L wg
                               (FMul (tail_sum A offset reminder) q2) i :: sts;
                   trace := (tr ++ tr0)%list |})
    /\ Forall (fun a => acc_write a = false /\ 0 <= acc_cell a < Z.of_nat n
                        /\ acc_lane a = lane_of wg i) tr
    /\ tr <> [].
Proof.
  intros Hq Hoff Hn Hrem.
  set (ln0 := lane_after batch L wg i).
  cbn [app]. rewrite exec_block_cons, exec_stmt_eq.
  cbn [returned ln0 lane_after mk_lane eval_vexp eval_iexp]. fold ln0.
  rewrite (load_cells _ _ n A) by (reflexivity || lia).
  rewrite (tail_stmts_values offset reminder _ 1 (Nat.le_refl _)).
  destruct (tail_adds L ln0 n A offset epilogue (cells_of n A) sts eq_refl eq_refl
              (values 1 reminder 1) (A 0)
              ({| acc_lane := (local_x ln0, local_y ln0); acc_write := false;
                  acc_cell := 0 |} :: tr0)) as (tr & E & Htr).
  { apply Forall_forall. intros j Hj. apply values_In in Hj; [|lia]. nia. }
  unfold logged. cbn [accum stores trace]. rewrite E.
  unfold epilogue.
  rewrite exec_block_cons, exec_stmt_eq.
  cbn [returned declare_vec]. change (returned ln0) with false. cbn iota.
  cbn [declare_vec vecs lookup String.eqb Ascii.eqb Bool.eqb eval_vexp].
  rewrite Hq.
  rewrite exec_block_cons, exec_stmt_eq.
  cbn [returned declare_vec]. change (returned ln0) with false. cbn iota.
  cbn [declare_vec vecs ints lookup String.eqb Ascii.eqb Bool.eqb eval_iexp].
  change (ints ln0)
    with (lane_vars batch L wg (Z.of_nat i mod int3_x wg) (Z.of_nat i / int3_x wg)).
  destruct (lane_vars_lookup batch L wg (Z.of_nat i mod int3_x wg) (Z.of_nat i / int3_x wg))
    as (-> & _).
  cbn [exec_block accum stores trace local_x local_y dst_batch].
  eexists. exists (tr ++ [{| acc_lane := lane_of wg i; acc_write := false; acc_cell := 0 |}])%list.
  split; [|split].
  - rewrite <- app_assoc. reflexivity.
  - apply Forall_app. split; [exact Htr|]. repeat constructor; cbn; lia.
  - intros C. apply app_eq_nil in C as [_ C]. discriminate.
Qed.

(** The lanes of [ids], in this order, in the last phase. *)
Lemma tail_lanes (L : Launch) (batch : bool) (wg : int3) (n : nat) (A : Z -> f4)
    (offset reminder : Z) (q2 : Q) :
  lookup "inv_multiplier_2" (launch_args L) = Some q2 ->
  0 < offset -> (0 < n)%nat -> reminder * offset <= Z.of_nat n ->
  forall (ids : list nat) (sts : list Store) (tr0 : list Access),
    exists lanes tr,
      run_lanes L ([SFloat4 "sum" (VAccum (INum 0))]
                   ++ tail_stmts 1 reminder offset ++ epilogue)
        (map (lane_after batch L wg) ids)
        {| accum := cells_of n A; stores := sts; trace := tr0 |}
      = Some (lanes,
              {| accum := cells_of n A;
                 stores := (map (lane_store batch L wg
                                   (FMul (tail_sum A offset reminder) q2))
                                (rev ids) ++ sts)%list;
                 trace := (tr ++ tr0)%list |})
      /\ Forall (fun a => acc_write a = false /\ 0 <= acc_cell a < Z.of_nat n) tr
      /\ forall i, In i ids ->
           exists a, In a tr /\ acc_write a = false /\ acc_lane a = lane_of wg i.
Proof.
  intros Hq Hoff Hn Hrem.
  induction ids as [|k ids IH]; intros sts tr0.
  - exists [], []. repeat split; [constructor | intros i []].
  - cbn [map run_lanes].
    destruct (tail_lane L batch wg k n A offset reminder q2 sts tr0 Hq Hoff Hn Hrem)
      as (ln & tr1 & E1 & Htr1 & Hne).
    rewrite E1.
    destruct (IH (lane_store batch L wg (FMul (tail_sum A offset reminder) q2) k :: sts)
                (tr1 ++ tr0)%list) as (lanes & tr & E & Htr & Hall).
    rewrite E. exists (ln :: lanes), (tr ++ tr1)%list.
    split; [|split].
    + f_equal. f_equal. f_equal.
      * cbn [rev]. rewrite map_app, <- app_assoc. reflexivity.
      * now rewrite <- app_assoc.
    + apply Forall_app. split; [exact Htr|].
      eapply Forall_impl; [|exact Htr1]. cbn. tauto.
    + intros i [<-|Hi].
      * destruct tr1 as [|a tr1]; [contradiction|].
        inversion Htr1 as [|? ? (Hw & _ & Hl) _]; subst.
        exists a. split; [apply in_or_app; right; now left | tauto].
      * destruct (Hall i Hi) as (a & Ha & Hw).
        exists a. split; [apply in_or_app; now left | exact Hw].
Qed.

(** *** What the slots hold *)

Lemma slots_leaves_app (path : list Q) (P : nat -> f4) (from a b : nat)
    (rest : list (list Q * (option Z * Z * Z * Z))) :
  slots_leaves path P from (a + b) rest
  = slots_leaves path P from a (slots_leaves path P (from + a) b rest).
Proof.
  unfold slots_leaves. now rewrite seq_app, fold_right_app.
Qed.

Lemma holds_blocks_stepped (P : nat -> f4) (A : Z -> f4) (offset count reminder : Z) :
  0 < offset -> 0 <= reminder -> 4 * reminder <= count ->
  holds_blocks P A offset count ->
  holds_blocks P (stepped A offset reminder) (offset * 4) reminder.
Proof.
  intros Hoff Hrem Hcnt H j Hj path rest.
  unfold stepped.
  replace (0 <=? offset * 4 * j) with true by (symmetry; apply Z.leb_le; nia).
  rewrite Z.mul_comm, Z.mod_mul, Z.div_mul by lia. cbn [andb Z.eqb].
  replace (j <? reminder) with true by (symmetry; apply Z.ltb_lt; lia).
  unfold step_sum. cbn [leaves].
  replace (j * (offset * 4)) with (offset * (4 * j)) by lia.
  replace (offset * (4 * j) + offset) with (offset * (4 * j + 1)) by lia.
  replace (offset * (4 * j) + offset * 2) with (offset * (4 * j + 2)) by lia.
  replace (offset * (4 * j) + offset * 3) with (offset * (4 * j + 3)) by lia.
  rewrite !H by lia.
  replace (Z.to_nat (offset * 4))
    with (Z.to_nat offset + (Z.to_nat offset + (Z.to_nat offset + Z.to_nat offset)))%nat
    by lia.
  rewrite !slots_leaves_app.
  repeat f_equal; nia.
Qed.

Lemma leaves_fold_left (A : Z -> f4) (offset : Z) (path : list Q) (js : list Z) :
  forall (s : f4) (rest : list (list Q * (option Z * Z * Z * Z))),
    leaves path (fold_left (fun s j => FAdd s (A (offset * j))) js s) rest
    = leaves path s (fold_right (fun j r => leaves path (A (offset * j)) r) rest js).
Proof.
  induction js as [|j js IH]; intros s rest; [reflexivity|].
  cbn [fold_left fold_right]. now rewrite IH.
Qed.

Lemma blocks_from (P : nat -> f4) (A : Z -> f4) (offset count reminder : Z)
    (path : list Q) (rest : list (list Q * (option Z * Z * Z * Z))) (k : nat) :
  0 < offset -> reminder <= count -> holds_blocks P A offset count ->
  forall i, (Z.to_nat (reminder - i) <= k)%nat -> 0 <= i ->
    fold_right (fun j r => leaves path (A (offset * j)) r) rest (values i reminder 1)
    = slots_leaves path P (Z.to_nat (offset * i))
        (Z.to_nat ((Z.max i reminder - i) * offset)) rest.
Proof.
  intros Hoff Hcnt H. induction k as [|k IH]; intros i Hk Hi.
  - rewrite values_done by lia. replace (Z.max i reminder - i) with 0 by lia. reflexivity.
  - destruct (Z_lt_dec i reminder) as [Hlt|Hge].
    + rewrite values_step by lia. cbn [fold_right].
      rewrite IH, H by lia.
      replace (Z.to_nat ((Z.max i reminder - i) * offset))
        with (Z.to_nat offset + Z.to_nat ((Z.max (i + 1) reminder - (i + 1)) * offset))%nat
        by nia.
      rewrite slots_leaves_app. repeat f_equal. nia.
    + rewrite values_done by lia. replace (Z.max i reminder - i) with 0 by lia. reflexivity.
Qed.

Lemma tail_sum_leaves (P : nat -> f4) (A : Z -> f4) (offset count reminder : Z)
    (path : list Q) (rest : list (list Q * (option Z * Z * Z * Z))) :
  0 < offset -> reminder <= count -> 1 <= count -> holds_blocks P A offset count ->
  leaves path (tail_sum A offset reminder) rest
  = slots_leaves path P 0 (Z.to_nat (Z.max 1 reminder * offset)) rest.
Proof.
  intros Hoff Hcnt H1 H. unfold tail_sum. rewrite leaves_fold_left.
  rewrite (blocks_from P A offset count reminder path rest _ Hoff Hcnt H 1 (Nat.le_refl _))
    by lia.
  replace (A 0) with (A (offset * 0)) by (f_equal; lia).
  rewrite H by lia.
  replace (Z.to_nat (Z.max 1 reminder * offset))
    with (Z.to_nat offset + Z.to_nat ((Z.max 1 reminder - 1) * offset))%nat by nia.
  rewrite slots_leaves_app. repeat f_equal; lia.
Qed.

Lemma phases_no_barrier (a : list stmt) :
  forallb (fun s => negb (is_barrier s)) a = true -> phases a = [a].
Proof.
  induction a as [|s a IH]; intros Ha; [reflexivity|].
  cbn [forallb] in Ha. apply andb_true_iff in Ha as [Hs Ha].
  destruct s; try discriminate; cbn [phases]; now rewrite (IH Ha).
Qed.

Lemma reads_race_free (tr : list Access) :
  Forall (fun a => acc_write a = false) tr -> race_free tr = true.
Proof.
  intros H. apply race_free_iff. intros w a Hw _ Hwr.
  rewrite Forall_forall in H. rewrite (H w Hw) in Hwr. discriminate.
Qed.

(** The reduction from any state of the first loop on. *)
Lemma tree_runs (L : Launch) (batch : bool) (wg : int3) (q2 : Q) (P : nat -> f4) (n : nat)
    (ids : list nat) :
  0 < int3_x wg -> (0 < n)%nat ->
  lookup "inv_multiplier_2" (launch_args L) = Some q2 ->
  NoDup ids -> (forall i, In i ids <-> (i < n)%nat) ->
  forall (k : nat) (reminder offset count : Z) (A : Z -> f4),
    (Z.to_nat reminder <= k)%nat -> 0 <= reminder -> 0 < offset ->
    reminder * (offset * 4) <= Z.of_nat n -> offset <= Z.of_nat n ->
    4 * reminder <= count -> 1 <= count ->
    holds_blocks P A offset count ->
    exists lanes g traces v,
      run_phases L
        (phases (fst (tree_stmts reminder offset)
                 ++ [SFloat4 "sum" (VAccum (INum 0))]
                 ++ tail_stmts 1 (fst (snd (tree_stmts reminder offset)) * 4)
                               (snd (snd (tree_stmts reminder offset)))
                 ++ epilogue))
        (map (lane_after batch L wg) ids)
        {| accum := cells_of n A; stores := []; trace := [] |}
      = Some (lanes, g, traces)
      /\ stores g = map (lane_store batch L wg v) (rev ids)
      /\ leaves [] v []
         = slots_leaves [q2] P 0
             (Z.to_nat (Z.max 1 (fst (snd (tree_stmts reminder offset)) * 4)
                        * snd (snd (tree_stmts reminder offset)))) []
      /\ Forall (fun tr => race_free tr = true /\ in_bounds (Z.of_nat n) tr = true) traces
      /\ Forall (fun a => acc_write a = false) (last traces [])
      /\ (forall i, (i < n)%nat ->
            exists a, In a (last traces []) /\ acc_write a = false
                      /\ acc_lane a = lane_of wg i).
Proof.
  intros Hx Hn Hq Hnd Hids.
  assert (Hdone : forall (reminder offset count : Z) (A : Z -> f4),
            reminder < 8 -> 0 <= reminder -> 0 < offset ->
            reminder * (offset * 4) <= Z.of_nat n -> offset <= Z.of_nat n ->
            4 * reminder <= count -> 1 <= count ->
            holds_blocks P A offset count ->
            exists lanes g traces v,
              run_phases L
                (phases (fst (tree_stmts reminder offset)
                         ++ [SFloat4 "sum" (VAccum (INum 0))]
                         ++ tail_stmts 1 (fst (snd (tree_stmts reminder offset)) * 4)
                                       (snd (snd (tree_stmts reminder offset)))
                         ++ epilogue))
                (map (lane_after batch L wg) ids)
                {| accum := cells_of n A; stores := []; trace := [] |}
              = Some (lanes, g, traces)
              /\ stores g = map (lane_store batch L wg v) (rev ids)
              /\ leaves [] v []
                 = slots_leaves [q2] P 0
                     (Z.to_nat (Z.max 1 (fst (snd (tree_stmts reminder offset)) * 4)
                                * snd (snd (tree_stmts reminder offset)))) []
              /\ Forall (fun tr => race_free tr = true
                                   /\ in_bounds (Z.of_nat n) tr = true) traces
              /\ Forall (fun a => acc_write a = false) (last traces [])
              /\ (forall i, (i < n)%nat ->
                    exists a, In a (last traces []) /\ acc_write a = false
                              /\ acc_lane a = lane_of wg i)).
  { intros reminder offset count A Hlt Hrem Hoff Hfit Hoffn Hcnt H1 HA.
    rewrite tree_stmts_done by lia. cbn [fst snd app].
    rewrite phases_no_barrier.
    2:{ cbn [forallb is_barrier negb andb].
        rewrite forallb_app, (tail_stmts_values _ _ _ 1 (Nat.le_refl _)).
        apply andb_true_iff. split; [|reflexivity].
        apply forallb_forall. intros s Hs. now apply in_map_iff in Hs as (j & <- & _). }
    cbn [run_phases].
    destruct (tail_lanes L batch wg n A offset (reminder * 4) q2 Hq Hoff Hn ltac:(lia)
                ids [] []) as (lanes & tr & E & Htr & Hall).
    change (SFloat4 "sum" (VAccum (INum 0))
            :: (tail_stmts 1 (reminder * 4) offset ++ epilogue)%list)
      with ([SFloat4 "sum" (VAccum (INum 0))]
            ++ tail_stmts 1 (reminder * 4) offset ++ epilogue)%list.
    rewrite E. rewrite !app_nil_r.
    do 4 eexists. split; [reflexivity|]. cbn [stores trace last].
    split; [reflexivity|]. split.
    { cbn [leaves].
      apply (tail_sum_leaves P A offset count); (assumption || lia). }
    assert (Hreads : Forall (fun a => acc_write a = false) tr)
      by (eapply Forall_impl; [|exact Htr]; cbn; tauto).
    split.
    { constructor; [|constructor]. split; [now apply reads_race_free|].
      apply in_bounds_iff. intros a Ha. rewrite Forall_forall in Htr.
      now apply Htr. }
    split; [exact Hreads|].
    intros i Hi. now apply Hall, Hids. }
  induction k as [|k IH]; intros reminder offset count A Hk Hrem Hoff Hfit Hoffn Hcnt H1 HA.
  - apply (Hdone reminder offset count A); (assumption || lia).
  - destruct (Z_ge_dec reminder 8) as [Hge|Hlt].
    2:{ apply (Hdone reminder offset count A); (assumption || lia). }
    (* one step, then the rest *)
    rewrite tree_stmts_step by assumption. cbn [fst snd].
    unfold tree_step. rewrite <- app_assoc. cbn [app].
    change (SIfLt ?a ?b ?body :: SBarrier :: ?rest)
      with ([SIfLt a b body] ++ SBarrier :: rest)%list.
    rewrite phases_app_barrier by reflexivity.
    cbn [run_phases].
    destruct (tree_step_lanes L wg batch n A reminder offset [] Hx Hoff Hrem Hfit ids [] [])
      as (tr & E & Htr).
    { now rewrite app_nil_r. }
    rewrite (cells_of_ext n A (stepped_by A offset reminder []))
      by (intros z _; symmetry; apply stepped_by_nil).
    rewrite E, lanes_after_uniform.
    rewrite (cells_of_ext n _ (stepped A offset reminder)).
    2:{ intros z _. apply (stepped_by_all A offset reminder n); [lia | nia |].
        intros i Hi. rewrite app_nil_r, <- in_rev. now apply Hids. }
    replace (match phases _ with [] => true | _ :: _ => true end) with true
      by (now destruct (phases _)).
    unfold clear_trace. cbn [accum stores trace]. rewrite app_nil_r.
    assert (Hq4 : reminder ÷ 4 = reminder / 4) by (apply Z.quot_div_nonneg; lia).
    assert (Hdiv : 4 * (reminder / 4) <= reminder)
      by (pose proof (Z.mul_div_le reminder 4 ltac:(lia)); lia).
    assert (Hdpos : 0 <= reminder / 4) by (apply Z.div_pos; lia).
    assert (Hdlt : reminder / 4 < reminder) by (apply Z.div_lt; lia).
    destruct (IH (reminder ÷ 4) (offset * 4) reminder (stepped A offset reminder))
      as (lanes & g & traces & v & Erun & Hst & Hlv & Htrs & Hlast & Hall);
      try solve [rewrite ?Hq4; nia].
    { apply (holds_blocks_stepped P A offset count); (assumption || lia). }
    cbn [app] in Erun. rewrite Erun.
    exists lanes, g, (tr :: traces), v.
    split; [reflexivity|]. split; [exact Hst|]. split; [exact Hlv|].
    split.
    { constructor; [|exact Htrs]. split.
      - now apply (in_block_race_free wg offset reminder).
      - now apply (in_block_in_bounds wg offset reminder). }
    assert (Hne : traces <> []).
    { pose proof (run_phases_length _ _ _ _ _ _ _ Erun) as Hlen. intros ->.
      symmetry in Hlen. apply length_zero_iff_nil in Hlen.
      now apply phases_nonempty in Hlen. }
    destruct traces as [|t0 traces]; [contradiction|].
    split; [exact Hlast | exact Hall].
Qed.

Lemma tree_stmts_exit (fuel : nat) :
  forall reminder offset,
    (Z.to_nat reminder <= fuel)%nat -> 0 <= reminder -> 0 < offset ->
    exists k : nat,
      snd (tree_stmts reminder offset)
      = (reminder / 4 ^ Z.of_nat k, offset * 4 ^ Z.of_nat k)
      /\ reminder / 4 ^ Z.of_nat k < 8
      /\ (forall j : nat, (j < k)%nat -> 8 <= reminder / 4 ^ Z.of_nat j)
      /\ List.length (filter is_barrier (fst (tree_stmts reminder offset))) = k.
Proof.
  induction fuel as [|fuel IH]; intros reminder offset Hf Hr Ho.
  - exists 0%nat. rewrite tree_stmts_done by lia. cbn [snd fst Z.of_nat Z.pow filter List.length].
    rewrite Z.div_1_r, Z.mul_1_r. repeat split; [lia | intros j Hj; lia].
  - destruct (Z_ge_dec reminder 8) as [Hge|Hlt].
    + assert (Hq4 : reminder ÷ 4 = reminder / 4) by (apply Z.quot_div_nonneg; lia).
      assert (Hdpos : 0 <= reminder / 4) by (apply Z.div_pos; lia).
      assert (Hdlt : reminder / 4 < reminder) by (apply Z.div_lt; lia).
      destruct (IH (reminder ÷ 4) (offset * 4)) as (k & E & Hlt8 & Hall & Hlen);
        try (rewrite ?Hq4; lia).
      exists (S k). rewrite tree_stmts_step by assumption. cbn [fst snd].
      rewrite E, Hq4 in *.
      assert (Hpow : 4 ^ Z.of_nat (S k) = 4 * 4 ^ Z.of_nat k).
      { rewrite Nat2Z.inj_succ, Z.pow_succ_r by lia. reflexivity. }
      assert (Hpp : 0 < 4 ^ Z.of_nat k) by (apply Z.pow_pos_nonneg; lia).
      rewrite Hpow, <- Z.div_div by lia.
      split; [f_equal; lia|]. split; [exact Hlt8|]. split.
      * intros [|j] Hj.
        -- cbn. rewrite Z.div_1_r. lia.
        -- rewrite Nat2Z.inj_succ, Z.pow_succ_r, <- Z.div_div by lia.
           apply Hall. lia.
      * unfold tree_step. cbn [app filter is_barrier List.length]. now rewrite Hlen.
    + exists 0%nat. rewrite tree_stmts_done by lia.
      cbn [snd fst Z.of_nat Z.pow filter List.length].
      rewrite Z.div_1_r, Z.mul_1_r. repeat split; [lia | intros j Hj; lia].
Qed.

(** The leaves of the scaled partial sums of the first lanes. *)
Lemma slots_leaves_cells (batch : bool) (L : Launch) (wg : int3) (q1 q2 : Q) (count : nat) :
  slots_leaves [q2] (fun i => FMul (lane_sum batch L wg i) q1) 0 count []
  = map (fun c => ([q1; q2], (batch_index batch L, fst c, snd c, slice_index batch L)))
        (cells_of_lanes L wg count).
Proof.
  unfold slots_leaves, cells_of_lanes. rewrite map_flat_map.
  induction (seq 0 count) as [|i l IH]; [reflexivity|].
  cbn [fold_right flat_map]. rewrite IH. cbn [leaves].
  unfold lane_sum, partial_sum. rewrite leaves_fold. reflexivity.
Qed.

Lemma filled_nil (n : nat) (P : nat -> f4) : filled n P [] = repeat None n.
Proof.
  unfold filled. cbn [existsb]. generalize 0%nat.
  induction n as [|n IH]; intros s; [reflexivity|].
  cbn [seq map repeat]. now rewrite IH.
Qed.

Lemma filled_all (n : nat) (P : nat -> f4) (done : list nat) :
  (forall i, (i < n)%nat -> In i done) ->
  filled n P done = map (fun i => Some (P i)) (seq 0 n).
Proof.
  intros Hall. unfold filled. apply map_ext_in. intros j Hj. apply in_seq in Hj.
  replace (existsb (Nat.eqb j) done) with true; [reflexivity|].
  symmetry. apply existsb_exists. exists j. split; [apply Hall; lia | apply Nat.eqb_refl].
Qed.

Lemma filled_set (n : nat) (P : nat -> f4) (done : list nat) (i : nat) :
  (i < n)%nat ->
  set_nth i (Some (P i)) (filled n P done) = filled n P (i :: done).
Proof.
  intros Hi. unfold filled. rewrite set_nth_map_seq by assumption.
  apply map_ext. intros j. cbn [Nat.add existsb].
  destruct (Nat.eqb_spec j i) as [->|Hne]; [reflexivity | reflexivity].
Qed.

Lemma filled_length (n : nat) (P : nat -> f4) (done : list nat) :
  List.length (filled n P done) = n.
Proof.
  unfold filled. now rewrite length_map, length_seq.
Qed.

(** The first phase with the lanes in any order. *)
Lemma group_phase0_any (L : Launch) (wg : int3) (batch : bool) (q1 : Q) :
  0 < int3_x wg -> 0 < int3_y wg ->
  (batch = true -> Batch (launch_dst L) <> 0) ->
  slice_index batch L < Slices (launch_dst L) ->
  lookup "inv_multiplier_1" (launch_args L) = Some q1 ->
  forall (ids done : list nat) (sts : list Store) (tr0 : list Access),
    (forall i, In i ids -> (i < group_size wg)%nat) ->
    exists tr,
      run_lanes L (prologue batch wg ++ per_lane wg)
        (map (fun i => start_lane (Z.of_nat i mod int3_x wg) (Z.of_nat i / int3_x wg)) ids)
        {| accum := filled (group_size wg)
                           (fun i => FMul (lane_sum batch L wg i) q1) done;
           stores := sts; trace := tr0 |}
      = Some (map (lane_after batch L wg) ids,
              {| accum := filled (group_size wg)
                                 (fun i => FMul (lane_sum batch L wg i) q1)
                                 (rev ids ++ done);
                 stores := sts; trace := (tr ++ tr0)%list |})
      /\ forallb (own_cell wg) tr = true.
Proof.
  intros Hx Hy Hb Hs Hq.
  induction ids as [|k ids IH]; intros done sts tr0 Hids.
  - exists []. split; reflexivity.
  - cbn [map run_lanes].
    destruct (lane_phase0 L wg batch q1 k
                {| accum := filled (group_size wg)
                                   (fun i => FMul (lane_sum batch L wg i) q1) done;
                   stores := sts; trace := tr0 |}
                Hx Hy Hb Hs Hq) as (tr1 & E1 & Htr1).
    { cbn [accum]. now rewrite filled_length. }
    { apply Hids. now left. }
    rewrite E1. unfold with_cell. cbn [accum stores trace].
    rewrite (filled_set _ (fun i => FMul (lane_sum batch L wg i) q1))
      by (apply Hids; now left).
    destruct (IH (k :: done) sts (tr1 ++ tr0)%list) as (tr & E & Htr).
    { intros i Hi. apply Hids. now right. }
    rewrite E. exists (tr ++ tr1)%list. split.
    + cbn [rev]. rewrite <- !app_assoc. reflexivity.
    + rewrite forallb_app, Htr, Htr1. reflexivity.
Qed.

(** The kernel of any work-group with positive sizes, its lanes running in
    any order. *)
Lemma any_kernel_runs_in (batch : bool) (wg : int3) (L : Launch) (q1 q2 : Q)
    (order : list nat) :
  0 < int3_x wg -> 0 < int3_y wg ->
  lookup "inv_multiplier_1" (launch_args L) = Some q1 ->
  lookup "inv_multiplier_2" (launch_args L) = Some q2 ->
  (batch = true -> Batch (launch_dst L) <> 0) ->
  slice_index batch L < Slices (launch_dst L) ->
  NoDup order -> (forall i, In i order <-> (i < group_size wg)%nat) ->
  exists lanes g tr0 traces v,
    run_kernel_in order L wg (kernel_body batch wg) = Some (lanes, g, tr0 :: traces)
    /\ forallb (own_cell wg) tr0 = true
    /\ stores g = map (lane_store batch L wg v) (rev order)
    /\ leaves [] v []
       = map (fun c => ([q1; q2], (batch_index batch L, fst c, snd c, slice_index batch L)))
             (cells_of_lanes L wg (Z.to_nat (summed_slots wg)))
    /\ Forall (fun tr => race_free tr = true
                         /\ in_bounds (int3_x wg * int3_y wg) tr = true) traces
    /\ Forall (fun a => acc_write a = false) (last traces [])
    /\ (forall i, (i < group_size wg)%nat ->
          exists a, In a (last traces []) /\ acc_write a = false
                    /\ acc_lane a = lane_of wg i).
Proof.
  intros Hx Hy Hq1 Hq2 Hb Hs Hnd Hord.
  assert (HN : 0 < int3_x wg * int3_y wg) by nia.
  unfold run_kernel_in. rewrite phases_body, local_size_body. cbn [run_phases].
  set (P := fun i => FMul (lane_sum batch L wg i) q1).
  set (n := group_size wg).
  fold (group_size wg). fold n. rewrite <- (filled_nil n P).
  destruct (group_phase0_any L wg batch q1 Hx Hy Hb Hs Hq1 order [] [] [])
    as (tr0 & E0 & Htr0).
  { intros i Hi. now apply Hord. }
  fold P n in E0. rewrite E0.
  rewrite lanes_after_uniform.
  replace (match phases (reduction wg ++ epilogue) with [] => true | _ :: _ => true end)
    with true by (now destruct (phases (reduction wg ++ epilogue))).
  unfold clear_trace. cbn [accum stores trace].
  rewrite (filled_all n P) by (intros i Hi; rewrite app_nil_r, <- in_rev; now apply Hord).
  assert (Hn : Z.of_nat n = int3_x wg * int3_y wg) by (subst n; unfold group_size; lia).
  assert (Hq4 : int3_x wg * int3_y wg ÷ 4 = int3_x wg * int3_y wg / 4)
    by (apply Z.quot_div_nonneg; lia).
  pose proof (Z.mul_div_le (int3_x wg * int3_y wg) 4 ltac:(lia)) as Hdiv.
  pose proof (Z.div_pos (int3_x wg * int3_y wg) 4 ltac:(lia) ltac:(lia)) as Hdpos.
  destruct (tree_runs L batch wg q2 P n order Hx ltac:(lia) Hq2 Hnd Hord
              (Z.to_nat (int3_x wg * int3_y wg ÷ 4)) (int3_x wg * int3_y wg ÷ 4) 1
              (Z.of_nat n) (fun z => P (Z.to_nat z)))
    as (lanes & g & traces & v & Erun & Hst & Hlv & Htrs & Hlast & Hall);
    try solve [rewrite ?Hq4; lia].
  { intros j Hj path rest. unfold slots_leaves. cbn [Z.to_nat Pos.to_nat Pos.iter_op seq fold_right].
    reflexivity. }
  replace (map (fun i => Some (P i)) (seq 0 n))
    with (cells_of n (fun z => P (Z.to_nat z))).
  2:{ unfold cells_of. apply map_ext. intros i. now rewrite Nat2Z.id. }
  rewrite app_nil_r.
  unfold reduction.
  destruct (tree_stmts (int3_x wg * int3_y wg ÷ 4) 1) as [steps [reminder offset]] eqn:Et.
  cbn [fst snd] in *. rewrite <- !app_assoc. rewrite Erun.
  exists lanes, g, tr0, traces, v.
  split; [reflexivity|]. split; [exact Htr0|]. split; [exact Hst|].
  split.
  { rewrite Hlv. unfold summed_slots. rewrite Et. apply slots_leaves_cells. }
  rewrite <- Hn. auto.
Qed.

(** The kernel of any work-group with positive sizes. *)
Lemma any_kernel_runs (batch : bool) (wg : int3) (L : Launch) (q1 q2 : Q) :
  0 < int3_x wg -> 0 < int3_y wg ->
  lookup "inv_multiplier_1" (launch_args L) = Some q1 ->
  lookup "inv_multiplier_2" (launch_args L) = Some q2 ->
  (batch = true -> Batch (launch_dst L) <> 0) ->
  slice_index batch L < Slices (launch_dst L) ->
  exists lanes g tr0 traces v,
    run_kernel L wg (kernel_body batch wg) = Some (lanes, g, tr0 :: traces)
    /\ forallb (own_cell wg) tr0 = true
    /\ stores g = map (lane_store batch L wg v) (rev (seq 0 (group_size wg)))
    /\ leaves [] v []
       = map (fun c => ([q1; q2], (batch_index batch L, fst c, snd c, slice_index batch L)))
             (cells_of_lanes L wg (Z.to_nat (summed_slots wg)))
    /\ Forall (fun tr => race_free tr = true
                         /\ in_bounds (int3_x wg * int3_y wg) tr = true) traces
    /\ Forall (fun a => acc_write a = false) (last traces [])
    /\ (forall i, (i < group_size wg)%nat ->
          exists a, In a (last traces []) /\ acc_write a = false
                    /\ acc_lane a = lane_of wg i).
Proof.
  intros Hx Hy Hq1 Hq2 Hb Hs.
  apply (any_kernel_runs_in batch wg L q1 q2 (seq 0 (group_size wg)));
    try assumption.
  - apply seq_NoDup.
  - intros i. rewrite in_seq. lia.
Qed.

(** X10: for any work-group size with [wx, wy > 0], [wz = 1] and
    [wx * wy] in the range of [int], not only those of the planner, the
    kernel that [GetMeanKernelCode] returns runs to its end with one trace
    for each phase; every access to [accum] is within [0, wx * wy); a cell
    written by a lane in a phase is touched by no other lane in that phase;
    and the last phase only reads [accum], every lane reading there. *)
Theorem any_work_group_runs_without_conflict (G : CalculationsPrecision -> string)
    (args_ : list ArgDecl) (op_def : OperationDef) (src0 dst0 : TensorDescriptor)
    (wg : int3) (L : Launch) (q1 q2 : Q) :
  nth_error (src_tensors op_def) 0 = Some src0 ->
  nth_error (dst_tensors op_def) 0 = Some dst0 ->
  0 < int3_x wg -> 0 < int3_y wg -> int3_z wg = 1 ->
  in_int (int3_x wg * int3_y wg) ->
  lookup "inv_multiplier_1" (launch_args L) = Some q1 ->
  lookup "inv_multiplier_2" (launch_args L) = Some q2 ->
  (HasAxis dst0 BATCH = true -> Batch (launch_dst L) <> 0) ->
  (if HasAxis dst0 BATCH then launch_z L ÷ Batch (launch_dst L) else launch_z L)
  < Slices (launch_dst L) ->
  exists args' body lanes g traces,
    GetMeanKernelCode G args_ op_def wg
    = Some (args', G (precision op_def) ++ kernel_text body)
    /\ MeanKernel op_def wg = Some body
    /\ run_kernel L wg body = Some (lanes, g, traces)
    /\ List.length traces = List.length (phases body)
    /\ (forall tr a, In tr traces -> In a tr ->
          0 <= acc_cell a < int3_x wg * int3_y wg)
    /\ (forall tr w a, In tr traces -> In w tr -> In a tr ->
          acc_write w = true -> acc_cell w = acc_cell a -> acc_lane w = acc_lane a)
    /\ (forall a, In a (last traces []) -> acc_write a = false)
    /\ (forall lx ly, 0 <= lx < int3_x wg -> 0 <= ly < int3_y wg ->
          exists a, In a (last traces []) /\ acc_lane a = (lx, ly)).
Proof.
  intros Hs0 Hd0 Hx Hy _ _ Hq1 Hq2 Hb Hs.
  destruct (generated_kernel G args_ op_def wg src0 dst0 Hs0 Hd0) as [Hg Hk].
  set (batch := HasAxis dst0 BATCH) in *.
  destruct (any_kernel_runs batch wg L q1 q2 Hx Hy Hq1 Hq2 Hb Hs)
    as (lanes & g & tr0 & traces & v & Erun & Htr0 & _ & _ & Htrs & Hlast & Hall).
  assert (Hne : traces <> []).
  { pose proof (run_phases_length _ _ _ _ _ _ _ Erun) as Hlen. intros ->.
    rewrite phases_body in Hlen. cbn [List.length] in Hlen.
    injection Hlen as Hlen. symmetry in Hlen. apply length_zero_iff_nil in Hlen.
    now apply phases_nonempty in Hlen. }
  assert (El : last (tr0 :: traces) [] = last traces []).
  { destruct traces; [contradiction | reflexivity]. }
  exists (args_ ++ [SrcTensorArg "src_tensor" src0; DstTensorArg "dst_tensor" dst0;
                    FloatArg "inv_multiplier_1"; FloatArg "inv_multiplier_2"])%list,
         (kernel_body batch wg), lanes, g, (tr0 :: traces).
  split; [exact Hg|]. split; [exact Hk|]. split; [exact Erun|].
  split; [exact (run_phases_length _ _ _ _ _ _ _ Erun)|].
  rewrite Forall_forall in Htrs.
  split; [|split; [|split]].
  - intros tr a [<-|Htr] Ha.
    + now apply (proj1 (in_bounds_iff _ _) (own_cells_in_bounds wg tr0 Htr0)).
    + now apply (proj1 (in_bounds_iff _ _) (proj2 (Htrs tr Htr))).
  - intros tr w a [<-|Htr] Hw Ha.
    + now apply (proj1 (race_free_iff _) (own_cells_race_free wg tr0 Htr0)).
    + now apply (proj1 (race_free_iff _) (proj1 (Htrs tr Htr))).
  - rewrite El. now apply Forall_forall.
  - intros lx ly Hlx Hly. rewrite El.
    pose proof (proj2 (lane_of_In wg lx ly Hx Hy) (conj Hlx Hly)) as Hin.
    apply in_map_iff in Hin as (i & Ei & Hi). apply in_seq in Hi.
    destruct (Hall i ltac:(lia)) as (a & Ha & _ & Hl).
    exists a. split; [exact Ha | congruence].
Qed.

Lemma any_work_group_runs_without_conflict_witness :
  exists args' body lanes g traces,
    GetMeanKernelCode no_defines [] (sample_def true) six_by_six
    = Some (args', no_defines F32 ++ kernel_text body)
    /\ MeanKernel (sample_def true) six_by_six = Some body
    /\ run_kernel sample_launch six_by_six body = Some (lanes, g, traces)
    /\ List.length traces = 3%nat.
Proof.
  destruct (any_work_group_runs_without_conflict no_defines [] (sample_def true) _ _
              six_by_six sample_launch (32 # 15) (1 # 32)
              eq_refl eq_refl eq_refl eq_refl eq_refl
              ltac:(unfold in_int, int_min, int_max; cbn; lia)
              eq_refl eq_refl ltac:(discriminate) eq_refl)
    as (args' & body & lanes & g & traces & Hg & Hk & Hr & Hl & _).
  exists args', body, lanes, g, traces.
  split; [exact Hg|]. split; [exact Hk|]. split; [exact Hr|].
  rewrite Hl. injection Hk as <-. reflexivity.
Defined.

(** X9: in the kernel that [GetMeanKernelCode] returns for a work-group
    size with [wx, wy > 0], [wz = 1] and [wx * wy] in the range of [int],
    in the run of a work-group whose slice is in range every lane
    [(lx, ly)] with [lx < wx] and [ly < wy] stores exactly once; all stores
    carry the same value and go to [(0, 0, S)] of the batch of the
    group. *)
Theorem every_lane_stores_once (G : CalculationsPrecision -> string)
    (args_ : list ArgDecl) (op_def : OperationDef) (src0 dst0 : TensorDescriptor)
    (wg : int3) (L : Launch) (q1 q2 : Q) :
  nth_error (src_tensors op_def) 0 = Some src0 ->
  nth_error (dst_tensors op_def) 0 = Some dst0 ->
  0 < int3_x wg -> 0 < int3_y wg -> int3_z wg = 1 ->
  in_int (int3_x wg * int3_y wg) ->
  lookup "inv_multiplier_1" (launch_args L) = Some q1 ->
  lookup "inv_multiplier_2" (launch_args L) = Some q2 ->
  (HasAxis dst0 BATCH = true -> Batch (launch_dst L) <> 0) ->
  (if HasAxis dst0 BATCH then launch_z L ÷ Batch (launch_dst L) else launch_z L)
  < Slices (launch_dst L) ->
  exists args' body lanes g traces v,
    GetMeanKernelCode G args_ op_def wg
    = Some (args', G (precision op_def) ++ kernel_text body)
    /\ MeanKernel op_def wg = Some body
    /\ run_kernel L wg body = Some (lanes, g, traces)
    /\ Forall (fun s =>
                 st_x s = 0 /\ st_y s = 0
                 /\ st_s s = (if HasAxis dst0 BATCH then launch_z L ÷ Batch (launch_dst L)
                              else launch_z L)
                 /\ st_batch s = (if HasAxis dst0 BATCH
                                  then Some (Z.rem (launch_z L) (Batch (launch_dst L)))
                                  else None)
                 /\ st_value s = v)
              (stores g)
    /\ NoDup (map st_lane (stores g))
    /\ forall lx ly,
         In (lx, ly) (map st_lane (stores g))
         <-> 0 <= lx < int3_x wg /\ 0 <= ly < int3_y wg.
Proof.
  intros Hs0 Hd0 Hx Hy _ _ Hq1 Hq2 Hb Hs.
  destruct (generated_kernel G args_ op_def wg src0 dst0 Hs0 Hd0) as [Hg Hk].
  set (batch := HasAxis dst0 BATCH) in *.
  destruct (any_kernel_runs batch wg L q1 q2 Hx Hy Hq1 Hq2 Hb Hs)
    as (lanes & g & tr0 & traces & v & Erun & _ & Hst & _).
  exists (args_ ++ [SrcTensorArg "src_tensor" src0; DstTensorArg "dst_tensor" dst0;
                    FloatArg "inv_multiplier_1"; FloatArg "inv_multiplier_2"])%list,
         (kernel_body batch wg), lanes, g, (tr0 :: traces), v.
  split; [exact Hg|]. split; [exact Hk|]. split; [exact Erun|].
  assert (Hlanes : map st_lane (stores g) = map (lane_of wg) (rev (seq 0 (group_size wg)))).
  { rewrite Hst, map_map. reflexivity. }
  split; [|split].
  - rewrite Hst. apply Forall_forall. intros s Hin.
    apply in_map_iff in Hin as (i & <- & _).
    unfold lane_store, batch_index, slice_index. cbn [st_x st_y st_s st_batch st_value].
    now destruct batch.
  - rewrite Hlanes. apply Finite.Injective_map_NoDup_in.
    + intros i j _ _. now apply lane_of_inj.
    + apply NoDup_rev, seq_NoDup.
  - intros lx ly. rewrite Hlanes, map_rev, <- in_rev. now apply lane_of_In.
Qed.

Lemma every_lane_stores_once_witness :
  exists args' body lanes g traces,
    GetMeanKernelCode no_defines [] (sample_def true) six_by_six
    = Some (args', no_defines F32 ++ kernel_text body)
    /\ run_kernel sample_launch six_by_six body = Some (lanes, g, traces)
    /\ NoDup (map st_lane (stores g)).
Proof.
  destruct (every_lane_stores_once no_defines [] (sample_def true) _ _ six_by_six
              sample_launch (32 # 15) (1 # 32)
              eq_refl eq_refl eq_refl eq_refl eq_refl
              ltac:(unfold in_int, int_min, int_max; cbn; lia)
              eq_refl eq_refl ltac:(discriminate) eq_refl)
    as (args' & body & lanes & g & traces & v & Hg & _ & Hr & _ & Hnd & _).
  exists args', body, lanes, g, traces. repeat split; assumption.
Defined.

Lemma cells_of_lanes_In (L : Launch) (wg : int3) (count : nat) (x y : Z) :
  0 < int3_x wg -> 0 < int3_y wg -> (count <= group_size wg)%nat ->
  (In (x, y) (cells_of_lanes L wg count)
   <-> (0 <= x < Width (launch_src L) /\ 0 <= y < Height (launch_src L))
       /\ y mod int3_y wg * int3_x wg + x mod int3_x wg < Z.of_nat count).
Proof.
  intros Hx Hy Hc. unfold cells_of_lanes. rewrite in_flat_map. split.
  - intros (i & Hi & Hin). apply in_seq in Hi.
    apply lane_cells_mod in Hin; [|assumption|assumption|lia].
    destruct (lane_index wg i Hx Hy ltac:(unfold group_size in Hc; lia)) as (E & _ & _).
    cbn [lane_of fst snd] in Hin. destruct Hin as ((Hxr & Hxm) & (Hyr & Hym)).
    split; [tauto|]. rewrite Hxm, Hym. lia.
  - intros ((Hxr & Hyr) & Hlt).
    pose proof (Z.mod_pos_bound x (int3_x wg) Hx) as Hlx.
    pose proof (Z.mod_pos_bound y (int3_y wg) Hy) as Hly.
    exists (Z.to_nat (y mod int3_y wg * int3_x wg + x mod int3_x wg)).
    assert (0 <= y mod int3_y wg * int3_x wg + x mod int3_x wg) by nia.
    split; [apply in_seq; lia|].
    apply lane_cells_mod; [assumption | assumption | lia |].
    unfold lane_of. cbn [fst snd]. rewrite Z2Nat.id by lia.
    set (lx := x mod int3_x wg) in *. set (ly := y mod int3_y wg) in *.
    assert (Em : (ly * int3_x wg + lx) mod int3_x wg = lx)
      by (rewrite Z.add_comm, Z.mod_add, Z.mod_small; lia).
    assert (Ed : (ly * int3_x wg + lx) / int3_x wg = ly)
      by (rewrite Z.add_comm, Z.div_add, Z.div_small; lia).
    rewrite Em, Ed. tauto.
Qed.

Lemma cells_of_lanes_NoDup (L : Launch) (wg : int3) (count : nat) :
  0 < int3_x wg -> 0 < int3_y wg -> (count <= group_size wg)%nat ->
  NoDup (cells_of_lanes L wg count).
Proof.
  intros Hx Hy Hc. unfold cells_of_lanes. apply NoDup_flat_map.
  - apply seq_NoDup.
  - intros i _. now apply lane_cells_NoDup.
  - intros i j [x y] Hi Hj Hci Hcj. apply in_seq in Hi, Hj.
    apply lane_cells_mod in Hci; [|assumption|assumption|lia].
    apply lane_cells_mod in Hcj; [|assumption|assumption|lia].
    apply (lane_of_inj wg); [assumption|].
    destruct (lane_of wg i), (lane_of wg j). cbn [fst snd] in *. f_equal; lia.
Qed.

Lemma summed_slots_bounds (wg : int3) :
  0 < int3_x wg * int3_y wg ->
  1 <= summed_slots wg <= int3_x wg * int3_y wg.
Proof.
  intros HN. unfold summed_slots.
  set (N := int3_x wg * int3_y wg) in *.
  assert (Hq4 : N ÷ 4 = N / 4) by (apply Z.quot_div_nonneg; lia).
  pose proof (Z.div_pos N 4 ltac:(lia) ltac:(lia)) as Hdpos.
  destruct (tree_stmts_exit (Z.to_nat (N ÷ 4)) (N ÷ 4) 1 (Nat.le_refl _)) as (k & E & Hlt & Hall & _);
    try (rewrite ?Hq4; lia).
  rewrite Z.mul_1_l in E.
  destruct (tree_stmts (N ÷ 4) 1) as [steps [reminder offset]].
  cbn [snd] in E. injection E as -> ->. rewrite Hq4 in *.
  assert (Hpp : 0 < 4 ^ Z.of_nat k) by (apply Z.pow_pos_nonneg; lia).
  pose proof (Z.mul_div_le (N / 4) (4 ^ Z.of_nat k) Hpp) as H1.
  pose proof (Z.mul_div_le N 4 ltac:(lia)) as H2.
  pose proof (Z.div_pos (N / 4) (4 ^ Z.of_nat k) ltac:(lia) Hpp) as H3.
  set (r := N / 4 / 4 ^ Z.of_nat k) in *. set (p := 4 ^ Z.of_nat k) in *.
  destruct (Z.eq_dec r 0) as [E0|Hne].
  - rewrite E0. cbn [Z.mul Z.max Z.compare]. destruct k as [|k].
    + subst p. cbn. lia.
    + specialize (Hall k ltac:(lia)).
      assert (Hk : r = N / 4 / 4 ^ Z.of_nat k / 4).
      { subst r p. rewrite Nat2Z.inj_succ, Z.pow_succ_r, Z.mul_comm, <- Z.div_div by lia.
        reflexivity. }
      assert (8 / 4 <= N / 4 / 4 ^ Z.of_nat k / 4) by (apply Z.div_le_mono; lia).
      cbn in H. lia.
  - rewrite Z.max_r by lia. nia.
Qed.

(** X11: in the kernel that [GetMeanKernelCode] returns for a work-group
    size with [wx, wy > 0], [wz = 1] and [wx * wy] in the range of [int],
    every lane stores a value made of the cells of the source read by the
    lanes with [local_id < summed_slots], each cell once and multiplied by
    [inv_multiplier_1] then [inv_multiplier_2]: the cells [(x, y)] of the
    plane with [(y mod wy) * wx + x mod wx < summed_slots]. *)
Theorem any_work_group_sums_its_first_slots (G : CalculationsPrecision -> string)
    (args_ : list ArgDecl) (op_def : OperationDef) (src0 dst0 : TensorDescriptor)
    (wg : int3) (L : Launch) (q1 q2 : Q) :
  nth_error (src_tensors op_def) 0 = Some src0 ->
  nth_error (dst_tensors op_def) 0 = Some dst0 ->
  0 < int3_x wg -> 0 < int3_y wg -> int3_z wg = 1 ->
  in_int (int3_x wg * int3_y wg) ->
  lookup "inv_multiplier_1" (launch_args L) = Some q1 ->
  lookup "inv_multiplier_2" (launch_args L) = Some q2 ->
  (HasAxis dst0 BATCH = true -> Batch (launch_dst L) <> 0) ->
  (if HasAxis dst0 BATCH then launch_z L ÷ Batch (launch_dst L) else launch_z L)
  < Slices (launch_dst L) ->
  exists args' body lanes g traces cells,
    GetMeanKernelCode G args_ op_def wg
    = Some (args', G (precision op_def) ++ kernel_text body)
    /\ MeanKernel op_def wg = Some body
    /\ run_kernel L wg body = Some (lanes, g, traces)
    /\ List.length (stores g) = group_size wg
    /\ Forall (fun s =>
                 leaves [] (st_value s) []
                 = map (fun c => ([q1; q2],
                                  (batch_index (HasAxis dst0 BATCH) L, fst c, snd c, slice_index (HasAxis dst0 BATCH) L)))
                       cells)
              (stores g)
    /\ NoDup cells
    /\ forall x y,
         In (x, y) cells
         <-> (0 <= x < Width (launch_src L) /\ 0 <= y < Height (launch_src L))
             /\ y mod int3_y wg * int3_x wg + x mod int3_x wg < summed_slots wg.
Proof.
  intros Hs0 Hd0 Hx Hy _ _ Hq1 Hq2 Hb Hs.
  destruct (generated_kernel G args_ op_def wg src0 dst0 Hs0 Hd0) as [Hg Hk].
  set (batch := HasAxis dst0 BATCH) in *.
  destruct (any_kernel_runs batch wg L q1 q2 Hx Hy Hq1 Hq2 Hb Hs)
    as (lanes & g & tr0 & traces & v & Erun & _ & Hst & Hlv & _).
  assert (HN : 0 < int3_x wg * int3_y wg) by nia.
  pose proof (summed_slots_bounds wg HN) as HM.
  assert (Hc : (Z.to_nat (summed_slots wg) <= group_size wg)%nat)
    by (unfold group_size; lia).
  exists (args_ ++ [SrcTensorArg "src_tensor" src0; DstTensorArg "dst_tensor" dst0;
                    FloatArg "inv_multiplier_1"; FloatArg "inv_multiplier_2"])%list,
         (kernel_body batch wg), lanes, g, (tr0 :: traces),
         (cells_of_lanes L wg (Z.to_nat (summed_slots wg))).
  split; [exact Hg|]. split; [exact Hk|]. split; [exact Erun|]. split.
  { now rewrite Hst, length_map, length_rev, length_seq. }
  split.
  { rewrite Hst. apply Forall_forall. intros s Hin.
    apply in_map_iff in Hin as (i & <- & _). exact Hlv. }
  split; [now apply cells_of_lanes_NoDup|].
  intros x y. rewrite cells_of_lanes_In by assumption.
  rewrite Z2Nat.id by lia. reflexivity.
Qed.

Lemma any_work_group_sums_its_first_slots_witness :
  exists args' body lanes g traces,
    GetMeanKernelCode no_defines [] (sample_def true) six_by_six
    = Some (args', no_defines F32 ++ kernel_text body)
    /\ run_kernel sample_launch six_by_six body = Some (lanes, g, traces)
    /\ List.length (stores g) = 36%nat.
Proof.
  destruct (any_work_group_sums_its_first_slots no_defines [] (sample_def true) _ _
              six_by_six sample_launch (32 # 15) (1 # 32)
              eq_refl eq_refl eq_refl eq_refl eq_refl
              ltac:(unfold in_int, int_min, int_max; cbn; lia)
              eq_refl eq_refl ltac:(discriminate) eq_refl)
    as (args' & body & lanes & g & traces & cells & Hg & _ & Hr & Hl & _).
  exists args', body, lanes, g, traces. repeat split; assumption.
Defined.

(** X12: for [N = wx * wy > 0] the reduction has [k] barriers, where [k]
    is the least number with [N / 4^(k+1) < 8]; it adds up the first
    [max 1 (4^(k+1) * (N / 4^(k+1)))] slots of [accum], never more than [N],
    and all [N] of them exactly when [N = 1] or [4^(k+1)] divides [N]. *)
Theorem slots_summed_by_the_reduction (wg : int3) :
  0 < int3_x wg * int3_y wg ->
  let N := int3_x wg * int3_y wg in
  exists k : nat,
    List.length (filter is_barrier (reduction wg)) = k
    /\ N / 4 ^ Z.of_nat (S k) < 8
    /\ (forall j : nat, (j < k)%nat -> 8 <= N / 4 ^ Z.of_nat (S j))
    /\ summed_slots wg
       = Z.max 1 (4 ^ Z.of_nat (S k) * (N / 4 ^ Z.of_nat (S k)))
    /\ summed_slots wg <= N
    /\ (summed_slots wg = N <-> N = 1 \/ (4 ^ Z.of_nat (S k) | N)).
Proof.
  intros HN. cbv zeta. pose proof (summed_slots_bounds wg HN) as HM.
  unfold summed_slots, reduction in *.
  set (N := int3_x wg * int3_y wg) in *.
  assert (Hq4 : N ÷ 4 = N / 4) by (apply Z.quot_div_nonneg; lia).
  pose proof (Z.div_pos N 4 ltac:(lia) ltac:(lia)) as Hdpos.
  destruct (tree_stmts_exit (Z.to_nat (N ÷ 4)) (N ÷ 4) 1 (Nat.le_refl _))
    as (k & E & Hlt & Hall & Hlen); try (rewrite ?Hq4; lia).
  rewrite Z.mul_1_l in E.
  destruct (tree_stmts (N ÷ 4) 1) as [steps [reminder offset]].
  cbn [fst snd] in E, Hlen. injection E as -> ->. rewrite Hq4 in *.
  assert (Hpp : 0 < 4 ^ Z.of_nat k) by (apply Z.pow_pos_nonneg; lia).
  assert (Hpow : 4 ^ Z.of_nat (S k) = 4 * 4 ^ Z.of_nat k).
  { rewrite Nat2Z.inj_succ, Z.pow_succ_r by lia. reflexivity. }
  assert (Hdd : N / 4 ^ Z.of_nat (S k) = N / 4 / 4 ^ Z.of_nat k).
  { rewrite Hpow, Z.div_div by lia. reflexivity. }
  exists k. split.
  { rewrite !filter_app, !length_app, Hlen.
    rewrite (tail_stmts_values _ _ _ 1 (Nat.le_refl _)).
    cbn [filter is_barrier List.length].
    replace (filter is_barrier (map _ _)) with (@nil stmt); [cbn; lia|].
    symmetry. induction (values 1 _ 1) as [|j l IH]; [reflexivity | exact IH]. }
  split; [now rewrite Hdd|]. split.
  { intros j Hj. rewrite Nat2Z.inj_succ, Z.pow_succ_r, <- Z.div_div by lia.
    now apply Hall. }
  set (r := N / 4 / 4 ^ Z.of_nat k) in *.
  assert (Hr : 0 <= r) by (apply Z.div_pos; lia).
  assert (Hk0 : r = 0 -> k = 0%nat).
  { intros E0. destruct k as [|k]; [reflexivity|].
    specialize (Hall k ltac:(lia)).
    assert (Hk : r = N / 4 / 4 ^ Z.of_nat k / 4).
    { subst r. rewrite Nat2Z.inj_succ, Z.pow_succ_r, Z.mul_comm, <- Z.div_div by lia.
      reflexivity. }
    assert (8 / 4 <= N / 4 / 4 ^ Z.of_nat k / 4) by (apply Z.div_le_mono; lia).
    cbn in H. lia. }
  set (p := 4 ^ Z.of_nat k) in *.
  assert (Hp0 : r = 0 -> p = 1) by (intros E0; subst p; now rewrite (Hk0 E0)).
  split.
  { rewrite Hdd, Hpow. fold r.
    destruct (Z.eq_dec r 0) as [E0|Hne].
    - rewrite E0, (Hp0 E0). reflexivity.
    - rewrite !Z.max_r by nia. lia. }
  split; [lia|].
  pose proof (Z.mul_div_le (N / 4) p Hpp) as H1. fold r in H1.
  pose proof (Z.mul_div_le N 4 ltac:(lia)) as H2.
  split.
  - intros EM. destruct (Z.eq_dec r 0) as [E0|Hne].
    + left. rewrite E0, (Hp0 E0) in EM. cbn in EM. lia.
    + right. exists r. rewrite Hpow. rewrite Z.max_r in EM by lia. lia.
  - intros [E1 | (q & Eq)].
    + assert (E0 : r = 0).
      { subst r. rewrite E1. replace (1 / 4) with 0 by reflexivity.
        apply Z.div_0_l. lia. }
      rewrite E0, (Hp0 E0). cbn. lia.
    + rewrite Hpow in Eq.
      assert (E4 : N / 4 = q * p).
      { rewrite Eq. replace (q * (4 * p)) with (q * p * 4) by lia.
        now rewrite Z.div_mul by lia. }
      assert (Er : r = q) by (subst r; rewrite E4; now rewrite Z.div_mul by lia).
      assert (0 < q) by nia.
      rewrite Z.max_r by lia. rewrite Er, Eq. lia.
Qed.

Lemma slots_summed_by_the_reduction_witness :
  summed_slots six_by_six <= 36.
Proof.
  destruct (slots_summed_by_the_reduction six_by_six eq_refl) as (k & _ & _ & _ & _ & H & _).
  exact H.
Defined.

(** With 36 lanes the step leaves eight blocks of four in the tail: the
    partial sums of the lanes 32 to 35 are not added. *)
Example six_by_six_adds_up_32_slots : summed_slots (mk_int3 6 6 1) = 32.
Proof.
  reflexivity.
Qed.

(** X13: in the kernel that [GetMeanKernelCode] returns for a work-group
    size with [wx, wy > 0], [wz = 1] and [wx * wy] in the range of [int]
    whose reduction adds up all [wx * wy] slots, with a source of
    [H, W > 0] and the scalars [inv_multiplier_1 = wx * wy / (H * W)] and
    [inv_multiplier_2 = 1 / (wx * wy)] as rationals, every lane stores the
    sum of the source over the plane divided by [H * W], in exact
    arithmetic and whatever the source holds. *)
Theorem exact_work_groups_store_the_mean (G : CalculationsPrecision -> string)
    (args_ : list ArgDecl) (op_def : OperationDef) (src0 dst0 : TensorDescriptor)
    (wg : int3) (L : Launch) (q1 q2 : Q) :
  nth_error (src_tensors op_def) 0 = Some src0 ->
  nth_error (dst_tensors op_def) 0 = Some dst0 ->
  0 < int3_x wg -> 0 < int3_y wg -> int3_z wg = 1 ->
  in_int (int3_x wg * int3_y wg) ->
  summed_slots wg = int3_x wg * int3_y wg ->
  lookup "inv_multiplier_1" (launch_args L) = Some q1 ->
  lookup "inv_multiplier_2" (launch_args L) = Some q2 ->
  Height (launch_src L) > 0 -> Width (launch_src L) > 0 ->
  (q1 == inject_Z (int3_x wg * int3_y wg)
         / inject_Z (Height (launch_src L) * Width (launch_src L)))%Q ->
  (q2 == 1 / inject_Z (int3_x wg * int3_y wg))%Q ->
  (HasAxis dst0 BATCH = true -> Batch (launch_dst L) <> 0) ->
  (if HasAxis dst0 BATCH then launch_z L ÷ Batch (launch_dst L) else launch_z L)
  < Slices (launch_dst L) ->
  exists args' body lanes g traces,
    GetMeanKernelCode G args_ op_def wg
    = Some (args', G (precision op_def) ++ kernel_text body)
    /\ MeanKernel op_def wg = Some body
    /\ run_kernel L wg body = Some (lanes, g, traces)
    /\ List.length (stores g) = group_size wg
    /\ forall content : option Z -> Z -> Z -> Z -> Q,
         Forall (fun s =>
                   (denote content (st_value s)
                    == plane_sum content (batch_index (HasAxis dst0 BATCH) L) (slice_index (HasAxis dst0 BATCH) L)
                         (Width (launch_src L)) (Height (launch_src L))
                       / inject_Z (Height (launch_src L) * Width (launch_src L)))%Q)
                (stores g).
Proof.
  intros Hs0 Hd0 Hx Hy _ _ HM Hq1 Hq2 HH HW E1 E2 Hb Hs.
  destruct (generated_kernel G args_ op_def wg src0 dst0 Hs0 Hd0) as [Hg Hk].
  set (batch := HasAxis dst0 BATCH) in *.
  destruct (any_kernel_runs batch wg L q1 q2 Hx Hy Hq1 Hq2 Hb Hs)
    as (lanes & g & tr0 & traces & v & Erun & _ & Hst & Hlv & _).
  exists (args_ ++ [SrcTensorArg "src_tensor" src0; DstTensorArg "dst_tensor" dst0;
                    FloatArg "inv_multiplier_1"; FloatArg "inv_multiplier_2"])%list,
         (kernel_body batch wg), lanes, g, (tr0 :: traces).
  split; [exact Hg|]. split; [exact Hk|]. split; [exact Erun|]. split.
  { now rewrite Hst, length_map, length_rev, length_seq. }
  intros content. rewrite Hst. apply Forall_forall. intros s Hin.
  apply in_map_iff in Hin as (i & <- & _). cbn [lane_store st_value].
  pose proof (denote_leaves content v [] []) as D.
  rewrite Hlv, HM in D.
  change (cells_of_lanes L wg (Z.to_nat (int3_x wg * int3_y wg))) with (group_cells L wg) in D.
  fold (mean_terms batch L wg q1 q2) in D.
  rewrite mean_terms_value in D by assumption.
  cbn [fold_left map Qsum fold_right] in D.
  rewrite Qplus_0_r in D. rewrite <- D, E1, E2.
  set (n := int3_x wg * int3_y wg).
  assert (Hn : 0 < n) by (subst n; nia).
  assert (~ inject_Z n == 0)%Q by (unfold Qeq; cbn; lia).
  assert (~ inject_Z (Height (launch_src L) * Width (launch_src L)) == 0)%Q
    by (unfold Qeq; cbn; nia).
  field. auto.
Qed.

Lemma exact_work_groups_store_the_mean_witness :
  exists args' body lanes g traces,
    GetMeanKernelCode no_defines [] (sample_def true) (mk_int3 4 16 1)
    = Some (args', no_defines F32 ++ kernel_text body)
    /\ run_kernel (bound_launch sample_src sample_dst (64 # 15) (1 # 64) 3)
                  (mk_int3 4 16 1) body
       = Some (lanes, g, traces)
    /\ List.length (stores g) = 64%nat.
Proof.
  destruct (exact_work_groups_store_the_mean no_defines [] (sample_def true) _ _
              (mk_int3 4 16 1)
              (bound_launch sample_src sample_dst (64 # 15) (1 # 64) 3)
              (64 # 15) (1 # 64)
              eq_refl eq_refl eq_refl eq_refl eq_refl
              ltac:(unfold in_int, int_min, int_max; cbn; lia)
              eq_refl eq_refl eq_refl eq_refl eq_refl
              eq_refl eq_refl ltac:(discriminate) eq_refl)
    as (args' & body & lanes & g & traces & Hg & _ & Hr & Hl & _).
  exists args', body, lanes, g, traces. repeat split; assumption.
Defined.

(** X14: the outcome of a work-group does not depend on the order in
    which its lanes run between two barriers.  In the kernel that
    [GetMeanKernelCode] returns for a work-group size with [wx, wy > 0],
    [wz = 1] and [wx * wy] in the range of [int], for any order of the
    lanes, the kernel runs to its end; every lane stores once, at
    [(0, 0, S)] of the batch of the group, a value with the same terms (the
    cells read by the lanes below [summed_slots], with the two scalars);
    every access is within bounds and no cell written by a lane in a phase
    is touched by another lane in that phase.  The increasing order is the
    run of [run_kernel]. *)
Theorem lane_order_does_not_matter (G : CalculationsPrecision -> string)
    (args_ : list ArgDecl) (op_def : OperationDef) (src0 dst0 : TensorDescriptor)
    (wg : int3) (L : Launch) (q1 q2 : Q) (order : list nat) :
  nth_error (src_tensors op_def) 0 = Some src0 ->
  nth_error (dst_tensors op_def) 0 = Some dst0 ->
  0 < int3_x wg -> 0 < int3_y wg -> int3_z wg = 1 ->
  in_int (int3_x wg * int3_y wg) ->
  lookup "inv_multiplier_1" (launch_args L) = Some q1 ->
  lookup "inv_multiplier_2" (launch_args L) = Some q2 ->
  (HasAxis dst0 BATCH = true -> Batch (launch_dst L) <> 0) ->
  (if HasAxis dst0 BATCH then launch_z L ÷ Batch (launch_dst L) else launch_z L)
  < Slices (launch_dst L) ->
  Permutation order (seq 0 (group_size wg)) ->
  exists args' body lanes g traces,
    GetMeanKernelCode G args_ op_def wg
    = Some (args', G (precision op_def) ++ kernel_text body)
    /\ MeanKernel op_def wg = Some body
    /\ run_kernel_in (seq 0 (group_size wg)) L wg body = run_kernel L wg body
    /\ run_kernel_in order L wg body = Some (lanes, g, traces)
    /\ map st_lane (stores g) = map (lane_of wg) (rev order)
    /\ Forall (fun s =>
                 st_x s = 0 /\ st_y s = 0
                 /\ st_s s = slice_index (HasAxis dst0 BATCH) L
                 /\ st_batch s = batch_index (HasAxis dst0 BATCH) L
                 /\ leaves [] (st_value s) []
                    = map (fun c => ([q1; q2],
                                     (batch_index (HasAxis dst0 BATCH) L, fst c, snd c,
                                      slice_index (HasAxis dst0 BATCH) L)))
                          (cells_of_lanes L wg (Z.to_nat (summed_slots wg))))
              (stores g)
    /\ (forall tr a, In tr traces -> In a tr ->
          0 <= acc_cell a < int3_x wg * int3_y wg)
    /\ (forall tr w a, In tr traces -> In w tr -> In a tr ->
          acc_write w = true -> acc_cell w = acc_cell a -> acc_lane w = acc_lane a).
Proof.
  intros Hs0 Hd0 Hx Hy _ _ Hq1 Hq2 Hb Hs Hperm.
  destruct (generated_kernel G args_ op_def wg src0 dst0 Hs0 Hd0) as [Hg Hk].
  set (batch := HasAxis dst0 BATCH) in *.
  destruct (any_kernel_runs_in batch wg L q1 q2 order Hx Hy Hq1 Hq2 Hb Hs)
    as (lanes & g & tr0 & traces & v & Erun & Htr0 & Hst & Hlv & Htrs & _).
  { apply (Permutation_NoDup (Permutation_sym Hperm)), seq_NoDup. }
  { intros i. split; intros Hi.
    - apply (Permutation_in _ Hperm), in_seq in Hi. lia.
    - apply (Permutation_in _ (Permutation_sym Hperm)), in_seq. lia. }
  exists (args_ ++ [SrcTensorArg "src_tensor" src0; DstTensorArg "dst_tensor" dst0;
                    FloatArg "inv_multiplier_1"; FloatArg "inv_multiplier_2"])%list,
         (kernel_body batch wg), lanes, g, (tr0 :: traces).
  split; [exact Hg|]. split; [exact Hk|]. split; [reflexivity|]. split; [exact Erun|]. split.
  { rewrite Hst, map_map. reflexivity. }
  rewrite Forall_forall in Htrs.
  split; [|split].
  - rewrite Hst. apply Forall_forall. intros s Hin.
    apply in_map_iff in Hin as (i & <- & _). cbn [lane_store st_x st_y st_s st_batch st_value].
    repeat split. exact Hlv.
  - intros tr a [<-|Htr] Ha.
    + now apply (proj1 (in_bounds_iff _ _) (own_cells_in_bounds wg tr0 Htr0)).
    + now apply (proj1 (in_bounds_iff _ _) (proj2 (Htrs tr Htr))).
  - intros tr w a [<-|Htr] Hw Ha.
    + now apply (proj1 (race_free_iff _) (own_cells_race_free wg tr0 Htr0)).
    + now apply (proj1 (race_free_iff _) (proj1 (Htrs tr Htr))).
Qed.

Lemma lane_order_does_not_matter_witness :
  exists args' body lanes g traces,
    GetMeanKernelCode no_defines [] (sample_def true) six_by_six
    = Some (args', no_defines F32 ++ kernel_text body)
    /\ run_kernel_in (rev (seq 0 36)) sample_launch six_by_six body
       = Some (lanes, g, traces)
    /\ map st_lane (stores g) = map (lane_of six_by_six) (rev (rev (seq 0 36))).
Proof.
  destruct (lane_order_does_not_matter no_defines [] (sample_def true) _ _
              six_by_six sample_launch (32 # 15) (1 # 32) (rev (seq 0 36))
              eq_refl eq_refl eq_refl eq_refl eq_refl
              ltac:(unfold in_int, int_min, int_max; cbn; lia)
              eq_refl eq_refl ltac:(discriminate) eq_refl
              (Permutation_sym (Permutation_rev (seq 0 36))))
    as (args' & body & lanes & g & traces & Hg & _ & _ & Hr & Hl & _).
  exists args', body, lanes, g, traces. repeat split; assumption.
Defined.

(** ** The generator *)

(** X2: the first loop of the generator, entered with [reminder >= 0] and
    [offset > 0], only appends to the text; it leaves after some [k] steps
    with [reminder / 4^k < 8] and [offset * 4^k], every earlier quotient
    having been at least 8; the product of [reminder] and [offset] has not
    grown; and the tail emitted from these values has at most 27
    additions. *)
Theorem tree_loop_exit (reminder offset : Z) (c : string) :
  0 <= reminder -> 0 < offset ->
  exists (k : nat) (text : string),
    tree_code reminder offset c
    = (c ++ text, (reminder / 4 ^ Z.of_nat k, offset * 4 ^ Z.of_nat k))
    /\ reminder / 4 ^ Z.of_nat k < 8
    /\ (forall j : nat, (j < k)%nat -> 8 <= reminder / 4 ^ Z.of_nat j)
    /\ reminder / 4 ^ Z.of_nat k * (offset * 4 ^ Z.of_nat k) <= reminder * offset
    /\ (List.length (tail_stmts 1 (reminder / 4 ^ Z.of_nat k * 4)
                                (offset * 4 ^ Z.of_nat k)) <= 27)%nat.
Proof.
  intros Hr Ho.
  destruct (tree_stmts_exit (Z.to_nat reminder) reminder offset (Nat.le_refl _) Hr Ho)
    as (k & E & Hlt & Hall & _).
  exists k, (block_text "  " (fst (tree_stmts reminder offset))).
  rewrite tree_code_stmts, E.
  assert (Hpp : 0 < 4 ^ Z.of_nat k) by (apply Z.pow_pos_nonneg; lia).
  pose proof (Z.mul_div_le reminder (4 ^ Z.of_nat k) Hpp) as Hle.
  pose proof (Z.div_pos reminder (4 ^ Z.of_nat k) Hr Hpp) as Hpos.
  split; [reflexivity|]. split; [exact Hlt|]. split; [exact Hall|].
  split; [nia|].
  rewrite (tail_stmts_values _ _ _ 1 (Nat.le_refl _)), length_map.
  pose proof (values_length 1 ltac:(lia) (reminder / 4 ^ Z.of_nat k * 4) _ 1 (Nat.le_refl _))
    as Hlen.
  unfold ceil_ratio in Hlen. rewrite Z.div_1_r in Hlen. lia.
Qed.

Lemma tree_loop_exit_witness :
  exists text : string,
    tree_code 64 1 "" = (text, (4, 16)).
Proof.
  destruct (tree_loop_exit 64 1 "" ltac:(lia) ltac:(lia)) as (k & text & E & Hlt & Hall & _).
  destruct k as [|[|[|k]]].
  - exfalso. cbn in Hlt. lia.
  - exfalso. cbn in Hlt. lia.
  - exists text. exact E.
  - exfalso. specialize (Hall 2%nat ltac:(lia)). cbn in Hall. lia.
Defined.

(** X1: for every definition with its two descriptors, every work-group
    size and whatever [args_] already holds, [GetMeanKernelCode] appends
    the source, the destination and the two scalars, in this order, and
    returns the common defines followed by the entry point around the
    prologue, the accumulation, the reduction and the final store.  The
    text depends on the definition only through its precision and the
    [BATCH] axis of the first destination. *)
Theorem generated_text_is_structured (G : CalculationsPrecision -> string)
    (args_ : list ArgDecl) (op_def : OperationDef) (wg : int3)
    (src0 dst0 : TensorDescriptor) :
  nth_error (src_tensors op_def) 0 = Some src0 ->
  nth_error (dst_tensors op_def) 0 = Some dst0 ->
  GetMeanKernelCode G args_ op_def wg
  = Some ((args_ ++ [SrcTensorArg "src_tensor" src0; DstTensorArg "dst_tensor" dst0;
                     FloatArg "inv_multiplier_1"; FloatArg "inv_multiplier_2"])%list,
          G (precision op_def)
          ++ "__kernel void main_function(" ++ nl ++ "$0) {" ++ nl
          ++ block_text "  " (prologue (HasAxis dst0 BATCH) wg)
          ++ block_text "  " (accumulation wg)
          ++ block_text "  " (reduction wg)
          ++ block_text "  " epilogue
          ++ "}" ++ nl).
Proof.
  intros Hs Hd. rewrite kernel_text_is_rendering. unfold MeanKernel.
  rewrite Hs, Hd. unfold kernel_text, kernel_body.
  now rewrite !block_text_app, !append_assoc.
Qed.

Lemma generated_text_is_structured_witness :
  exists text,
    GetMeanKernelCode no_defines [] (sample_def false) six_by_six
    = Some ([SrcTensorArg "src_tensor" {| axes := [HEIGHT; WIDTH; CHANNELS] |};
             DstTensorArg "dst_tensor" {| axes := [HEIGHT; WIDTH; CHANNELS] |};
             FloatArg "inv_multiplier_1"; FloatArg "inv_multiplier_2"], text).
Proof.
  eexists.
  apply (generated_text_is_structured no_defines [] (sample_def false) six_by_six);
    reflexivity.
Defined.
